(** * mkdocs-gallery: the Python source parser ([py_source_parser.py])

    A shallow embedding of [mkdocs_gallery/py_source_parser.py] and the
    properties of its block splitter, its in-file configuration extractor
    and its configuration-comment stripper.

    Python text is a sequence of Unicode code points.  The two regular
    expressions of the module are kept as data (a regex syntax tree that
    mirrors the pattern string) and run by a greedy backtracking matcher
    with the semantics of Python's [re] module.  The Python standard
    library functions the module calls but does not define ([ast.parse],
    [ast.get_docstring], [tokenize], [ast.literal_eval], [textwrap.dedent],
    [Path.read_text], the interpreter version) are the fields of an
    environment class; the exceptions they raise are part of their
    outcome, and the ones the module does not catch leave its
    functions. *)

From Stdlib Require Import NArith Ascii String.
From stdpp Require Import base option numbers list gmap.

Local Open Scope N_scope.

(** ** Text: code points and Python's string built-ins *)

Definition char := N.
Definition pystr := list char.

(** A Python string literal, written down as a Rocq one. *)
Definition str (s : string) : pystr :=
  map N_of_ascii (list_ascii_of_string s).

Definition NL : char := 10.
Definition TAB : char := 9.
Definition SP : char := 32.
Definition HASH : char := 35.
Definition PERCENT : char := 37.
Definition EQUALS : char := 61.

(** [str.isspace] on one code point, which is also what [\s] matches in
    a [str] pattern. *)
Definition isspace (c : char) : bool :=
  ((9 <=? c) && (c <=? 13)) || ((28 <=? c) && (c <=? 32))
  || (c =? 133) || (c =? 160) || (c =? 5760)
  || ((8192 <=? c) && (c <=? 8202))
  || (c =? 8232) || (c =? 8233) || (c =? 8239) || (c =? 8287)
  || (c =? 12288).

(** [s.lstrip()], [s.rstrip()], [s.strip()]. *)
Fixpoint lstrip (s : pystr) : pystr :=
  match s with
  | c :: tl => if isspace c then lstrip tl else s
  | [] => []
  end.

Definition rstrip (s : pystr) : pystr := rev (lstrip (rev s)).

Definition strip (s : pystr) : pystr := rstrip (lstrip s).

(** Truth value of a string: [if s:] holds for the non-empty ones. *)
Definition truthy (s : pystr) : bool :=
  match s with [] => false | _ :: _ => true end.

(** [s.count('\n')]. *)
Fixpoint count_nl (s : pystr) : nat :=
  match s with
  | c :: tl => if c =? NL then S (count_nl tl) else count_nl tl
  | [] => O
  end.

(** [s.split('\n')]: never empty, one more element than newlines. *)
Fixpoint split_nl (s : pystr) : list pystr :=
  match s with
  | [] => [[]]
  | c :: tl =>
      if c =? NL then [] :: split_nl tl
      else match split_nl tl with
           | l :: ls => (c :: l) :: ls
           | [] => [[c]]
           end
  end.

(** ['\n'.join(ls)]. *)
Fixpoint join_nl (ls : list pystr) : pystr :=
  match ls with
  | [] => []
  | [l] => l
  | l :: ls' => l ++ NL :: join_nl ls'
  end.

(** Slices [s[a:b]] and [s[a:]] for indices within the string. *)
Definition slice (s : pystr) (a b : nat) : pystr := take (b - a) (drop a s).
Definition slice_from (s : pystr) (a : nat) : pystr := drop a s.

(** ** Regular expressions, as Python's [re] runs them *)

Inductive regex : Type :=
| Eps                           (* the empty pattern *)
| Chr (c : char)                (* a literal character *)
| Cls (p : char -> bool)        (* a character set, [\s], [.] *)
| Bol                           (* [^] under [re.MULTILINE] *)
| Seq (r1 r2 : regex)           (* concatenation *)
| Alt (r1 r2 : regex)           (* [r1|r2], left first *)
| Star (r : regex)              (* greedy [r*] *)
| Grp (i : nat) (r : regex).    (* capturing group number [i] *)

(** A pattern written as the sequence of its items. *)
Definition seqs (rs : list regex) : regex := foldr Seq Eps rs.

(** Greedy [r+], [r?] and [r{n,}], and a literal string. *)
Definition Plus (r : regex) : regex := Seq r (Star r).
Definition Opt (r : regex) : regex := Alt r Eps.

Fixpoint Rep (n : nat) (r : regex) : regex :=
  match n with
  | O => Eps
  | S n' => Seq r (Rep n' r)
  end.

Definition AtLeast (n : nat) (r : regex) : regex := Seq (Rep n r) (Star r).

Fixpoint Lit (s : pystr) : regex :=
  match s with
  | [] => Eps
  | c :: tl => Seq (Chr c) (Lit tl)
  end.

(** The matcher's state: how many characters the match has consumed, the
    character just before the current position ([None] at the start of
    the string), the text still ahead, and the groups captured so far
    (most recent first). *)
Record mstate : Type := MState {
  pos : nat;
  prev : option char;
  rest : pystr;
  caps : list (nat * pystr)
}.

Definition advance (c : char) (tl : pystr) (st : mstate) : mstate :=
  {| pos := S (pos st); prev := Some c; rest := tl; caps := caps st |}.

Definition set_cap (i : nat) (w : pystr) (st : mstate) : mstate :=
  {| pos := pos st; prev := prev st; rest := rest st;
     caps := (i, w) :: caps st |}.

(** [^] with [re.MULTILINE]: at the start of the string or right after a
    newline. *)
Definition at_bol (p : option char) : bool :=
  match p with
  | None => true
  | Some c => c =? NL
  end.

(** One greedy repetition loop: try the body once more (it has to
    consume something), and only when everything after that fails, leave
    the loop.  [n] bounds the number of iterations by the text ahead. *)
Fixpoint star_loop (body : mstate -> (mstate -> option mstate) -> option mstate)
    (k : mstate -> option mstate) (n : nat) (st : mstate) : option mstate :=
  match n with
  | O => k st
  | S n' =>
      match body st (fun st' =>
                       if (pos st <? pos st')%nat then star_loop body k n' st'
                       else None) with
      | Some res => Some res
      | None => k st
      end
  end.

(** The backtracking matcher, in continuation-passing style: [exec r st k]
    matches [r] at [st] and hands the state after it to [k]; when [k]
    fails the next alternative of [r] is tried. *)
Fixpoint exec (r : regex) (st : mstate) (k : mstate -> option mstate)
    {struct r} : option mstate :=
  match r with
  | Eps => k st
  | Chr c =>
      match rest st with
      | x :: tl => if x =? c then k (advance x tl st) else None
      | [] => None
      end
  | Cls p =>
      match rest st with
      | x :: tl => if p x then k (advance x tl st) else None
      | [] => None
      end
  | Bol => if at_bol (prev st) then k st else None
  | Seq r1 r2 => exec r1 st (fun st' => exec r2 st' k)
  | Alt r1 r2 =>
      match exec r1 st k with
      | Some res => Some res
      | None => exec r2 st k
      end
  | Star r' => star_loop (exec r') k (S (length (rest st))) st
  | Grp i r' =>
      exec r' st (fun st' =>
                    k (set_cap i (take (pos st' - pos st) (rest st)) st'))
  end.

(** The match of [r] that starts exactly at the text [s], whose
    preceding character is [p]. *)
Definition re_match (r : regex) (p : option char) (s : pystr) : option mstate :=
  exec r {| pos := O; prev := p; rest := s; caps := [] |} Some.

(** [m.group(i)]: [None] for a group that took no part in the match. *)
Fixpoint group (i : nat) (cs : list (nat * pystr)) : option pystr :=
  match cs with
  | [] => None
  | (j, w) :: cs' => if (i =? j)%nat then Some w else group i cs'
  end.

(** A left-to-right scan for the non-overlapping matches of [r]: each
    character of the text is either skipped or belongs to a match.
    [skip] counts the characters of the current match still to pass. *)
Inductive piece : Type :=
| Skipped (c : char)
| Found (text : pystr) (groups : list (nat * pystr)).

Fixpoint scan (r : regex) (p : option char) (skip : nat) (s : pystr)
    {struct s} : list piece :=
  match skip with
  | S j =>
      match s with
      | [] => []
      | c :: tl => scan r (Some c) j tl
      end
  | O =>
      match re_match r p s with
      | Some st =>
          match pos st with
          | S j =>
              Found (take (S j) s) (caps st) ::
                match s with
                | [] => []
                | c :: tl => scan r (Some c) j tl
                end
          | O =>
              Found [] (caps st) ::
                match s with
                | [] => []
                | c :: tl => Skipped c :: scan r (Some c) O tl
                end
          end
      | None =>
          match s with
          | [] => []
          | c :: tl => Skipped c :: scan r (Some c) O tl
          end
      end
  end.

(** A match object: [m.start()], [m.end()] and the groups. *)
Record Match : Type := MkMatch {
  m_start : nat;
  m_end : nat;
  m_text : pystr;
  m_groups : list (nat * pystr)
}.

Fixpoint matches_of (off : nat) (ps : list piece) : list Match :=
  match ps with
  | [] => []
  | Skipped _ :: ps' => matches_of (S off) ps'
  | Found t g :: ps' =>
      {| m_start := off; m_end := off + length t;
         m_text := t; m_groups := g |} :: matches_of (off + length t) ps'
  end.

(** [re.finditer(r, s)]. *)
Definition finditer (r : regex) (s : pystr) : list Match :=
  matches_of O (scan r None O s).

(** [re.sub(r, '', s)] (and the first component of [re.subn]). *)
Definition unmatched (p : piece) : pystr :=
  match p with
  | Skipped c => [c]
  | Found _ _ => []
  end.

Definition re_sub_empty (r : regex) (s : pystr) : pystr :=
  flat_map unmatched (scan r None O s).

(** ** The patterns of the module *)

Definition is_blank (c : char) : bool := (c =? SP) || (c =? TAB).

(** [[A-Za-z0-9_]] *)
Definition is_word (c : char) : bool :=
  ((65 <=? c) && (c <=? 90)) || ((97 <=? c) && (c <=? 122))
  || ((48 <=? c) && (c <=? 57)) || (c =? 95).

(** [.] without [re.DOTALL]: anything but a newline. *)
Definition is_dot (c : char) : bool := negb (c =? NL).

(** [INFILE_CONFIG_PATTERN]:
    [^[\ \t]*#\s*mkdocs_gallery_([A-Za-z0-9_]+)(\s*=\s*(.+))?[\ \t]*\n?]
    with [re.MULTILINE]. *)
Definition INFILE_CONFIG_PATTERN : regex :=
  seqs [ Bol;
         Star (Cls is_blank);
         Chr HASH;
         Star (Cls isspace);
         Lit (str "mkdocs_gallery_");
         Grp 1 (Plus (Cls is_word));
         Opt (Grp 2 (seqs [ Star (Cls isspace);
                            Chr EQUALS;
                            Star (Cls isspace);
                            Grp 3 (Plus (Cls is_dot)) ]));
         Star (Cls is_blank);
         Opt (Chr NL) ].

(** The delimiter pattern of [split_code_and_text_blocks]:
    [<header_line>\s<text_content>] with [re.M], where the named group
    [header_line] (group 1) is [^#{20,}.*|^# ?%%.*] and the named group
    [text_content] (group 2) is the repetition [( ... )*] of the
    non-capturing [^#.*\s?]. *)
Definition header_line : nat := 1.
Definition text_content : nat := 2.

Definition pattern : regex :=
  seqs [ Grp header_line
           (Alt (seqs [ Bol; AtLeast 20 (Chr HASH); Star (Cls is_dot) ])
                (seqs [ Bol; Chr HASH; Opt (Chr SP); Lit (str "%%");
                        Star (Cls is_dot) ]));
         Cls isspace;
         Grp text_content
           (Star (seqs [ Bol; Chr HASH; Star (Cls is_dot);
                         Opt (Cls isspace) ])) ].

(** [sub_pat]: [^#] with [re.M]. *)
Definition sub_pat : regex := seqs [ Bol; Chr HASH ].

(** [SYNTAX_ERROR_DOCSTRING] *)
Definition SYNTAX_ERROR_DOCSTRING : pystr :=
  NL :: str "SyntaxError" ++ NL :: str "===========" ++ NL :: NL ::
  str "Example script with invalid Python syntax" ++ [NL].

(** ** Results, exceptions and the Python standard library *)

Inductive exn : Type :=
| ExtensionError_not_a_module      (* "This function only supports modules" *)
| ExtensionError_no_docstring      (* "Could not find docstring in file" *)
| AssertionError
| LibraryError (name : string).    (* raised by library code, never caught here *)

Inductive result (A : Type) : Type :=
| Ok (a : A)
| Raise (e : exn).
Arguments Ok {A} a.
Arguments Raise {A} e.

Definition bind {A B : Type} (x : result A) (f : A -> result B) : result B :=
  match x with
  | Ok a => f a
  | Raise e => Raise e
  end.

Notation "'let*' x ':=' e1 'in' e2" := (bind e1 (fun x => e2))
  (at level 10, x name, e1 at level 100, e2 at level 200).

(** What the module looks at in a syntax tree: whether the node is a
    module, whether its first statement is an expression statement, and
    whether that expression is a string literal. *)
Inductive expr : Type :=
| Str (s : pystr)
| OtherExpr.

Inductive stmt : Type :=
| Expr (value : expr) (lineno : nat)
| OtherStmt.

Inductive ast_node : Type :=
| Module (body : list stmt)
| OtherNode (cls : string).

(** The outcome of [ast.parse]: a syntax tree, the [SyntaxError] that
    [parse_source_file] catches, or any other exception (a [ValueError]
    for a source with null bytes, ...). *)
Inductive parse_outcome : Type :=
| Parsed (node : ast_node)
| ParseSyntaxError
| ParseError (name : string).

(** A token of [tokenize]: its exact type and the row of its end. *)
Record token : Type := Token {
  exact_type : nat;
  end_row : nat
}.

(** What the iteration over [tokenize.tokenize(...)] gives: the tokens
    that are yielded and, when the tokenizer raises (a [SyntaxError] for
    an unknown encoding cookie, a [TokenError], ...), the exception that
    then ends the iteration. *)
Record token_stream : Type := TokenStream {
  yielded : list token;
  raised : option string
}.

(** The outcome of [ast.literal_eval]: a value, one of the two exceptions
    [extract_file_config] catches, or any other exception. *)
Inductive literal (V : Type) : Type :=
| Value (v : V)
| SyntaxError
| ValueError
| OtherError (name : string).
Arguments Value {V} v.
Arguments SyntaxError {V}.
Arguments ValueError {V}.
Arguments OtherError {V} name.

Definition Path := string.

Class PyEnv : Type := {
  pyvalue : Type;                                (* decoded literals *)
  read_text : Path -> result pystr;              (* [file.read_text(encoding="utf-8")] *)
  ast_parse : pystr -> parse_outcome;            (* [ast.parse] *)
  ast_get_docstring : ast_node -> option pystr;  (* [ast.get_docstring] *)
  python_ge_37 : bool;                           (* [parse(platform.python_version()) >= Version('3.7')] *)
  tokenize : pystr -> token_stream;              (* [tokenize.tokenize] *)
  literal_eval : pystr -> literal pyvalue;       (* [ast.literal_eval] *)
  dedent : pystr -> pystr                        (* [textwrap.dedent] *)
}.

(** ** The module *)

(** [content.replace('\r\n', '\n')] *)
Fixpoint replace_crlf (s : pystr) : pystr :=
  match s with
  | c :: tl =>
      match tl with
      | d :: tl' =>
          if (c =? 13) && (d =? NL) then NL :: replace_crlf tl'
          else c :: replace_crlf tl
      | [] => [c]
      end
  | [] => []
  end.

Inductive label : Type := text | code.

Definition block : Type := label * pystr * nat.

Definition block_label (b : block) : label := fst (fst b).
Definition block_content (b : block) : pystr := snd (fst b).
Definition block_line (b : block) : nat := snd b.

(** A warning of the logger: the option name and the rejected value. *)
Definition warning : Type := pystr * pystr.

Section Parser.
Context `{PyEnv}.

(** Only [SyntaxError] is caught: the node is then [None]. *)
Definition parse_source_file (file : Path) : result (option ast_node * pystr) :=
  let* content := read_text file in
  let content := replace_crlf content in
  match ast_parse content with
  | Parsed node => Ok (Some node, content)
  | ParseSyntaxError => Ok (None, content)
  | ParseError e => Raise (LibraryError e)
  end.

(** The [for tk in ts: ... break ... else: lineno = 0] loop: it stops at
    the first string token, so that an exception of the tokenizer is
    raised only when it comes before that token. *)
Fixpoint first_string_end (ts : list token) (raised : option string)
    : result nat :=
  match ts with
  | tk :: ts' => if (exact_type tk =? 3)%nat then Ok (end_row tk)
                 else first_string_end ts' raised
  | [] => match raised with
          | Some e => Raise (LibraryError e)
          | None => Ok O
          end
  end.

Definition _get_docstring_and_rest (file : Path)
    : result (pystr * pystr * nat * option ast_node) :=
  let* parsed := parse_source_file file in
  let '(node, content) := parsed in
  match node with
  | None => Ok (SYNTAX_ERROR_DOCSTRING, content, 1%nat, node)
  | Some (OtherNode _) => Raise ExtensionError_not_a_module
  | Some (Module body) =>
      match body with
      | Expr (Str s) docstring_lineno :: _ =>
          let* found :=
            if python_ge_37 then
              match ast_get_docstring (Module body) with
              | None => Raise AssertionError
              | Some docstring =>
                  let docstring :=
                    match s with
                    | c :: _ => if c =? NL then NL :: docstring else docstring
                    | [] => docstring
                    end in
                  let ts := tokenize content in
                  let* lineno := first_string_end (yielded ts) (raised ts) in
                  Ok (docstring, lineno)
              end
            else Ok (s, docstring_lineno) in
          let '(docstring, lineno) := found in
          let rest := join_nl (drop lineno (split_nl content)) in
          Ok (docstring, rest, S lineno, node)
      | _ => Raise ExtensionError_no_docstring
      end
  end.

(** The body of the loop of [extract_file_config], on one match: the
    warnings so far, and the mapping or the exception that ends the loop. *)
Definition extract_step (acc : list warning * result (gmap pystr pyvalue))
    (m : Match) : list warning * result (gmap pystr pyvalue) :=
  match acc with
  | (log, Raise e) => (log, Raise e)
  | (log, Ok file_conf) =>
      match group 1 (m_groups m), group 3 (m_groups m) with
      | Some name, Some value =>
          match literal_eval value with
          | Value v => (log, Ok (<[name := v]> file_conf))
          | SyntaxError | ValueError => (log ++ [(name, value)], Ok file_conf)
          | OtherError e => (log, Raise (LibraryError e))
          end
      | _, _ => (log, Ok file_conf)   (* a flag rather than a config setting;
                                         group 1 is never [None], see
                                         [finditer_config_name] *)
      end
  end.

Definition extract_file_config (content : pystr)
    : list warning * result (gmap pystr pyvalue) :=
  foldl extract_step ([], Ok ∅) (finditer INFILE_CONFIG_PATTERN content).

Definition remove_config_comments (code_block : pystr) : pystr :=
  re_sub_empty INFILE_CONFIG_PATTERN code_block.

(** The variables of the loop of [split_code_and_text_blocks]. *)
Record split_state : Type := SplitState {
  st_blocks : list block;
  st_lineno : nat;
  st_pos_so_far : nat
}.

Definition split_step (rest_of_content : pystr) (st : split_state) (m : Match)
    : split_state :=
  let blocks := st_blocks st in
  let lineno := st_lineno st in
  let pos_so_far := st_pos_so_far st in
  let code_block_content := slice rest_of_content pos_so_far (m_start m) in
  let blocks :=
    if truthy (strip code_block_content)
    then blocks ++ [(code, code_block_content, lineno)]
    else blocks in
  let lineno := (lineno + count_nl code_block_content)%nat in
  let lineno := (lineno + 1)%nat in
  (* the group is in every match, see [finditer_pattern_text_content] *)
  let text_content := default [] (group text_content (m_groups m)) in
  let text_block_content :=
    lstrip (dedent (re_sub_empty sub_pat text_content)) in
  let blocks :=
    if truthy (strip text_block_content)
    then blocks ++ [(text, text_block_content, lineno)]
    else blocks in
  let lineno := (lineno + count_nl text_content)%nat in
  let pos_so_far := m_end m in
  {| st_blocks := blocks; st_lineno := lineno; st_pos_so_far := pos_so_far |}.

Record split_out : Type := SplitOut {
  out_file_conf : gmap pystr pyvalue;
  out_blocks : list block;
  out_node : option (option ast_node)     (* present with [return_node=True] *)
}.

Definition split_code_and_text_blocks (source_file : Path) (return_node : bool)
    : list warning * result split_out :=
  match _get_docstring_and_rest source_file with
  | Raise e => ([], Raise e)
  | Ok (docstring, rest_of_content, lineno, node) =>
      let blocks := [(text, docstring, 1%nat)] in
      match extract_file_config rest_of_content with
      | (log, Raise e) => (log, Raise e)
      | (log, Ok file_conf) =>
          let st :=
            foldl (split_step rest_of_content)
              {| st_blocks := blocks; st_lineno := lineno; st_pos_so_far := O |}
              (finditer pattern rest_of_content) in
          let remaining_content :=
            slice_from rest_of_content (st_pos_so_far st) in
          let blocks :=
            if truthy (strip remaining_content)
            then st_blocks st ++ [(code, remaining_content, st_lineno st)]
            else st_blocks st in
          (log, Ok {| out_file_conf := file_conf;
                      out_blocks := blocks;
                      out_node := if return_node then Some node else None |})
      end
  end.

End Parser.

(** ** Properties of blocks and texts used in the statements *)

(** Empty or whitespace only. *)
Definition blank (s : pystr) : bool := forallb isspace s.

(** The line numbers of a block sequence never go down. *)
Definition lines_non_decreasing (bs : list block) : Prop :=
  ∀ (i j : nat) (bi bj : block),
    (i ≤ j)%nat → bs !! i = Some bi → bs !! j = Some bj →
    (block_line bi ≤ block_line bj)%nat.

(** [s.startswith(w)] *)
Fixpoint starts_with (w s : pystr) : bool :=
  match w, s with
  | [], _ => true
  | c :: w', x :: s' => (x =? c) && starts_with w' s'
  | _ :: _, [] => false
  end.

(** ** Example scripts

    Each example fixes one script and gives the standard library's answers
    on it: the syntax tree of the script (or the syntax error), its cleaned
    docstring, its tokens up to the docstring, and the literals of its
    directives.  Decoded values are integers.  No comment text of the
    examples is indented once its leading [#] is removed, so
    [textwrap.dedent] changes nothing there. *)

Definition QUOTE : char := 34.

Definition example_literal_eval (v : pystr) : literal Z :=
  if decide (v = str "1") then Value 1%Z
  else if decide (v = str "2") then Value 2%Z
  else if decide (v = str "{unclosed") then SyntaxError
  else if decide (v = str "{[1]: 2}") then OtherError "TypeError"
  else ValueError.

Definition script_env (content : pystr) (node : parse_outcome)
    (docstring : option pystr) (tokens : list token) : PyEnv :=
  {| pyvalue := Z;
     read_text := fun _ => Ok content;
     ast_parse := fun _ => node;
     ast_get_docstring := fun _ => docstring;
     python_ge_37 := true;
     tokenize := fun _ => {| yielded := tokens; raised := None |};
     literal_eval := example_literal_eval;
     dedent := fun s => s |}.

(** A script with an empty docstring: two quotes, then [x = 1]. *)
Definition empty_doc_script : pystr :=
  [QUOTE; QUOTE; NL] ++ str "x = 1" ++ [NL].

Definition empty_doc_env : PyEnv :=
  script_env empty_doc_script
    (Parsed (Module [Expr (Str []) 1; OtherStmt]))
    (Some [])
    [ {| exact_type := 62; end_row := 0 |};
      {| exact_type := 3; end_row := 1 |};
      {| exact_type := 4; end_row := 1 |} ].

(** A script whose docstring opens with a newline:
    three quotes, [Title] on the second line, three quotes on the third,
    then a flag, a blank line and a statement. *)
Definition titled_script : pystr :=
  [QUOTE; QUOTE; QUOTE; NL] ++ str "Title" ++ [NL; QUOTE; QUOTE; QUOTE; NL]
  ++ str "# mkdocs_gallery_skip" ++ [NL; NL] ++ str "x = 1" ++ [NL].

Definition titled_env : PyEnv :=
  script_env titled_script
    (Parsed (Module [Expr (Str (NL :: str "Title" ++ [NL])) 3; OtherStmt]))
    (Some (str "Title"))
    [ {| exact_type := 62; end_row := 0 |};
      {| exact_type := 3; end_row := 3 |};
      {| exact_type := 4; end_row := 3 |} ].

(** A script with a syntax error (the parenthesis is never closed) and a
    section delimiter: [x = (], twenty hashes, [#A], [y = 1]. *)
Definition broken_script : pystr :=
  str "x = (" ++ [NL] ++ repeat HASH 20 ++ [NL] ++ str "#A" ++ [NL]
  ++ str "y = 1" ++ [NL].

Definition broken_env : PyEnv :=
  script_env broken_script ParseSyntaxError None [].

(** A script with a syntax error and no delimiter: [x = (]. *)
Definition unclosed_script : pystr := str "x = (" ++ [NL].

Definition unclosed_env : PyEnv :=
  script_env unclosed_script ParseSyntaxError None [].

(** An environment for the functions that read no file. *)
Definition no_file_env : PyEnv := script_env [] ParseSyntaxError None [].

(** The name and the text of the value of a directive with a value;
    [None] for a flag. *)
Definition directive_of (m : Match) : option (pystr * pystr) :=
  match group 1 (m_groups m), group 3 (m_groups m) with
  | Some name, Some value => Some (name, value)
  | _, _ => None
  end.


Definition unclosed_then_valid_text : pystr :=
  str "# mkdocs_gallery_foo = {unclosed" ++ [NL]
  ++ str "# mkdocs_gallery_thumbnail_number = 2" ++ [NL].

(** ** Lines and their kinds

    The directive pattern is meant for comment lines.  The statements on
    the stripper are about texts all of whose lines are of one of four
    kinds, which [classify] tells apart by reading the line from the left
    as the pattern does. *)

Fixpoint take_while (f : char -> bool) (s : pystr) : pystr :=
  match s with
  | c :: tl => if f c then c :: take_while f tl else []
  | [] => []
  end.

Fixpoint drop_while (f : char -> bool) (s : pystr) : pystr :=
  match s with
  | c :: tl => if f c then drop_while f tl else s
  | [] => []
  end.

(** What is left of [s] after its prefix [w], when [w] is one. *)
Fixpoint strip_prefix (w s : pystr) : option pystr :=
  match w, s with
  | [], _ => Some s
  | c :: w', x :: s' => if x =? c then strip_prefix w' s' else None
  | _ :: _, [] => None
  end.

Inductive line_kind : Type :=
| PlainLine       (* the first character after spaces and tabs is no [#] *)
| CommentLine     (* a comment whose text does not start with [mkdocs_gallery_<name>] *)
| DirectiveLine   (* [# mkdocs_gallery_<name> = <value>], the value not blank *)
| FlagLine        (* [# mkdocs_gallery_<name>], then spaces and tabs only *)
| OtherLine.      (* a bare [#], a directive followed by other text, ... *)

Definition classify (l : pystr) : line_kind :=
  match drop_while is_blank l with
  | [] => PlainLine
  | c :: l2 =>
      if c =? HASH then
        match drop_while isspace l2 with
        | [] => OtherLine
        | x :: l3 =>
            match strip_prefix (str "mkdocs_gallery_") (x :: l3) with
            | None => CommentLine
            | Some l4 =>
                match take_while is_word l4 with
                | [] => CommentLine
                | _ :: _ =>
                    let l5 := drop_while is_word l4 in
                    match drop_while isspace l5 with
                    | [] => if forallb is_blank l5 then FlagLine else OtherLine
                    | d :: l7 =>
                        if (d =? EQUALS) && negb (blank l7)
                        then DirectiveLine else OtherLine
                    end
                end
            end
        end
      else PlainLine
  end.

(** The lines the stripper removes. *)
Definition is_removed (l : pystr) : bool :=
  match classify l with
  | DirectiveLine | FlagLine => true
  | _ => false
  end.

(** A text, given by its lines, is tidy when every line is plain, an
    ordinary comment, a directive with its value, or a flag that the text
    after it does not continue with an [=]. *)
Fixpoint tidy (ls : list pystr) : bool :=
  match ls with
  | [] => true
  | l :: ls' =>
      match classify l with
      | OtherLine => false
      | FlagLine =>
          negb (starts_with [EQUALS] (drop_while isspace (join_nl ls')))
          && tidy ls'
      | _ => tidy ls'
      end
  end.

(** The lines that are left once the removed ones are gone with their
    newline; a removed last line leaves its (empty) place. *)
Fixpoint strip_lines (ls : list pystr) : list pystr :=
  match ls with
  | [] => []
  | l :: ls' =>
      match ls' with
      | [] => [if is_removed l then [] else l]
      | _ :: _ => if is_removed l then strip_lines ls' else l :: strip_lines ls'
      end
  end.

(** A line starts like a section delimiter: twenty hashes, or [#%%], or
    [# %%]. *)
Definition is_header_start (s : pystr) : bool :=
  starts_with (repeat HASH 20) s
  || starts_with (str "#%%") s
  || starts_with (str "# %%") s.

(** No line of the text [s], which comes after the character [p], starts
    like a section delimiter. *)
Fixpoint no_delimiter_line (p : option char) (s : pystr) : bool :=
  negb (at_bol p && is_header_start s)
  && match s with
     | [] => true
     | c :: tl => no_delimiter_line (Some c) tl
     end.

(** ** The matcher on a run of characters of one class *)

(** The state after the characters [w], which are the text ahead. *)
Fixpoint consume (w : pystr) (st : mstate) : mstate :=
  match w with
  | [] => st
  | c :: w' => consume w' (advance c (tail (rest st)) st)
  end.

(** What [Star (Cls f)] does: take the characters of the class one by
    one, and give them back one by one as long as what follows fails. *)
Fixpoint greedy_aux (f : char -> bool) (k : mstate -> option mstate)
    (s : pystr) (st : mstate) : option mstate :=
  match s with
  | x :: tl =>
      if f x then
        match greedy_aux f k tl (advance x tl st) with
        | Some res => Some res
        | None => k st
        end
      else k st
  | [] => k st
  end.

Definition greedy (f : char -> bool) (k : mstate -> option mstate)
    (st : mstate) : option mstate :=
  greedy_aux f k (rest st) st.

(** The texts of the examples of the stripper. *)

(** A bare comment, a blank line and an assignment to a variable whose
    name starts with [mkdocs_gallery_]. *)
Definition bare_comment_text : pystr :=
  str "#" ++ [NL; NL] ++ str "mkdocs_gallery_x = 2" ++ [NL]
  ++ str "print(mkdocs_gallery_x)" ++ [NL].

(** A directive whose value is missing, between blank lines. *)
Definition missing_value_text : pystr :=
  str "a = 1" ++ [NL; NL] ++ str "# mkdocs_gallery_thumbnail_number ="
  ++ [NL; NL] ++ str "b = 2" ++ [NL].


(** The example of the module's comment: a directive between blank
    lines. *)
Definition thumbnail_text : pystr :=
  str "a = 1" ++ [NL; NL] ++ str "# mkdocs_gallery_thumbnail_number = 2"
  ++ [NL; NL] ++ str "b = 2".

(** The matcher is at the state [st] in the text [s], with [r] ahead:
    [s] is what the match has consumed followed by [r]. *)
Definition at_text (s : pystr) (st : mstate) (r : pystr) : Prop :=
  rest st = r ∧ ∃ w, s = w ++ r ∧ pos st = length w.

(** What follows a line: the end of the text, or a newline. *)
Definition line_end (tl : pystr) : Prop := tl = [] ∨ ∃ s', tl = NL :: s'.

(** The match [e] succeeds in the text [s] and leaves [r] ahead. *)
Definition succeeds (s : pystr) (e : option mstate) (r : pystr) : Prop :=
  ∃ st, e = Some st ∧ at_text s st r.

(** The lines that stay. *)
Definition is_kept (l : pystr) : Prop :=
  classify l = PlainLine ∨ classify l = CommentLine.

(** ** Invariants of the loop of the splitter *)

(** What the loop keeps true: the lines are in order and none is beyond
    the running line counter. *)
Definition lines_bounded (bs : list block) (n : nat) : Prop :=
  lines_non_decreasing bs ∧ ∀ b, b ∈ bs → (block_line b ≤ n)%nat.

(** What the loop keeps true: every block after the first has a character
    that is not whitespace. *)
Definition rest_not_blank (bs : list block) : Prop :=
  ∀ b, b ∈ tail bs → blank (block_content b) = false.

(** What [split_code_and_text_blocks] returns on the broken script: the
    syntax error does not stop the splitting at the delimiter. *)
Definition broken_blocks : list block :=
  [ (text, SYNTAX_ERROR_DOCSTRING, 1%nat);
    (code, str "x = (" ++ [NL], 1%nat);
    (text, str "A" ++ [NL], 3%nat);
    (code, str "y = 1" ++ [NL], 4%nat) ].

(** ** Definitions for the further properties *)

(** The text has a carriage return directly followed by a newline. *)
Fixpoint has_crlf (s : pystr) : bool :=
  match s with
  | c :: tl =>
      match tl with
      | d :: _ => ((c =? 13) && (d =? NL)) || has_crlf tl
      | [] => false
      end
  | [] => false
  end.

(** A script without docstring: the statement [x = 1]. *)
Definition no_doc_script : pystr := str "x = 1" ++ [NL].

Definition no_doc_env : PyEnv :=
  script_env no_doc_script (Parsed (Module [OtherStmt])) None
    [ {| exact_type := 62; end_row := 0 |};
      {| exact_type := 1; end_row := 1 |} ].

(** A line that the directive pattern leaves alone. *)
Definition is_kept_line (l : pystr) : bool :=
  match classify l with
  | PlainLine | CommentLine => true
  | _ => false
  end.

(** A text with a Windows line ending. *)
Definition crlf_text : pystr := str "a = 1" ++ [13; NL] ++ str "b = 2" ++ [NL].

(** A text of statements and ordinary comments. *)
Definition plain_text : pystr :=
  str "# a comment" ++ [NL] ++ str "a = 1  # mkdocs_gallery_x = 1" ++ [NL; NL]
  ++ str "b = 2".
(** The characters of the text that a piece of the scan stands for. *)
Definition piece_text (p : piece) : pystr :=
  match p with
  | Skipped c => [c]
  | Found t _ => t
  end.

(** A text block starts with a character that is not whitespace. *)
Definition text_starts_clean (b : block) : Prop :=
  block_label b = text →
  ∃ c tl, block_content b = c :: tl ∧ isspace c = false.

(** The header line of a delimiter match ends with its newline: the
    match has one newline more than its [text_content]. *)
Definition header_ends_line (m : Match) : bool :=
  (count_nl (m_text m)
   =? S (count_nl (default [] (group text_content (m_groups m)))))%nat.

(** The matches [ms] lie in the text one after the other, from the
    offset [off] on, each with its text between its start and its end. *)
Fixpoint positioned (s : pystr) (off : nat) (ms : list Match) : Prop :=
  match ms with
  | [] => True
  | m :: ms' =>
      (off ≤ m_start m)%nat
      ∧ drop (m_start m) s = m_text m ++ drop (m_end m) s
      ∧ m_end m = (m_start m + length (m_text m))%nat
      ∧ (m_end m ≤ length s)%nat
      ∧ positioned s (m_end m) ms'
  end.

(** A block is where its line number says, in the text [s] whose first
    line has the number [l]: a code block is a part of [s] that starts
    on the line of its number; a text block has the number of the line
    after the one on which a delimiter match of [ms] starts, and is made
    of the [text_content] of that match. *)
Definition block_in_place `{PyEnv} (s : pystr) (l : nat) (ms : list Match)
    (b : block) : Prop :=
  match block_label b with
  | code =>
      ∃ a z, s = a ++ block_content b ++ z
             ∧ block_line b = (l + count_nl a)%nat
  | text =>
      ∃ m a z, m ∈ ms
               ∧ s = a ++ m_text m ++ z
               ∧ block_line b = S (l + count_nl a)
               ∧ block_content b
                 = lstrip (dedent (re_sub_empty sub_pat
                             (default [] (group text_content (m_groups m)))))
  end.

(** ** What a pattern matches

    The texts that a pattern can match, with the groups it captures on
    the way (most recent first); [p] is the character before the text.
    The matcher [exec] only ever returns such matches, see
    [exec_sound]. *)

(** The character before the position that follows the text [w], which
    itself follows [p]. *)
Definition prev_after (p : option char) (w : pystr) : option char :=
  match last w with
  | Some c => Some c
  | None => p
  end.

Inductive star_lang (L : option char → pystr → list (nat * pystr) → Prop)
    : option char → pystr → list (nat * pystr) → Prop :=
| star_lang_nil (p : option char) : star_lang L p [] []
| star_lang_cons (p : option char) (w1 w2 : pystr)
    (cs1 cs2 : list (nat * pystr)) :
    L p w1 cs1 → w1 ≠ [] → star_lang L (prev_after p w1) w2 cs2 →
    star_lang L p (w1 ++ w2) (cs2 ++ cs1).

Fixpoint lang (r : regex) (p : option char) (w : pystr)
    (cs : list (nat * pystr)) : Prop :=
  match r with
  | Eps => w = [] ∧ cs = []
  | Chr c => w = [c] ∧ cs = []
  | Cls f => ∃ x, w = [x] ∧ f x = true ∧ cs = []
  | Bol => at_bol p = true ∧ w = [] ∧ cs = []
  | Seq r1 r2 =>
      ∃ w1 w2 cs1 cs2,
        w = w1 ++ w2 ∧ cs = cs2 ++ cs1
        ∧ lang r1 p w1 cs1 ∧ lang r2 (prev_after p w1) w2 cs2
  | Alt r1 r2 => lang r1 p w cs ∨ lang r2 p w cs
  | Star r' => star_lang (lang r') p w cs
  | Grp i r' => ∃ cs', cs = (i, w) :: cs' ∧ lang r' p w cs'
  end.

(** The end of the line of a directive: spaces and tabs, then the
    newline of the line or nothing. *)
Definition line_tail (t : pystr) : Prop :=
  ∃ bl e, t = bl ++ e ∧ forallb is_blank bl = true ∧ (e = [] ∨ e = [NL]).

(** What follows the name in a match of the directive pattern with the
    groups [cs]: the end of the line for a flag; for a directive the
    equals sign, between whitespace, and the value, which is group 3,
    is not empty and has no newline. *)
Definition after_name (cs : list (nat * pystr)) (tail : pystr) : Prop :=
  (group 3 cs = None ∧ line_tail tail)
  ∨ (∃ s1 s2 v t,
       group 3 cs = Some v
       ∧ tail = s1 ++ EQUALS :: s2 ++ v ++ t
       ∧ forallb isspace s1 = true ∧ forallb isspace s2 = true
       ∧ v ≠ [] ∧ forallb is_dot v = true
       ∧ line_tail t).

(** The delimiter match of the broken script. *)
Definition broken_match : Match :=
  {| m_start := 6; m_end := 30;
     m_text := repeat HASH 20 ++ [NL] ++ str "#A" ++ [NL];
     m_groups := [(text_content, str "#A" ++ [NL]);
                  (header_line, repeat HASH 20)] |}.

(** The directive match of the module's example. *)
Definition thumbnail_match : Match :=
  {| m_start := 7; m_end := 45;
     m_text := str "# mkdocs_gallery_thumbnail_number = 2" ++ [NL];
     m_groups := [(2%nat, str " = 2"); (3%nat, str "2");
                  (1%nat, str "thumbnail_number")] |}.

(** A text that gives the same option twice. *)
Definition repeated_text : pystr :=
  str "# mkdocs_gallery_a = 1" ++ [NL] ++ str "# mkdocs_gallery_a = 2" ++ [NL].

(** Its second directive. *)
Definition repeated_match : Match :=
  {| m_start := 23; m_end := 46;
     m_text := str "# mkdocs_gallery_a = 2" ++ [NL];
     m_groups := [(2%nat, str " = 2"); (3%nat, str "2"); (1%nat, str "a")] |}.

(** A line without the [#] it starts with, if it starts with one. *)
Definition strip_hash (l : pystr) : pystr :=
  match l with
  | c :: l' => if c =? HASH then l' else l
  | [] => []
  end.

(** The lines of a text that starts at the start of a line ([bol]) or
    inside one, each without its leading [#]. *)
Definition sub_lines (bol : bool) (ls : list pystr) : list pystr :=
  match ls with
  | l :: ls' => (if bol then strip_hash l else l) :: (strip_hash <$> ls')
  | [] => []
  end.

(** The text made of the gaps and of the texts between them: a gap, a
    text, a gap, ..., a gap. *)
Fixpoint interleave (gaps texts : list pystr) : pystr :=
  match gaps, texts with
  | g :: gs, t :: ts => g ++ t ++ interleave gs ts
  | g :: _, [] => g
  | [], _ => []
  end.

(** The parts of the text [s] from [pos_so_far] on that lie before,
    between and after the matches [ms]: what the loop of
    [split_code_and_text_blocks] takes as [code_block_content] and, at
    the end, as [remaining_content]. *)
Fixpoint gaps_of (s : pystr) (pos_so_far : nat) (ms : list Match)
    : list pystr :=
  match ms with
  | [] => [slice_from s pos_so_far]
  | m :: ms' => slice s pos_so_far (m_start m) :: gaps_of s (m_end m) ms'
  end.





(** The lines of a run of comment lines: every line starts with [#],
    but for the last one, which can be empty (the run then ends with a
    newline). *)
Fixpoint comment_lines (ls : list pystr) : bool :=
  match ls with
  | [] => true
  | l :: ls' =>
      match ls' with
      | [] => match l with [] => true | _ :: _ => starts_with [HASH] l end
      | _ :: _ => starts_with [HASH] l && comment_lines ls'
      end
  end.

(** What [exec] promises on a pattern: a result comes from the
    continuation, run after a text that the pattern matches. *)
Definition sound_on (L : option char → pystr → list (nat * pystr) → Prop)
    (body : mstate → (mstate → option mstate) → option mstate) : Prop :=
  ∀ st k res, body st k = Some res →
    ∃ st' w cs, k st' = Some res
                ∧ rest st = w ++ rest st'
                ∧ pos st' = (pos st + length w)%nat
                ∧ prev st' = prev_after (prev st) w
                ∧ caps st' = cs ++ caps st
                ∧ L (prev st) w cs.

(** ** Definitions for the flags and for the errors of the library *)

(** The text [s] starts with [w] and goes on, after whitespace only,
    with an equals sign. *)
Definition value_here (w s : pystr) : bool :=
  match strip_prefix w s with
  | Some r => starts_with [EQUALS] (drop_while isspace r)
  | None => false
  end.

(** Somewhere in the text [s], [w] is followed, after whitespace only
    (newlines included), by an equals sign. *)
Fixpoint value_follows (w s : pystr) : bool :=
  value_here w s
  || match s with
     | [] => false
     | _ :: tl => value_follows w tl
     end.

(** A flag alone on its line, and a line that starts with an equals
    sign. *)
Definition flag_then_value_text : pystr :=
  str "# mkdocs_gallery_skip" ++ [NL] ++ str "= 2" ++ [NL].

(** A flag and a directive of another name. *)
Definition flag_and_directive_text : pystr :=
  str "# mkdocs_gallery_skip" ++ [NL]
  ++ str "# mkdocs_gallery_thumbnail_number = 2" ++ [NL].

(** No token of the list is a string token. *)
Definition no_string_token (ts : list token) : bool :=
  forallb (fun tk => negb (exact_type tk =? 3)%nat) ts.

(** A script with an encoding cookie that names no encoding: a comment
    [# coding: foobar], then the docstring of the titled script and a
    statement.  The parser accepts it (the source is given as text) and
    the tokenizer, which reads bytes, raises [SyntaxError]. *)
Definition cookie_script : pystr :=
  str "# coding: foobar" ++ [NL; QUOTE; QUOTE; QUOTE; NL] ++ str "Title"
  ++ [NL; QUOTE; QUOTE; QUOTE; NL] ++ str "x = 1" ++ [NL].

Definition cookie_env : PyEnv :=
  {| pyvalue := Z;
     read_text := fun _ => Ok cookie_script;
     ast_parse := fun _ =>
       Parsed (Module [Expr (Str (NL :: str "Title" ++ [NL])) 4; OtherStmt]);
     ast_get_docstring := fun _ => Some (str "Title");
     python_ge_37 := true;
     tokenize := fun _ => {| yielded := []; raised := Some "SyntaxError"%string |};
     literal_eval := example_literal_eval;
     dedent := fun s => s |}.

(** The titled script with a tokenizer that raises after the tokens of
    the docstring. *)
Definition late_error_env : PyEnv :=
  {| pyvalue := Z;
     read_text := fun _ => Ok titled_script;
     ast_parse := fun _ =>
       Parsed (Module [Expr (Str (NL :: str "Title" ++ [NL])) 3; OtherStmt]);
     ast_get_docstring := fun _ => Some (str "Title");
     python_ge_37 := true;
     tokenize := fun _ =>
       {| yielded := [ {| exact_type := 62; end_row := 0 |};
                       {| exact_type := 3; end_row := 3 |} ];
          raised := Some "TokenError"%string |};
     literal_eval := example_literal_eval;
     dedent := fun s => s |}.

(** A source with a null byte, which [ast.parse] refuses with a
    [ValueError] (Python 3.11 and earlier). *)
Definition null_byte_script : pystr := str "x = 1" ++ [0; NL].

Definition null_byte_env : PyEnv :=
  {| pyvalue := Z;
     read_text := fun _ => Ok null_byte_script;
     ast_parse := fun _ => ParseError "ValueError";
     ast_get_docstring := fun _ => None;
     python_ge_37 := true;
     tokenize := fun _ => {| yielded := []; raised := None |};
     literal_eval := example_literal_eval;
     dedent := fun s => s |}.

(** * Properties *)

(** ** The built-ins *)

Lemma isspace_NL : isspace NL = true.
Proof. reflexivity. Qed.

Lemma lstrip_nil_blank (s : pystr) : lstrip s = [] ↔ blank s = true.
Proof.
  induction s as [|c s IH]; simpl; [done|].
  destruct (isspace c); simpl; [exact IH|]. split; discriminate.
Qed.

Lemma lstrip_not_blank (s : pystr) : lstrip s ≠ [] → blank (lstrip s) = false.
Proof.
  induction s as [|c s IH]; simpl; [done|].
  destruct (isspace c) eqn:E; [exact IH|].
  intros _. simpl. by rewrite E.
Qed.

Lemma blank_rev (s : pystr) : blank (rev s) = blank s.
Proof.
  unfold blank. induction s as [|c s IH]; simpl; [done|].
  rewrite forallb_app, IH. simpl. rewrite andb_true_r. apply andb_comm.
Qed.

Lemma rstrip_nil_blank (s : pystr) : rstrip s = [] ↔ blank s = true.
Proof.
  unfold rstrip. rewrite <- blank_rev, <- lstrip_nil_blank.
  split; intros E.
  - apply (f_equal (@rev char)) in E. by rewrite rev_involutive in E.
  - by rewrite E.
Qed.

Lemma blank_lstrip (s : pystr) : blank (lstrip s) = blank s.
Proof.
  induction s as [|c s IH]; simpl; [done|].
  destruct (isspace c) eqn:E; simpl; by rewrite ?E.
Qed.

(** The guard [if s.strip():] is the test for a character that is not
    whitespace. *)
Lemma truthy_strip (s : pystr) : truthy (strip s) = negb (blank s).
Proof.
  unfold strip. destruct (blank s) eqn:E; simpl.
  - apply lstrip_nil_blank in E. rewrite E. reflexivity.
  - destruct (rstrip (lstrip s)) eqn:R; [|done].
    apply rstrip_nil_blank in R. rewrite blank_lstrip in R. congruence.
Qed.

Lemma foldl_invariant {A B : Type} (P : A → Prop) (f : A → B → A)
    (l : list B) (a : A) :
  P a → (∀ a b, P a → P (f a b)) → P (foldl f a l).
Proof.
  intros Ha Hf. revert a Ha. induction l as [|b l IH]; simpl; auto.
Qed.

(** ** The block splitter *)

Section SplitterProperties.
Context `{PyEnv}.

Lemma get_docstring_lineno_positive (file : Path) (d rest : pystr) (l : nat)
    (node : option ast_node) :
  _get_docstring_and_rest file = Ok (d, rest, l, node) → (1 ≤ l)%nat.
Proof.
  unfold _get_docstring_and_rest, parse_source_file.
  destruct (read_text file) as [raw|e]; simpl; [|discriminate].
  destruct (ast_parse (replace_crlf raw)) as [[body|cls]| |e]; simpl;
    [| discriminate | intros [= <- <- <- <-]; lia | discriminate].
  destruct body as [|[[s|] dl|] body]; try discriminate.
  destruct python_ge_37.
  - destruct (ast_get_docstring _); simpl; [|discriminate].
    destruct (first_string_end _ _); simpl; [|discriminate].
    intros [= <- <- <- <-]. lia.
  - simpl. intros [= <- <- <- <-]. lia.
Qed.

(** What the loop keeps true: the docstring block stays in front. *)
Lemma split_step_first (rest : pystr) (b0 : block) (st : split_state)
    (m : Match) :
  (∃ bs, st_blocks st = b0 :: bs) →
  ∃ bs, st_blocks (split_step rest st m) = b0 :: bs.
Proof.
  intros [bs E]. unfold split_step. simpl. rewrite E.
  repeat match goal with |- context [if ?c then _ else _] => destruct c end;
    simpl; eauto.
Qed.

(** Claim C1: when the docstring extractor returns a docstring for a
    file, the block sequence that [split_code_and_text_blocks] returns
    starts with the text block of that docstring at line 1; the call
    returns unless the config extractor raises. *)
Theorem first_block_is_docstring (file : Path) (return_node : bool)
    (docstring rest : pystr) (l : nat) (node : option ast_node) :
  _get_docstring_and_rest file = Ok (docstring, rest, l, node) →
  match split_code_and_text_blocks file return_node with
  | (_, Ok out) => ∃ bs, out_blocks out = (text, docstring, 1%nat) :: bs
  | (_, Raise e) => snd (extract_file_config rest) = Raise e
  end.
Proof.
  intros E. unfold split_code_and_text_blocks. rewrite E.
  destruct (extract_file_config rest) as [log [conf|e]]; simpl; [|done].
  match goal with |- context [foldl ?f ?a ?l] =>
    destruct (foldl_invariant
                (fun st => ∃ bs, st_blocks st = (text, docstring, 1%nat) :: bs)
                f l a) as [bs Hbs]
  end.
  - simpl. eauto.
  - intros st m. apply split_step_first.
  - rewrite Hbs. destruct (truthy _); simpl; eauto.
Qed.

Lemma lines_bounded_mono (bs : list block) (n n' : nat) :
  lines_bounded bs n → (n ≤ n')%nat → lines_bounded bs n'.
Proof.
  intros [Hs Hb] Hn. split; [done|]. intros b Hin. specialize (Hb b Hin). lia.
Qed.

Lemma lines_bounded_snoc (bs : list block) (n : nat) (lab : label)
    (content : pystr) :
  lines_bounded bs n → lines_bounded (bs ++ [(lab, content, n)]) n.
Proof.
  intros [Hs Hb]. split.
  - intros i j bi bj Hij Hi Hj.
    apply lookup_app_Some in Hi as [Hi|[Hli Hi]];
      apply lookup_app_Some in Hj as [Hj|[Hlj Hj]].
    + eauto.
    + apply list_lookup_singleton_Some in Hj as [_ <-]. simpl.
      apply Hb. eapply list_elem_of_lookup_2. exact Hi.
    + apply lookup_lt_Some in Hj. lia.
    + apply list_lookup_singleton_Some in Hi as [_ <-].
      apply list_lookup_singleton_Some in Hj as [_ <-]. done.
  - intros b Hin. apply elem_of_app in Hin as [Hin|Hin]; [by apply Hb|].
    apply list_elem_of_singleton in Hin as ->. done.
Qed.

Lemma split_step_lines (rest : pystr) (st : split_state) (m : Match) :
  lines_bounded (st_blocks st) (st_lineno st) →
  lines_bounded (st_blocks (split_step rest st m))
    (st_lineno (split_step rest st m)).
Proof.
  intros Hinv. unfold split_step. simpl.
  set (c := slice rest (st_pos_so_far st) (m_start m)).
  set (t := default [] (group text_content (m_groups m))).
  assert (lines_bounded
            (if truthy (strip c)
             then st_blocks st ++ [(code, c, st_lineno st)]
             else st_blocks st)
            (st_lineno st + count_nl c + 1)) as H1.
  { destruct (truthy (strip c)).
    - eapply lines_bounded_mono; [by apply lines_bounded_snoc|lia].
    - eapply lines_bounded_mono; [exact Hinv|lia]. }
  destruct (truthy (strip (lstrip _))).
  - eapply lines_bounded_mono; [by apply lines_bounded_snoc|lia].
  - eapply lines_bounded_mono; [exact H1|lia].
Qed.

(** Claim C2: the start lines of the blocks that
    [split_code_and_text_blocks] returns are non-decreasing in sequence
    order, for every file. *)
Theorem block_lines_non_decreasing (file : Path) (return_node : bool)
    (log : list warning) (out : split_out) :
  split_code_and_text_blocks file return_node = (log, Ok out) →
  lines_non_decreasing (out_blocks out).
Proof.
  unfold split_code_and_text_blocks.
  destruct (_get_docstring_and_rest file) as [[[[d rest] l] node]|e] eqn:E;
    [|discriminate].
  apply get_docstring_lineno_positive in E.
  destruct (extract_file_config rest) as [log' [conf|e]]; [|discriminate].
  intros [= _ <-]. simpl.
  match goal with |- context [foldl ?f ?a ?l] =>
    pose proof (foldl_invariant
                  (fun st => lines_bounded (st_blocks st) (st_lineno st))
                  f l a) as Hinv
  end.
  simpl in Hinv. destruct Hinv as [Hs Hb].
  - split.
    + intros i j bi bj Hij Hi Hj.
      apply list_lookup_singleton_Some in Hi as [_ <-].
      apply list_lookup_singleton_Some in Hj as [_ <-]. done.
    + intros b Hin. apply list_elem_of_singleton in Hin as ->. done.
  - intros st m. apply split_step_lines.
  - destruct (truthy _); [|done].
    by apply lines_bounded_snoc.
Qed.

Lemma rest_not_blank_snoc (bs : list block) (lab : label) (content : pystr)
    (n : nat) :
  bs ≠ [] → rest_not_blank bs → truthy (strip content) = true →
  rest_not_blank (bs ++ [(lab, content, n)]).
Proof.
  intros Hne Hbs Ht b Hin. destruct bs as [|b0 bs]; [done|]. simpl in *.
  apply elem_of_app in Hin as [Hin|Hin]; [by apply Hbs|].
  apply list_elem_of_singleton in Hin as ->.
  unfold block_content. simpl.
  rewrite truthy_strip in Ht. by destruct (blank content).
Qed.

Lemma split_step_not_blank (rest : pystr) (st : split_state) (m : Match) :
  st_blocks st ≠ [] ∧ rest_not_blank (st_blocks st) →
  st_blocks (split_step rest st m) ≠ []
  ∧ rest_not_blank (st_blocks (split_step rest st m)).
Proof.
  intros [Hne Hinv]. unfold split_step. simpl.
  set (c := slice rest (st_pos_so_far st) (m_start m)).
  assert (let bs := if truthy (strip c)
                    then st_blocks st ++ [(code, c, st_lineno st)]
                    else st_blocks st in
          bs ≠ [] ∧ rest_not_blank bs) as [Hne1 H1].
  { simpl. destruct (truthy (strip c)) eqn:Hc; [|done].
    split; [by destruct (st_blocks st)|by apply rest_not_blank_snoc]. }
  destruct (truthy (strip (lstrip _))) eqn:Ht; [|done].
  split; [|by apply rest_not_blank_snoc].
  intros E. by apply app_eq_nil in E as [_ ?].
Qed.

(** Claim C3, amended: every block after the leading docstring block in
    the sequence that [split_code_and_text_blocks] returns has a character
    that is not whitespace. *)
Theorem later_blocks_not_blank (file : Path) (return_node : bool)
    (log : list warning) (out : split_out) :
  split_code_and_text_blocks file return_node = (log, Ok out) →
  ∀ b, b ∈ tail (out_blocks out) → blank (block_content b) = false.
Proof.
  unfold split_code_and_text_blocks.
  destruct (_get_docstring_and_rest file) as [[[[d rest] l] node]|e];
    [|discriminate].
  destruct (extract_file_config rest) as [log' [conf|e]]; [|discriminate].
  intros [= _ <-]. simpl.
  match goal with |- context [foldl ?f ?a ?l] =>
    pose proof (foldl_invariant
                  (fun st => st_blocks st ≠ [] ∧ rest_not_blank (st_blocks st))
                  f l a) as Hinv
  end.
  simpl in Hinv. destruct Hinv as [Hne Hinv].
  - split; [done|]. intros b Hin. simpl in Hin. by apply elem_of_nil in Hin.
  - intros st m. apply split_step_not_blank.
  - destruct (truthy _) eqn:Ht; [|exact Hinv].
    by apply rest_not_blank_snoc.
Qed.

(** Claim C10: for a file that parses and whose leading string literal
    starts with a newline, the docstring returned by
    [_get_docstring_and_rest] starts with a newline: on Python 3.7 and
    later it is a newline put in front of what [ast.get_docstring] gives
    (whether or not that utility stripped it), before 3.7 it is the raw
    literal.  The extractor returns this docstring before 3.7 and, from
    3.7 on, when the tokenizer yields a string token or ends without an
    exception; an exception that the tokenizer raises before its first
    string token leaves the extractor, and no docstring is returned. *)
Theorem docstring_keeps_leading_newline (file : Path) (raw s d : pystr)
    (dl : nat) (body : list stmt) :
  read_text file = Ok raw →
  ast_parse (replace_crlf raw)
  = Parsed (Module (Expr (Str (NL :: s)) dl :: body)) →
  ast_get_docstring (Module (Expr (Str (NL :: s)) dl :: body)) = Some d →
  (∀ docstring rest l node,
     _get_docstring_and_rest file = Ok (docstring, rest, l, node) →
     docstring = NL :: (if python_ge_37 then d else s))
  ∧ (python_ge_37 = false
     ∨ (∃ n, first_string_end (yielded (tokenize (replace_crlf raw)))
               (raised (tokenize (replace_crlf raw))) = Ok n) →
     ∃ rest l,
       _get_docstring_and_rest file
       = Ok (NL :: (if python_ge_37 then d else s), rest, l,
             Some (Module (Expr (Str (NL :: s)) dl :: body))))
  ∧ (∀ e, python_ge_37 = true →
          first_string_end (yielded (tokenize (replace_crlf raw)))
            (raised (tokenize (replace_crlf raw))) = Raise e →
          _get_docstring_and_rest file = Raise e).
Proof.
  intros Hr Hp Hd. unfold _get_docstring_and_rest, parse_source_file.
  rewrite Hr. simpl. rewrite Hp. simpl.
  destruct python_ge_37.
  - rewrite Hd. simpl.
    destruct (first_string_end _ _) as [n|e]; simpl.
    + split; [by intros ? ? ? ? [= <- _ _ _]|]. split; [eauto|].
      intros e _ [=].
    + split; [intros ? ? ? ? [=]|]. split.
      * intros [[=]|[n [=]]].
      * by intros e' _ [= <-].
  - simpl. split; [by intros ? ? ? ? [= <- _ _ _]|]. split; [eauto|].
    intros e [=].
Qed.

End SplitterProperties.

(** ** The config extractor *)

Section ConfigProperties.
Context `{PyEnv}.

Lemma directive_of_Some (m : Match) (n v : pystr) :
  directive_of m = Some (n, v) ↔
  group 1 (m_groups m) = Some n ∧ group 3 (m_groups m) = Some v.
Proof.
  unfold directive_of.
  destruct (group 1 (m_groups m)), (group 3 (m_groups m)); split;
    try (intros [= <- <-]; done); try (intros [[= <-] [= <-]]; done);
    try (intros [? ?]; done); done.
Qed.

(** One round of the loop, by the kind of directive. *)
Lemma extract_step_ok (log : list warning) (conf : gmap pystr pyvalue)
    (m : Match) :
  extract_step (log, Ok conf) m
  = match directive_of m with
    | Some (name, value) =>
        match literal_eval value with
        | Value v => (log, Ok (<[name := v]> conf))
        | SyntaxError | ValueError => (log ++ [(name, value)], Ok conf)
        | OtherError e => (log, Raise (LibraryError e))
        end
    | None => (log, Ok conf)
    end.
Proof.
  unfold extract_step, directive_of.
  by destruct (group 1 (m_groups m)), (group 3 (m_groups m)).
Qed.

Lemma extract_fold_raise (log : list warning) (e : exn) (ms : list Match) :
  foldl extract_step (log, Raise e) ms = (log, Raise e).
Proof. induction ms as [|m ms IH]; simpl; auto. Qed.

Lemma extract_fold_no_entry (n : pystr) (ms : list Match)
    (log : list warning) (conf : gmap pystr pyvalue) :
  (∀ m, m ∈ ms → group 1 (m_groups m) = Some n → group 3 (m_groups m) = None) →
  conf !! n = None →
  ∀ log' conf', foldl extract_step (log, Ok conf) ms = (log', Ok conf') →
                conf' !! n = None.
Proof.
  revert log conf. induction ms as [|m ms IH]; intros log conf Hms Hn log' conf'.
  - simpl. by intros [= _ <-].
  - assert (∀ m', m' ∈ ms → group 1 (m_groups m') = Some n →
                  group 3 (m_groups m') = None) as Hms'.
    { intros m' Hin. apply Hms. by right. }
    cbn [foldl]. rewrite extract_step_ok.
    destruct (directive_of m) as [[name value]|] eqn:Ed; [|by apply IH].
    apply directive_of_Some in Ed as [E1 E3].
    destruct (literal_eval value) as [v| | |e]; try by apply IH.
    + apply IH; [done|]. rewrite lookup_insert_ne; [done|].
      intros ->. specialize (Hms m (list_elem_of_here _ _) E1). congruence.
    + rewrite extract_fold_raise. discriminate.
Qed.



End ConfigProperties.

(** ** The properties on the example scripts *)

(** Witness of C1 on the script with the [Title] docstring. *)
Lemma first_block_is_docstring_witness :
  @_get_docstring_and_rest titled_env "titled.py"%string
  = Ok (NL :: str "Title",
        str "# mkdocs_gallery_skip" ++ [NL; NL] ++ str "x = 1" ++ [NL],
        4%nat,
        Some (Module [Expr (Str (NL :: str "Title" ++ [NL])) 3; OtherStmt]))
  ∧ match @split_code_and_text_blocks titled_env "titled.py"%string false with
    | (_, Ok out) => ∃ bs, out_blocks out = (text, NL :: str "Title", 1%nat) :: bs
    | (_, Raise e) =>
        snd (@extract_file_config titled_env
               (str "# mkdocs_gallery_skip" ++ [NL; NL] ++ str "x = 1" ++ [NL]))
        = Raise e
    end.
Proof.
  split; [vm_compute; reflexivity|].
  apply (@first_block_is_docstring titled_env "titled.py"%string false
           (NL :: str "Title")
           (str "# mkdocs_gallery_skip" ++ [NL; NL] ++ str "x = 1" ++ [NL])
           4%nat
           (Some (Module [Expr (Str (NL :: str "Title" ++ [NL])) 3; OtherStmt]))).
  vm_compute. reflexivity.
Defined.

Lemma broken_script_split :
  @split_code_and_text_blocks broken_env "broken.py"%string false
  = ([], Ok {| out_file_conf := ∅; out_blocks := broken_blocks;
               out_node := None |}).
Proof. vm_compute. reflexivity. Qed.

(** Witness of C2 on the broken script. *)
Lemma block_lines_non_decreasing_witness :
  block_line <$> broken_blocks = [1; 1; 3; 4]%nat
  ∧ lines_non_decreasing broken_blocks.
Proof.
  split; [reflexivity|].
  apply (@block_lines_non_decreasing broken_env "broken.py"%string false []
           {| out_file_conf := ∅; out_blocks := broken_blocks;
              out_node := None |}).
  vm_compute. reflexivity.
Defined.

(** C3 fails on the script with the empty docstring: the docstring block
    is emitted although its content is empty. *)
Lemma docstring_block_may_be_blank :
  ∃ log out b,
    @split_code_and_text_blocks empty_doc_env "empty.py"%string false = (log, Ok out)
    ∧ out_blocks out = [b; (code, str "x = 1" ++ [NL], 2%nat)]
    ∧ b = (text, [], 1%nat)
    ∧ blank (block_content b) = true.
Proof.
  eexists [], {| out_file_conf := ∅; out_blocks := _; out_node := None |}, _.
  split; [vm_compute; reflexivity|]. repeat split.
Qed.

(** Witness of the amended C3 on the broken script. *)
Lemma later_blocks_not_blank_witness :
  Forall (fun b => blank (block_content b) = false) (tail broken_blocks).
Proof.
  apply Forall_forall.
  apply (@later_blocks_not_blank broken_env "broken.py"%string false []
           {| out_file_conf := ∅; out_blocks := broken_blocks;
              out_node := None |}).
  vm_compute. reflexivity.
Defined.

(** Witness of C10 on the script with the [Title] docstring, whose
    cleaned docstring has lost the newline. *)
Lemma docstring_keeps_leading_newline_witness :
  (∀ docstring rest l node,
     @_get_docstring_and_rest titled_env "titled.py"%string
     = Ok (docstring, rest, l, node) →
     docstring = NL :: str "Title")
  ∧ ∃ rest l,
      @_get_docstring_and_rest titled_env "titled.py"%string
      = Ok (NL :: str "Title", rest, l,
            Some (Module [Expr (Str (NL :: str "Title" ++ [NL])) 3;
                          OtherStmt])).
Proof.
  destruct (@docstring_keeps_leading_newline titled_env "titled.py"%string
              titled_script (str "Title" ++ [NL]) (str "Title") 3 [OtherStmt])
    as (Hvalue & Hreturns & _); [reflexivity|reflexivity|reflexivity|].
  split; [exact Hvalue|]. apply Hreturns. right. exists 3%nat. reflexivity.
Defined.




(** ** The stripper on the example texts *)

(** Claim C7 does not hold of the code.  On a bare comment line followed
    by a blank line and the assignment [mkdocs_gallery_x = 2], the
    directive pattern has one match, which runs over three lines (the
    [\s*] after the [#] takes the newlines), the assignment is read as the
    directive [x = 2], and [remove_config_comments] deletes the blank line
    and the statement.  On a directive whose value is missing, between
    blank lines, the [\s*] after the [=] takes the blank line and the next
    statement becomes the value: the blank line after the directive and
    the statement are deleted with it. *)
Theorem directive_match_spans_lines :
  m_text <$> finditer INFILE_CONFIG_PATTERN bare_comment_text
  = [str "#" ++ [NL; NL] ++ str "mkdocs_gallery_x = 2" ++ [NL]]
  ∧ directive_of <$> finditer INFILE_CONFIG_PATTERN bare_comment_text
    = [Some (str "x", str "2")]
  ∧ remove_config_comments bare_comment_text
    = str "print(mkdocs_gallery_x)" ++ [NL]
  ∧ directive_of <$> finditer INFILE_CONFIG_PATTERN missing_value_text
    = [Some (str "thumbnail_number", str "b = 2")]
  ∧ remove_config_comments missing_value_text = str "a = 1" ++ [NL; NL].
Proof. repeat split; vm_compute; reflexivity. Qed.

(** The example of the module's comment: the directive goes, the blank
    lines around it stay. *)
Lemma thumbnail_text_stripped :
  remove_config_comments thumbnail_text
  = str "a = 1" ++ [NL; NL; NL] ++ str "b = 2"
  ∧ directive_of <$> finditer INFILE_CONFIG_PATTERN thumbnail_text
    = [Some (str "thumbnail_number", str "2")].
Proof. split; vm_compute; reflexivity. Qed.



(** ** The matcher, construct by construct *)

Lemma exec_seqs_cons (r : regex) (rs : list regex) (st : mstate)
    (k : mstate → option mstate) :
  exec (seqs (r :: rs)) st k = exec r st (fun st' => exec (seqs rs) st' k).
Proof. reflexivity. Qed.

Lemma exec_seqs_nil (st : mstate) (k : mstate → option mstate) :
  exec (seqs []) st k = k st.
Proof. reflexivity. Qed.

Lemma exec_Bol (st : mstate) (k : mstate → option mstate) :
  exec Bol st k = if at_bol (prev st) then k st else None.
Proof. reflexivity. Qed.

Lemma exec_Opt (r : regex) (st : mstate) (k : mstate → option mstate) :
  exec (Opt r) st k
  = match exec r st k with Some res => Some res | None => k st end.
Proof. reflexivity. Qed.

Lemma exec_Alt (r1 r2 : regex) (st : mstate) (k : mstate → option mstate) :
  exec (Alt r1 r2) st k
  = match exec r1 st k with Some res => Some res | None => exec r2 st k end.
Proof. reflexivity. Qed.

Lemma exec_Grp (i : nat) (r : regex) (st : mstate)
    (k : mstate → option mstate) :
  exec (Grp i r) st k
  = exec r st (fun st' =>
                 k (set_cap i (take (pos st' - pos st) (rest st)) st')).
Proof. reflexivity. Qed.

Lemma rest_consume (w : pystr) (st : mstate) :
  rest (consume w st) = drop (length w) (rest st).
Proof.
  revert st. induction w as [|c w IH]; intros st; simpl length;
    [by rewrite drop_0|].
  cbn [consume]. rewrite IH. cbn [rest advance].
  destruct (rest st); simpl; [by rewrite drop_nil|done].
Qed.

Lemma pos_consume (w : pystr) (st : mstate) :
  pos (consume w st) = (pos st + length w)%nat.
Proof.
  revert st. induction w as [|c w IH]; intros st; simpl; [lia|].
  rewrite IH. simpl. lia.
Qed.

Lemma caps_consume (w : pystr) (st : mstate) :
  caps (consume w st) = caps st.
Proof.
  revert st. induction w as [|c w IH]; intros st; simpl; [done|].
  by rewrite IH.
Qed.

Lemma consume_app (w1 w2 : pystr) (st : mstate) :
  consume (w1 ++ w2) st = consume w2 (consume w1 st).
Proof. revert st. induction w1 as [|c w1 IH]; intros st; simpl; auto. Qed.

Lemma starts_with_head (c : char) (s : pystr) :
  starts_with [c] s = true ↔ ∃ tl, s = c :: tl.
Proof.
  destruct s as [|x s]; simpl.
  - split; [discriminate|intros [? ?]; discriminate].
  - rewrite andb_true_r, N.eqb_eq. split.
    + intros ->. eauto.
    + by intros [tl [= -> _]].
Qed.

(** A literal character that is not the next one. *)
Lemma exec_Chr_miss (c : char) (st : mstate) (k : mstate → option mstate) :
  starts_with [c] (rest st) = false → exec (Chr c) st k = None.
Proof.
  simpl. destruct (rest st) as [|x tl]; [done|]. simpl.
  rewrite andb_true_r. by intros ->.
Qed.

(** A literal character that is the next one. *)
Lemma exec_Chr_hit (c : char) (st : mstate) (k : mstate → option mstate) :
  starts_with [c] (rest st) = true → exec (Chr c) st k = k (consume [c] st).
Proof.
  intros E. apply starts_with_head in E as [tl E]. simpl. rewrite E.
  by rewrite N.eqb_refl.
Qed.

Lemma exec_Cls (f : char → bool) (st : mstate) (k : mstate → option mstate) :
  exec (Cls f) st k
  = match rest st with
    | x :: tl => if f x then k (advance x tl st) else None
    | [] => None
    end.
Proof. reflexivity. Qed.

Lemma exec_Cls_miss (f : char → bool) (st : mstate)
    (k : mstate → option mstate) :
  match rest st with x :: _ => f x = false | [] => True end →
  exec (Cls f) st k = None.
Proof. simpl. destruct (rest st) as [|x tl]; [done|]. by intros ->. Qed.

(** A literal string: it is the text ahead or the match fails. *)
Lemma exec_Lit (w : pystr) (st : mstate) (k : mstate → option mstate) :
  exec (Lit w) st k
  = match strip_prefix w (rest st) with
    | Some _ => k (consume w st)
    | None => None
    end.
Proof.
  revert st. induction w as [|c w IH]; intros st; simpl.
  - by destruct (rest st).
  - destruct (rest st) as [|x tl] eqn:E; [done|].
    destruct (x =? c) eqn:Ex; [|done].
    apply N.eqb_eq in Ex as ->. rewrite IH. simpl. done.
Qed.

(** The repetition of a character class is the greedy walk. *)
Lemma star_loop_cls (f : char → bool)
    (body : mstate → (mstate → option mstate) → option mstate)
    (k : mstate → option mstate) (s : pystr) :
  (∀ st K, body st K = exec (Cls f) st K) →
  ∀ (n : nat) (st : mstate),
    rest st = s → (length s < n)%nat →
    star_loop body k n st = greedy_aux f k s st.
Proof.
  intros Hbody. induction s as [|x tl IH]; intros n st E Hn.
  - destruct n as [|n]; [simpl in Hn; lia|].
    cbn [star_loop greedy_aux]. rewrite Hbody. cbn [exec]. by rewrite E.
  - destruct n as [|n]; [simpl in Hn; lia|].
    cbn [star_loop greedy_aux]. rewrite Hbody. cbn [exec]. rewrite E.
    destruct (f x); [|done].
    assert ((pos st <? pos (advance x tl st))%nat = true) as ->.
    { apply Nat.ltb_lt. simpl. lia. }
    rewrite (IH n (advance x tl st)); [done|done|simpl in Hn; lia].
Qed.

Lemma exec_Star_cls (f : char → bool) (st : mstate)
    (k : mstate → option mstate) :
  exec (Star (Cls f)) st k = greedy f k st.
Proof.
  change (exec (Star (Cls f)) st k)
    with (star_loop (exec (Cls f)) k (S (length (rest st))) st).
  unfold greedy. by apply star_loop_cls; [|done|lia].
Qed.

Lemma exec_Plus_cls (f : char → bool) (st : mstate)
    (k : mstate → option mstate) :
  exec (Plus (Cls f)) st k
  = match rest st with
    | x :: tl => if f x then greedy f k (consume [x] st) else None
    | [] => None
    end.
Proof.
  change (exec (Plus (Cls f)) st k)
    with (exec (Cls f) st (fun st' => exec (Star (Cls f)) st' k)).
  rewrite exec_Cls. destruct (rest st) as [|x tl] eqn:E; [done|].
  destruct (f x); [|done].
  rewrite exec_Star_cls. cbn [consume]. by rewrite E.
Qed.

Lemma take_while_drop_while (f : char → bool) (s : pystr) :
  take_while f s ++ drop_while f s = s.
Proof.
  induction s as [|x s IH]; simpl; [done|].
  destruct (f x); simpl; by rewrite ?IH.
Qed.

Lemma drop_take_while (f : char → bool) (s : pystr) :
  drop (length (take_while f s)) s = drop_while f s.
Proof.
  induction s as [|x s IH]; simpl; [done|]. by destruct (f x).
Qed.

Lemma take_take_while (f : char → bool) (s : pystr) :
  take (length (take_while f s)) s = take_while f s.
Proof.
  induction s as [|x s IH]; simpl; [done|].
  destruct (f x); simpl; by rewrite ?IH.
Qed.

(** The greedy walk succeeds with the whole run when what follows
    succeeds after it. *)
Lemma greedy_aux_hit (f : char → bool) (k : mstate → option mstate)
    (s : pystr) (res : mstate) :
  ∀ st, rest st = s →
        k (consume (take_while f s) st) = Some res →
        greedy_aux f k s st = Some res.
Proof.
  induction s as [|x tl IH]; intros st E Hk; simpl in *; [done|].
  destruct (f x); [|done]. simpl in Hk. rewrite E in Hk. simpl in Hk.
  by rewrite (IH (advance x tl st)).
Qed.

Lemma greedy_hit (f : char → bool) (k : mstate → option mstate)
    (st res : mstate) :
  k (consume (take_while f (rest st)) st) = Some res →
  greedy f k st = Some res.
Proof. intros Hk. unfold greedy. by apply greedy_aux_hit. Qed.

(** The greedy walk fails when what follows fails after every part of
    the run. *)
Lemma greedy_aux_miss (f : char → bool) (k : mstate → option mstate)
    (s : pystr) :
  ∀ st, rest st = s →
        (∀ n, (n ≤ length (take_while f s))%nat →
              k (consume (take n s) st) = None) →
        greedy_aux f k s st = None.
Proof.
  induction s as [|x tl IH]; intros st E Hk; simpl in *.
  - apply (Hk O). lia.
  - destruct (f x) eqn:Ef.
    + rewrite (IH (advance x tl st)); [apply (Hk O); lia|done|].
      intros n Hn. specialize (Hk (S n)). simpl in Hk. rewrite E in Hk.
      apply Hk. lia.
    + apply (Hk O). lia.
Qed.

Lemma greedy_miss (f : char → bool) (k : mstate → option mstate)
    (st : mstate) :
  (∀ n, (n ≤ length (take_while f (rest st)))%nat →
        k (consume (take n (rest st)) st) = None) →
  greedy f k st = None.
Proof. intros Hk. unfold greedy. by apply greedy_aux_miss. Qed.

(** Inside the run, the next character is of the class; after it, the
    text goes on with what [drop_while] leaves. *)
Lemma drop_in_run (f : char → bool) (s : pystr) (n : nat) :
  (n ≤ length (take_while f s))%nat →
  (n = length (take_while f s) ∧ drop n s = drop_while f s)
  ∨ (∃ x tl, drop n s = x :: tl ∧ f x = true).
Proof.
  revert n. induction s as [|x s IH]; intros n Hn.
  - left. simpl in Hn. assert (n = O) as -> by lia. done.
  - cbn [take_while drop_while] in *. destruct (f x) eqn:Ef.
    + cbn [length] in Hn. destruct n as [|n].
      * right. exists x, s. split; [apply drop_0|done].
      * destruct (IH n) as [[En E]|(y & tl & E & Hy)]; [lia| |].
        -- left. split; [cbn [length]; by f_equal|by rewrite skipn_cons].
        -- right. exists y, tl. split; [by rewrite skipn_cons|done].
    + left. simpl in Hn. assert (n = O) as -> by lia. split; [done|apply drop_0].
Qed.

Lemma exec_Opt_hit (r : regex) (st res : mstate) (k : mstate → option mstate) :
  exec r st k = Some res → exec (Opt r) st k = Some res.
Proof. intros E. by rewrite exec_Opt, E. Qed.

Lemma exec_Opt_miss (r : regex) (st : mstate) (k : mstate → option mstate) :
  exec r st k = None → exec (Opt r) st k = k st.
Proof. intros E. by rewrite exec_Opt, E. Qed.

(** ** Where the matcher is in the text *)

Lemma at_text_start (p : option char) (s : pystr) :
  at_text s {| pos := O; prev := p; rest := s; caps := [] |} s.
Proof. split; [done|]. by exists []. Qed.

Lemma at_text_consume (s w r : pystr) (st : mstate) :
  at_text s st (w ++ r) → at_text s (consume w st) r.
Proof.
  intros [E (w0 & Es & Ep)]. split.
  - by rewrite rest_consume, E, drop_app_length.
  - exists (w0 ++ w). split; [by rewrite <- app_assoc|].
    rewrite pos_consume, Ep, length_app. done.
Qed.

Lemma at_text_set_cap (s r x : pystr) (i : nat) (st : mstate) :
  at_text s st r → at_text s (set_cap i x st) r.
Proof. intros [E H]. split; done. Qed.

Lemma at_text_rest (s r : pystr) (st : mstate) : at_text s st r → rest st = r.
Proof. by intros [E _]. Qed.

Lemma at_text_pos (s r : pystr) (st : mstate) :
  at_text s st r → (pos st + length r = length s)%nat.
Proof. intros [_ (w & -> & ->)]. by rewrite length_app. Qed.

(** The whole run of a class, then the rest. *)
Lemma at_text_run (f : char → bool) (s r : pystr) (st : mstate) :
  at_text s st r →
  at_text s (consume (take_while f (rest st)) st) (drop_while f r).
Proof.
  intros H. pose proof (at_text_rest _ _ _ H) as E. rewrite E.
  apply at_text_consume. by rewrite take_while_drop_while.
Qed.

(** A part of the run: what is ahead is the end of the run, or starts
    with a character of the class. *)
Lemma rest_in_run (f : char → bool) (st : mstate) (n : nat) :
  (n ≤ length (take_while f (rest st)))%nat →
  rest (consume (take n (rest st)) st) = drop_while f (rest st)
  ∨ ∃ x tl, rest (consume (take n (rest st)) st) = x :: tl ∧ f x = true.
Proof.
  intros Hn. rewrite rest_consume.
  assert (length (take n (rest st)) = n) as ->.
  { rewrite length_take. apply Nat.min_l.
    pose proof (f_equal length (take_while_drop_while f (rest st))) as Hl.
    rewrite length_app in Hl. lia. }
  destruct (drop_in_run f (rest st) n Hn) as [[_ E]|R]; [by left|by right].
Qed.

(** ** The scan *)

Lemma scan_0_none (r : regex) (p : option char) (s : pystr) :
  re_match r p s = None →
  scan r p O s
  = match s with
    | [] => []
    | c :: tl => Skipped c :: scan r (Some c) O tl
    end.
Proof. intros E. destruct s; simpl; by rewrite E. Qed.

Lemma scan_0_some (r : regex) (p : option char) (c : char) (tl : pystr)
    (st : mstate) (j : nat) :
  re_match r p (c :: tl) = Some st → pos st = S j →
  scan r p O (c :: tl)
  = Found (take (S j) (c :: tl)) (caps st) :: scan r (Some c) j tl.
Proof. intros E Ep. cbn [scan]. by rewrite E, Ep. Qed.

(** Passing the characters of a match that ends with [c]. *)
Lemma scan_skip_snoc (r : regex) (w : pystr) (c : char) (s' : pystr) :
  ∀ q, scan r q (length (w ++ [c])) ((w ++ [c]) ++ s') = scan r (Some c) O s'.
Proof. induction w as [|x w IH]; intros q; [done|]. cbn. apply IH. Qed.

(** Passing the characters of a match that ends the text. *)
Lemma scan_skip_all (r : regex) (w : pystr) :
  (∀ q, re_match r q [] = None) →
  ∀ q, scan r q (length w) w = [].
Proof.
  intros Hnil. induction w as [|x w IH]; intros q.
  - by rewrite scan_0_none.
  - cbn. apply IH.
Qed.

Section ScanLines.
Context (r : regex).
Hypothesis not_bol_no_match :
  ∀ q s, at_bol q = false → re_match r q s = None.

(** Inside a line no match starts. *)
Lemma scan_inside_line (l s' : pystr) :
  ∀ q, at_bol q = false → forallb is_dot l = true →
       scan r q O (l ++ NL :: s')
       = (Skipped <$> l ++ [NL]) ++ scan r (Some NL) O s'.
Proof.
  induction l as [|c l IH]; intros q Hq Hl.
  - simpl. by rewrite not_bol_no_match.
  - simpl in Hl. apply andb_true_iff in Hl as [Hc Hl].
    rewrite <- app_comm_cons, scan_0_none; [|by apply not_bol_no_match].
    rewrite IH; [done| |done].
    simpl. unfold is_dot in Hc. by destruct (c =? NL).
Qed.

Lemma scan_inside_last_line (l : pystr) :
  ∀ q, at_bol q = false → forallb is_dot l = true →
       scan r q O l = Skipped <$> l.
Proof.
  induction l as [|c l IH]; intros q Hq Hl.
  - simpl. by rewrite not_bol_no_match.
  - simpl in Hl. apply andb_true_iff in Hl as [Hc Hl].
    rewrite scan_0_none; [|by apply not_bol_no_match].
    rewrite IH; [done| |done].
    simpl. unfold is_dot in Hc. by destruct (c =? NL).
Qed.

(** A line at whose start there is no match is skipped. *)
Lemma scan_kept_line (p : option char) (l s' : pystr) :
  re_match r p (l ++ NL :: s') = None → forallb is_dot l = true →
  scan r p O (l ++ NL :: s')
  = (Skipped <$> l ++ [NL]) ++ scan r (Some NL) O s'.
Proof.
  intros E Hl. rewrite scan_0_none; [|done].
  destruct l as [|c l]; [done|].
  simpl in Hl. apply andb_true_iff in Hl as [Hc Hl].
  rewrite <- app_comm_cons. rewrite scan_inside_line; [done| |done].
  simpl. unfold is_dot in Hc. by destruct (c =? NL).
Qed.

Lemma scan_kept_last_line (p : option char) (l : pystr) :
  re_match r p l = None → forallb is_dot l = true →
  scan r p O l = Skipped <$> l.
Proof.
  intros E Hl. rewrite scan_0_none; [|done].
  destruct l as [|c l]; [done|].
  simpl in Hl. apply andb_true_iff in Hl as [Hc Hl].
  rewrite scan_inside_last_line; [done| |done].
  simpl. unfold is_dot in Hc. by destruct (c =? NL).
Qed.

(** A line that is a match with its newline is found. *)
Lemma scan_found_line (p : option char) (l s' : pystr) (st : mstate) :
  re_match r p (l ++ NL :: s') = Some st → pos st = S (length l) →
  flat_map unmatched (scan r p O (l ++ NL :: s'))
  = flat_map unmatched (scan r (Some NL) O s').
Proof.
  intros E Ep. destruct l as [|c l].
  - simpl in *. rewrite E, Ep. done.
  - rewrite <- app_comm_cons in *.
    rewrite (scan_0_some _ _ _ _ st (length (c :: l))); [|done|done].
    cbn [flat_map unmatched app].
    replace (l ++ NL :: s') with ((l ++ [NL]) ++ s') by by rewrite <- app_assoc.
    replace (length (c :: l)) with (length (l ++ [NL]))
      by (rewrite length_app; simpl; lia).
    by rewrite scan_skip_snoc.
Qed.

Lemma scan_found_last_line (p : option char) (l : pystr) (st : mstate) :
  (∀ q, re_match r q [] = None) →
  re_match r p l = Some st → pos st = length l →
  flat_map unmatched (scan r p O l) = [].
Proof.
  intros Hnil E Ep. destruct l as [|c l]; [by rewrite Hnil in E|].
  rewrite (scan_0_some _ _ _ _ st (length l)); [|done|done].
  cbn [flat_map unmatched app]. by rewrite scan_skip_all.
Qed.

End ScanLines.

(** ** Runs of a class at the end of a line *)

Lemma drop_while_app_stop (f : char → bool) (l tl : pystr) (x : char)
    (l' : pystr) :
  drop_while f l = x :: l' → drop_while f (l ++ tl) = (x :: l') ++ tl.
Proof.
  induction l as [|c l IH]; simpl; [done|].
  destruct (f c); [exact IH|]. by intros [= -> ->].
Qed.

Lemma drop_while_app_all (f : char → bool) (l tl : pystr) :
  drop_while f l = [] → drop_while f (l ++ tl) = drop_while f tl.
Proof.
  induction l as [|c l IH]; simpl; [done|].
  destruct (f c); [exact IH|discriminate].
Qed.

Lemma drop_while_line_end (f : char → bool) (l tl : pystr) :
  f NL = false → line_end tl →
  drop_while f (l ++ tl) = drop_while f l ++ tl.
Proof.
  intros Hf Htl. destruct (drop_while f l) as [|x l'] eqn:E.
  - rewrite drop_while_app_all; [|done].
    destruct Htl as [->|[s' ->]]; simpl; [done|by rewrite Hf].
  - by apply drop_while_app_stop.
Qed.

Lemma strip_prefix_Some (w a b : pystr) :
  strip_prefix w a = Some b → a = w ++ b.
Proof.
  revert a. induction w as [|c w IH]; intros a; simpl.
  - by intros [= ->].
  - destruct a as [|x a]; [discriminate|].
    destruct (x =? c) eqn:E; [|discriminate].
    apply N.eqb_eq in E as ->. intros H. by rewrite (IH a H).
Qed.

Lemma strip_prefix_app (w b tl : pystr) :
  strip_prefix w (w ++ b) = Some b.
Proof. induction w as [|c w IH]; simpl; [done|]. by rewrite N.eqb_refl. Qed.

Lemma strip_prefix_app_none (w a tl : pystr) :
  forallb is_dot w = true → line_end tl →
  strip_prefix w a = None → strip_prefix w (a ++ tl) = None.
Proof.
  intros Hw Htl. revert a. induction w as [|c w IH]; intros a; simpl;
    [discriminate|].
  simpl in Hw. apply andb_true_iff in Hw as [Hc Hw].
  destruct a as [|x a]; simpl.
  - intros _. destruct Htl as [->|[s' ->]]; [done|].
    unfold is_dot in Hc. rewrite N.eqb_sym. by destruct (c =? NL).
  - destruct (x =? c); [by apply IH|done].
Qed.

(** ** Steps of a match that goes on *)

Lemma succ_done (s r : pystr) (st : mstate) :
  at_text s st r → succeeds s (Some st) r.
Proof. intros A. by exists st. Qed.

Lemma succ_Chr (s r rf : pystr) (c : char) (st : mstate)
    (k : mstate → option mstate) :
  at_text s st (c :: r) →
  (∀ st', at_text s st' r → succeeds s (k st') rf) →
  succeeds s (exec (Chr c) st k) rf.
Proof.
  intros A Hk. rewrite exec_Chr_hit.
  - apply Hk. by apply (at_text_consume s [c]).
  - rewrite (at_text_rest _ _ _ A). simpl. by rewrite N.eqb_refl.
Qed.

Lemma succ_Lit (s w r rf : pystr) (st : mstate) (k : mstate → option mstate) :
  at_text s st (w ++ r) →
  (∀ st', at_text s st' r → succeeds s (k st') rf) →
  succeeds s (exec (Lit w) st k) rf.
Proof.
  intros A Hk. rewrite exec_Lit, (at_text_rest _ _ _ A), strip_prefix_app.
  - apply Hk. by apply at_text_consume.
  - exact r.
Qed.

Lemma succ_greedy (f : char → bool) (s r rf : pystr) (st : mstate)
    (k : mstate → option mstate) :
  at_text s st r →
  (∀ st', at_text s st' (drop_while f r) → succeeds s (k st') rf) →
  succeeds s (greedy f k st) rf.
Proof.
  intros A Hk.
  destruct (Hk _ (at_text_run f _ _ _ A)) as (res & E & Ares).
  exists res. split; [by apply greedy_hit|done].
Qed.

Lemma succ_Star_cls (f : char → bool) (s r rf : pystr) (st : mstate)
    (k : mstate → option mstate) :
  at_text s st r →
  (∀ st', at_text s st' (drop_while f r) → succeeds s (k st') rf) →
  succeeds s (exec (Star (Cls f)) st k) rf.
Proof. rewrite exec_Star_cls. apply succ_greedy. Qed.

Lemma succ_Plus_cls (f : char → bool) (s r rf : pystr) (x : char)
    (st : mstate) (k : mstate → option mstate) :
  at_text s st (x :: r) → f x = true →
  (∀ st', at_text s st' (drop_while f r) → succeeds s (k st') rf) →
  succeeds s (exec (Plus (Cls f)) st k) rf.
Proof.
  intros A Hx Hk. rewrite exec_Plus_cls, (at_text_rest _ _ _ A), Hx.
  apply (succ_greedy f s r); [|done]. by apply (at_text_consume s [x]).
Qed.

Lemma succ_Opt_hit (s rf : pystr) (r : regex) (st : mstate)
    (k : mstate → option mstate) :
  succeeds s (exec r st k) rf → succeeds s (exec (Opt r) st k) rf.
Proof. intros (res & E & A). exists res. split; [by apply exec_Opt_hit|done]. Qed.

Lemma succ_Opt_miss (s rf : pystr) (r : regex) (st : mstate)
    (k : mstate → option mstate) :
  exec r st k = None → succeeds s (k st) rf → succeeds s (exec (Opt r) st k) rf.
Proof. intros E. by rewrite exec_Opt_miss. Qed.

(** ** Steps of a match that fails *)

Lemma fail_Chr (s r : pystr) (c : char) (st : mstate)
    (k : mstate → option mstate) :
  at_text s st r → starts_with [c] r = false → exec (Chr c) st k = None.
Proof. intros A E. apply exec_Chr_miss. by rewrite (at_text_rest _ _ _ A). Qed.

Lemma fail_after_Chr (s r : pystr) (c : char) (st : mstate)
    (k : mstate → option mstate) :
  at_text s st (c :: r) →
  (∀ st', at_text s st' r → k st' = None) →
  exec (Chr c) st k = None.
Proof.
  intros A Hk. rewrite exec_Chr_hit.
  - apply Hk. by apply (at_text_consume s [c]).
  - rewrite (at_text_rest _ _ _ A). simpl. by rewrite N.eqb_refl.
Qed.

Lemma fail_greedy (f : char → bool) (s r : pystr) (st : mstate)
    (k : mstate → option mstate) :
  at_text s st r →
  (∀ st', at_text s st' (drop_while f r) → k st' = None) →
  (∀ st' x tl, at_text s st' (x :: tl) → f x = true → k st' = None) →
  greedy f k st = None.
Proof.
  intros A Hend Hin. apply greedy_miss. intros n Hn.
  pose proof (at_text_rest _ _ _ A) as E.
  assert (at_text s (consume (take n (rest st)) st) (drop n r)) as An.
  { apply at_text_consume. by rewrite E, take_drop. }
  destruct (rest_in_run f st n Hn) as [R|(x & tl & R & Hx)].
  - apply Hend.
    assert (drop n r = drop_while f r) as <-; [|done].
    by rewrite <- (at_text_rest _ _ _ An), R, E.
  - apply (Hin _ x tl); [|done].
    assert (drop n r = x :: tl) as <-; [|done].
    by rewrite <- (at_text_rest _ _ _ An), R.
Qed.

Lemma fail_Star_cls (f : char → bool) (s r : pystr) (st : mstate)
    (k : mstate → option mstate) :
  at_text s st r →
  (∀ st', at_text s st' (drop_while f r) → k st' = None) →
  (∀ st' x tl, at_text s st' (x :: tl) → f x = true → k st' = None) →
  exec (Star (Cls f)) st k = None.
Proof. rewrite exec_Star_cls. apply fail_greedy. Qed.

(** ** The kinds of lines, read back *)

Lemma classify_plain (l : pystr) :
  classify l = PlainLine →
  starts_with [HASH] (drop_while is_blank l) = false.
Proof.
  unfold classify. destruct (drop_while is_blank l) as [|c l2]; [done|].
  cbn [starts_with]. destruct (c =? HASH); [|done].
  intros E. repeat case_match; discriminate.
Qed.

Lemma classify_hash (l : pystr) :
  classify l ≠ PlainLine →
  ∃ l2, drop_while is_blank l = HASH :: l2.
Proof.
  unfold classify. destruct (drop_while is_blank l) as [|c l2]; [congruence|].
  destruct (c =? HASH) eqn:E; [|congruence]. apply N.eqb_eq in E as ->. eauto.
Qed.

Lemma classify_comment (l : pystr) :
  classify l = CommentLine →
  ∃ l2 x l3,
    drop_while is_blank l = HASH :: l2
    ∧ drop_while isspace l2 = x :: l3
    ∧ (strip_prefix (str "mkdocs_gallery_") (x :: l3) = None
       ∨ ∃ l4, strip_prefix (str "mkdocs_gallery_") (x :: l3) = Some l4
               ∧ take_while is_word l4 = []).
Proof.
  intros E. destruct (classify_hash l) as [l2 E1]; [congruence|].
  unfold classify in E. rewrite E1, N.eqb_refl in E.
  destruct (drop_while isspace l2) as [|x l3] eqn:E2; [discriminate|].
  exists l2, x, l3. split; [done|]. split; [done|].
  destruct (strip_prefix (str "mkdocs_gallery_") (x :: l3)) as [l4|];
    [|by left].
  right. exists l4. split; [done|].
  destruct (take_while is_word l4); [done|].
  repeat case_match; discriminate.
Qed.

Lemma classify_named (l : pystr) :
  classify l = DirectiveLine ∨ classify l = FlagLine →
  ∃ l2 x l3 l4 y w,
    drop_while is_blank l = HASH :: l2
    ∧ drop_while isspace l2 = x :: l3
    ∧ strip_prefix (str "mkdocs_gallery_") (x :: l3) = Some l4
    ∧ take_while is_word l4 = y :: w
    ∧ match drop_while isspace (drop_while is_word l4) with
      | [] => classify l = FlagLine
              ∧ forallb is_blank (drop_while is_word l4) = true
      | d :: l7 => classify l = DirectiveLine ∧ d = EQUALS ∧ blank l7 = false
      end.
Proof.
  intros E. destruct (classify_hash l) as [l2 E1].
  { destruct E as [E|E]; congruence. }
  unfold classify in *. rewrite E1, N.eqb_refl in *.
  destruct (drop_while isspace l2) as [|x l3] eqn:E2.
  { destruct E; discriminate. }
  destruct (strip_prefix (str "mkdocs_gallery_") (x :: l3)) as [l4|] eqn:E3.
  2:{ destruct E; discriminate. }
  destruct (take_while is_word l4) as [|y w] eqn:Ew.
  { destruct E; discriminate. }
  exists l2, x, l3, l4, y, w. repeat (split; [done|]).
  cbv zeta in *.
  destruct (drop_while isspace (drop_while is_word l4)) as [|d l7].
  - destruct (forallb is_blank (drop_while is_word l4)); [done|].
    destruct E; discriminate.
  - destruct (d =? EQUALS) eqn:Ed; simpl in *.
    + apply N.eqb_eq in Ed as ->.
      destruct (blank l7); simpl in *; [destruct E; discriminate|done].
    + destruct E; discriminate.
Qed.

(** ** The directive pattern on a line of each kind *)

Lemma class_neq (f : char → bool) (x c : char) :
  f x = true → f c = false → (x =? c) = false.
Proof.
  intros Hx Hc. destruct (x =? c) eqn:E; [|done].
  apply N.eqb_eq in E as ->. congruence.
Qed.

Lemma forallb_drop_while (f g : char → bool) (l : pystr) :
  forallb g l = true → forallb g (drop_while f l) = true.
Proof.
  induction l as [|c l IH]; simpl; [done|]. intros H.
  destruct (f c); [|done]. apply andb_true_iff in H as [_ H]. auto.
Qed.

Lemma drop_while_all (f : char → bool) (l : pystr) :
  forallb f l = true → drop_while f l = [].
Proof.
  induction l as [|c l IH]; simpl; [done|]. intros H.
  apply andb_true_iff in H as [-> H]. auto.
Qed.

Lemma blank_false_drop (l : pystr) :
  blank l = false → ∃ z l', drop_while isspace l = z :: l'.
Proof.
  induction l as [|c l IH]; simpl; [done|].
  destruct (isspace c); simpl; eauto.
Qed.

Lemma is_blank_isspace (c : char) : is_blank c = true → isspace c = true.
Proof.
  unfold is_blank. intros H. apply orb_true_iff in H as [H|H];
    apply N.eqb_eq in H as ->; reflexivity.
Qed.

Lemma forallb_blank_space (l : pystr) :
  forallb is_blank l = true → forallb isspace l = true.
Proof.
  induction l as [|c l IH]; simpl; [done|]. intros H.
  apply andb_true_iff in H as [Hc H]. by rewrite (is_blank_isspace c Hc), IH.
Qed.

Lemma line_end_drop_blank (tl : pystr) :
  line_end tl → drop_while is_blank tl = tl.
Proof. by intros [->|[s' ->]]. Qed.

Lemma config_not_bol (q : option char) (s : pystr) :
  at_bol q = false → re_match INFILE_CONFIG_PATTERN q s = None.
Proof.
  intros H. unfold re_match, INFILE_CONFIG_PATTERN.
  rewrite exec_seqs_cons, exec_Bol. cbn [prev]. by rewrite H.
Qed.

Lemma config_nil (q : option char) : re_match INFILE_CONFIG_PATTERN q [] = None.
Proof.
  unfold re_match, INFILE_CONFIG_PATTERN.
  rewrite exec_seqs_cons, exec_Bol. destruct (at_bol _); [|done].
  rewrite exec_seqs_cons, exec_Star_cls. unfold greedy. cbn [rest greedy_aux].
  rewrite exec_seqs_cons. by apply exec_Chr_miss.
Qed.

(** No match starts at a plain line. *)
Lemma config_plain_line (p : option char) (l tl : pystr) :
  classify l = PlainLine → line_end tl →
  re_match INFILE_CONFIG_PATTERN p (l ++ tl) = None.
Proof.
  intros Hk Htl. destruct (at_bol p) eqn:Hp; [|by apply config_not_bol].
  unfold re_match, INFILE_CONFIG_PATTERN.
  rewrite exec_seqs_cons, exec_Bol. cbn [prev]. rewrite Hp.
  rewrite exec_seqs_cons.
  apply (fail_Star_cls is_blank (l ++ tl) (l ++ tl)); [apply at_text_start| |].
  - intros st' A. rewrite exec_seqs_cons. apply (fail_Chr _ _ _ _ _ A).
    rewrite drop_while_line_end; [|done|done].
    apply classify_plain in Hk.
    destruct (drop_while is_blank l); [|done].
    by destruct Htl as [->|[s' ->]].
  - intros st' x tl' A Hx. rewrite exec_seqs_cons. apply (fail_Chr _ _ _ _ _ A).
    simpl. by rewrite (class_neq is_blank x HASH).
Qed.

Lemma strip_prefix_mg_space (x : char) (tl : pystr) :
  isspace x = true → strip_prefix (str "mkdocs_gallery_") (x :: tl) = None.
Proof.
  intros Hx. change (str "mkdocs_gallery_") with (109 :: str "kdocs_gallery_").
  cbn [strip_prefix]. by rewrite (class_neq isspace x 109).
Qed.

(** No match starts at an ordinary comment. *)
Lemma config_comment_line (p : option char) (l tl : pystr) :
  classify l = CommentLine → line_end tl →
  re_match INFILE_CONFIG_PATTERN p (l ++ tl) = None.
Proof.
  intros Hk Htl. destruct (at_bol p) eqn:Hp; [|by apply config_not_bol].
  apply classify_comment in Hk as (l2 & x & l3 & E1 & E2 & E3).
  unfold re_match, INFILE_CONFIG_PATTERN.
  rewrite exec_seqs_cons, exec_Bol. cbn [prev]. rewrite Hp.
  rewrite exec_seqs_cons.
  apply (fail_Star_cls is_blank (l ++ tl) (l ++ tl)); [apply at_text_start| |].
  - intros st1 A1. rewrite (drop_while_app_stop _ _ _ _ _ E1) in A1.
    rewrite exec_seqs_cons. apply (fail_after_Chr _ _ _ _ _ A1).
    intros st2 A2. rewrite exec_seqs_cons.
    apply (fail_Star_cls isspace _ _ _ _ A2).
    + intros st3 A3. rewrite (drop_while_app_stop _ _ _ _ _ E2) in A3.
      rewrite exec_seqs_cons, exec_Lit, (at_text_rest _ _ _ A3).
      destruct E3 as [E3|(l4 & E3 & E4)].
      * by rewrite strip_prefix_app_none.
      * pose proof (strip_prefix_Some _ _ _ E3) as E5. rewrite E5 in *.
        rewrite <- app_assoc in *. rewrite strip_prefix_app; [|exact []].
        apply at_text_consume in A3.
        rewrite exec_seqs_cons, exec_Grp, exec_Plus_cls, (at_text_rest _ _ _ A3).
        destruct l4 as [|y l4]; simpl in *.
        -- by destruct Htl as [->|[s' ->]].
        -- by destruct (is_word y).
    + intros st' x' tl' A Hx'.
      by rewrite exec_seqs_cons, exec_Lit, (at_text_rest _ _ _ A),
        strip_prefix_mg_space.
  - intros st' x' tl' A Hx'. rewrite exec_seqs_cons. apply (fail_Chr _ _ _ _ _ A).
    simpl. by rewrite (class_neq is_blank x' HASH).
Qed.

(** The start of a directive or of a flag, up to the end of the name:
    what follows the name is run on the rest of the line. *)
Lemma config_name (p : option char) (l tl l4 l2 l3 w : pystr) (x y : char)
    (rf : pystr) (rs : list regex) (k : mstate → option mstate) :
  at_bol p = true → line_end tl →
  drop_while is_blank l = HASH :: l2 →
  drop_while isspace l2 = x :: l3 →
  strip_prefix (str "mkdocs_gallery_") (x :: l3) = Some l4 →
  take_while is_word l4 = y :: w →
  (∀ st, at_text (l ++ tl) st (drop_while is_word l4 ++ tl) →
         succeeds (l ++ tl) (exec (seqs rs) st k) rf) →
  succeeds (l ++ tl)
    (exec (seqs (Bol :: Star (Cls is_blank) :: Chr HASH :: Star (Cls isspace)
                 :: Lit (str "mkdocs_gallery_") :: Grp 1 (Plus (Cls is_word))
                 :: rs))
       {| pos := O; prev := p; rest := l ++ tl; caps := [] |}
       k)
    rf.
Proof.
  intros Hp Htl E1 E2 E3 E4 Hk.
  rewrite exec_seqs_cons, exec_Bol. cbn [prev]. rewrite Hp.
  rewrite exec_seqs_cons.
  apply (succ_Star_cls is_blank _ _ _ _ _ (at_text_start p (l ++ tl))).
  intros st1 A1. rewrite (drop_while_app_stop _ _ _ _ _ E1) in A1.
  rewrite exec_seqs_cons. apply (succ_Chr _ _ _ _ _ _ A1).
  intros st2 A2. rewrite exec_seqs_cons.
  apply (succ_Star_cls isspace _ _ _ _ _ A2).
  intros st3 A3. rewrite (drop_while_app_stop _ _ _ _ _ E2) in A3.
  rewrite (strip_prefix_Some _ _ _ E3), <- app_assoc in A3.
  rewrite exec_seqs_cons. apply (succ_Lit _ _ _ _ _ _ A3).
  intros st4 A4. rewrite exec_seqs_cons, exec_Grp.
  destruct l4 as [|y' l4]; [discriminate|]. cbn [take_while drop_while] in *.
  destruct (is_word y') eqn:Hy; [|discriminate].
  rewrite <- app_comm_cons in A4.
  apply (succ_Plus_cls is_word _ _ _ _ _ _ A4 Hy).
  intros st5 A5.
  rewrite drop_while_line_end in A5; [|done|done].
  apply Hk. by apply at_text_set_cap.
Qed.


(** The end of a directive or of a flag: the spaces and tabs that are
    left on the line, and its newline. *)
Lemma config_line_tail (s b tl : pystr) (st : mstate) :
  at_text s st (b ++ tl) → forallb is_blank b = true → line_end tl →
  succeeds s
    (exec (seqs [ Star (Cls is_blank); Opt (Chr NL) ]) st Some) (tail tl).
Proof.
  intros A Hb Htl. rewrite exec_seqs_cons.
  apply (succ_Star_cls is_blank _ _ _ _ _ A). intros st1 A1.
  rewrite drop_while_line_end, (drop_while_all _ _ Hb) in A1; [|done|done].
  rewrite exec_seqs_cons. destruct Htl as [->|[s' ->]].
  - apply succ_Opt_miss; [by apply (fail_Chr _ _ _ _ _ A1)|].
    rewrite exec_seqs_nil. by apply succ_done.
  - apply succ_Opt_hit. apply (succ_Chr _ _ _ _ _ _ A1). intros st2 A2.
    rewrite exec_seqs_nil. by apply succ_done.
Qed.

(** A directive with its value is matched with its whole line and the
    newline. *)
Lemma config_directive_line (p : option char) (l tl : pystr) :
  at_bol p = true → classify l = DirectiveLine → forallb is_dot l = true →
  line_end tl →
  succeeds (l ++ tl) (re_match INFILE_CONFIG_PATTERN p (l ++ tl)) (tail tl).
Proof.
  intros Hp Hk Hl Htl.
  destruct (classify_named l (or_introl Hk))
    as (l2 & x & l3 & l4 & y & w & E1 & E2 & E3 & E4 & E5).
  destruct (drop_while isspace (drop_while is_word l4)) as [|d l7] eqn:E6.
  { destruct E5 as [E5 _]. congruence. }
  destruct E5 as (_ & -> & E7).
  destruct (blank_false_drop l7 E7) as (z & l8 & E8).
  assert (forallb is_dot (z :: l8) = true) as Hz.
  { rewrite <- E8. apply forallb_drop_while.
    assert (forallb is_dot (EQUALS :: l7) = true) as H7.
    { rewrite <- E6. do 2 apply forallb_drop_while.
      assert (forallb is_dot (x :: l3) = true) as H3.
      { rewrite <- E2. apply forallb_drop_while.
        assert (forallb is_dot (HASH :: l2) = true) as H2.
        { rewrite <- E1. by apply forallb_drop_while. }
        exact H2. }
      rewrite (strip_prefix_Some _ _ _ E3), forallb_app in H3.
      by apply andb_true_iff in H3 as [_ H3]. }
    exact H7. }
  simpl in Hz. apply andb_true_iff in Hz as [Hz Hl8].
  unfold re_match, INFILE_CONFIG_PATTERN.
  apply (config_name p l tl l4 l2 l3 w x y); try done.
  intros st5 A5. rewrite exec_seqs_cons. apply succ_Opt_hit.
  rewrite exec_Grp, exec_seqs_cons.
  apply (succ_Star_cls isspace _ _ _ _ _ A5). intros st6 A6.
  rewrite (drop_while_app_stop _ _ _ _ _ E6) in A6.
  rewrite exec_seqs_cons. apply (succ_Chr _ _ _ _ _ _ A6). intros st7 A7.
  rewrite exec_seqs_cons. apply (succ_Star_cls isspace _ _ _ _ _ A7).
  intros st8 A8. rewrite (drop_while_app_stop _ _ _ _ _ E8) in A8.
  rewrite exec_seqs_cons, exec_Grp.
  apply (succ_Plus_cls is_dot _ _ _ _ _ _ A8 Hz). intros st9 A9.
  rewrite drop_while_line_end, (drop_while_all _ _ Hl8) in A9; [|done|done].
  rewrite !exec_seqs_nil.
  apply (config_line_tail _ []); [|done|done].
  by do 2 apply at_text_set_cap.
Qed.

(** A flag that the text after it does not continue with an [=] is
    matched with its whole line and the newline. *)
Lemma config_flag_line (p : option char) (l tl : pystr) :
  at_bol p = true → classify l = FlagLine → line_end tl →
  starts_with [EQUALS] (drop_while isspace (tail tl)) = false →
  succeeds (l ++ tl) (re_match INFILE_CONFIG_PATTERN p (l ++ tl)) (tail tl).
Proof.
  intros Hp Hk Htl Hnext.
  destruct (classify_named l (or_intror Hk))
    as (l2 & x & l3 & l4 & y & w & E1 & E2 & E3 & E4 & E5).
  destruct (drop_while isspace (drop_while is_word l4)) as [|d l7] eqn:E6.
  2:{ destruct E5 as [E5 _]. congruence. }
  destruct E5 as [_ E5].
  unfold re_match, INFILE_CONFIG_PATTERN.
  apply (config_name p l tl l4 l2 l3 w x y); try done.
  intros st5 A5. rewrite exec_seqs_cons. apply succ_Opt_miss.
  - rewrite exec_Grp, exec_seqs_cons.
    apply (fail_Star_cls isspace _ _ _ _ A5).
    + intros st6 A6. rewrite exec_seqs_cons. apply (fail_Chr _ _ _ _ _ A6).
      rewrite drop_while_app_all; [|done].
      destruct Htl as [->|[s' ->]]; [done|exact Hnext].
    + intros st6 x' tl' A6 Hx'. rewrite exec_seqs_cons.
      apply (fail_Chr _ _ _ _ _ A6). simpl.
      by rewrite (class_neq isspace x' EQUALS).
  - by apply (config_line_tail _ (drop_while is_word l4)).
Qed.

(** ** Texts as lines *)

Lemma split_nl_nonempty (s : pystr) : split_nl s ≠ [].
Proof.
  destruct s as [|c s]; simpl; [done|].
  destruct (c =? NL); [done|]. by destruct (split_nl s).
Qed.

Lemma join_split_nl (s : pystr) : join_nl (split_nl s) = s.
Proof.
  induction s as [|c s IH]; simpl; [done|].
  destruct (c =? NL) eqn:E.
  - apply N.eqb_eq in E as ->.
    pose proof (split_nl_nonempty s) as Hne.
    destruct (split_nl s) as [|l ls]; [done|]. cbn [join_nl app].
    by rewrite <- IH.
  - pose proof (split_nl_nonempty s) as Hne.
    destruct (split_nl s) as [|l ls]; [done|].
    destruct ls as [|l' ls]; cbn [join_nl] in *; by rewrite <- IH.
Qed.

Lemma split_nl_lines (s : pystr) :
  Forall (fun l => forallb is_dot l = true) (split_nl s).
Proof.
  induction s as [|c s IH]; simpl; [by repeat constructor|].
  destruct (c =? NL) eqn:E; [by constructor|].
  pose proof (split_nl_nonempty s) as Hne.
  destruct (split_nl s) as [|l ls]; [done|].
  inversion IH as [|? ? Hl Hls]; subst. constructor; [|done].
  simpl. unfold is_dot at 1. by rewrite E.
Qed.

Lemma join_nl_cons (l l' : pystr) (ls : list pystr) :
  join_nl (l :: l' :: ls) = l ++ NL :: join_nl (l' :: ls).
Proof. reflexivity. Qed.

Lemma strip_lines_nonempty (ls : list pystr) : ls ≠ [] → strip_lines ls ≠ [].
Proof.
  induction ls as [|l ls IH]; [done|]. intros _. cbn [strip_lines].
  destruct ls as [|l' ls]; [done|].
  destruct (is_removed l); [by apply IH|done].
Qed.

Lemma flat_map_skipped (s : pystr) : flat_map unmatched (Skipped <$> s) = s.
Proof. induction s as [|c s IH]; simpl; [done|]. f_equal. exact IH. Qed.

Lemma matches_of_skipped (s : pystr) (off : nat) :
  matches_of off (Skipped <$> s) = [].
Proof. revert off. induction s as [|c s IH]; intros off; simpl; auto. Qed.

Lemma config_kept_line (p : option char) (l tl : pystr) :
  is_kept l → line_end tl → re_match INFILE_CONFIG_PATTERN p (l ++ tl) = None.
Proof.
  intros [H|H] Htl; [by apply config_plain_line|by apply config_comment_line].
Qed.

(** The scan of a text whose lines all stay finds nothing. *)
Lemma scan_kept_lines (ls : list pystr) :
  ∀ p, ls ≠ [] →
       Forall (fun l => forallb is_dot l = true) ls → Forall is_kept ls →
       scan INFILE_CONFIG_PATTERN p O (join_nl ls) = Skipped <$> join_nl ls.
Proof.
  induction ls as [|l ls IH]; intros p Hne Hdot Hkept; [done|].
  inversion Hdot as [|? ? Hl Hdot']; subst.
  inversion Hkept as [|? ? Hk Hkept']; subst.
  destruct ls as [|l' ls].
  - cbn [join_nl]. apply (scan_kept_last_line _ config_not_bol); [|done].
    rewrite <- (app_nil_r l). apply config_kept_line; [done|by left].
  - rewrite join_nl_cons.
    rewrite (scan_kept_line _ config_not_bol); [| |done].
    + rewrite IH; [|done|done|done].
      rewrite <- fmap_app. by rewrite <- app_assoc.
    + apply config_kept_line; [done|]. right. eauto.
Qed.



(** The stripper on a tidy text removes the directives and the flags,
    line by line. *)
Lemma strip_tidy_lines (ls : list pystr) :
  ∀ p, ls ≠ [] → at_bol p = true →
       Forall (fun l => forallb is_dot l = true) ls → tidy ls = true →
       flat_map unmatched (scan INFILE_CONFIG_PATTERN p O (join_nl ls))
       = join_nl (strip_lines ls).
Proof.
  induction ls as [|l ls IH]; intros p Hne Hp Hdot Ht; [done|].
  inversion Hdot as [|? ? Hl Hdot']; subst.
  cbn [tidy] in Ht. cbn [strip_lines]. unfold is_removed.
  destruct ls as [|l' ls].
  - cbn [join_nl].
    assert (classify l = DirectiveLine ∨ classify l = FlagLine →
            flat_map unmatched (scan INFILE_CONFIG_PATTERN p O l) = [])
      as Hrem.
    { intros Hk.
      assert (succeeds (l ++ []) (re_match INFILE_CONFIG_PATTERN p (l ++ []))
                (tail [])) as (st & E & A).
      { destruct Hk as [Hk|Hk];
          [apply config_directive_line|apply config_flag_line];
          try done; by left. }
      rewrite app_nil_r in E. apply at_text_pos in A.
      rewrite app_nil_r in A. simpl in A.
      apply (scan_found_last_line _ _ _ st config_nil E). lia. }
    assert (is_kept l → flat_map unmatched (scan INFILE_CONFIG_PATTERN p O l) = l)
      as Hkeep.
    { intros Hk. rewrite (scan_kept_last_line _ config_not_bol); [| |done].
      - apply flat_map_skipped.
      - rewrite <- (app_nil_r l). apply config_kept_line; [done|by left]. }
    destruct (classify l) eqn:Hk; try discriminate.
    + apply Hkeep. by left.
    + apply Hkeep. by right.
    + apply Hrem. by left.
    + apply Hrem. by right.
  - rewrite join_nl_cons.
    assert (tidy (l' :: ls) = true) as Ht'.
    { destruct (classify l); try discriminate; try done.
      by apply andb_true_iff in Ht as [_ Ht]. }
    assert (classify l = DirectiveLine
            ∨ (classify l = FlagLine
               ∧ starts_with [EQUALS] (drop_while isspace (join_nl (l' :: ls)))
                 = false) →
            flat_map unmatched
              (scan INFILE_CONFIG_PATTERN p O (l ++ NL :: join_nl (l' :: ls)))
            = join_nl (strip_lines (l' :: ls))) as Hrem.
    { intros Hk.
      assert (succeeds (l ++ NL :: join_nl (l' :: ls))
                (re_match INFILE_CONFIG_PATTERN p (l ++ NL :: join_nl (l' :: ls)))
                (tail (NL :: join_nl (l' :: ls)))) as (st & E & A).
      { destruct Hk as [Hk|[Hk Hn]];
          [apply config_directive_line|apply config_flag_line];
          try done; right; eauto. }
      apply at_text_pos in A. rewrite length_app in A. simpl in A.
      rewrite (scan_found_line _ _ _ _ st E); [|lia].
      by apply IH. }
    assert (is_kept l →
            flat_map unmatched
              (scan INFILE_CONFIG_PATTERN p O (l ++ NL :: join_nl (l' :: ls)))
            = join_nl (l :: strip_lines (l' :: ls))) as Hkeep.
    { intros Hk. rewrite (scan_kept_line _ config_not_bol); [| |done].
      - rewrite flat_map_app, flat_map_skipped, IH; try done.
        pose proof (strip_lines_nonempty (l' :: ls)) as Hne'.
        destruct (strip_lines (l' :: ls)) as [|x xs]; [by destruct Hne'|].
        rewrite join_nl_cons. by rewrite <- app_assoc.
      - apply config_kept_line; [done|]. right. eauto. }
    destruct (classify l) eqn:Hk; try discriminate.
    + apply Hkeep. by left.
    + apply Hkeep. by right.
    + apply Hrem. by left.
    + apply Hrem. right. split; [done|].
      apply andb_true_iff in Ht as [Hn _]. by destruct (starts_with _ _).
Qed.

(** ** The stripper on tidy texts *)


Section StripperProperties.
Context `{PyEnv}.


End StripperProperties.




(** ** The splitter on text without delimiter lines *)

Lemma strip_prefix_starts_with (w s : pystr) :
  starts_with w s = false → strip_prefix w s = None.
Proof.
  revert s. induction w as [|c w IH]; intros s; simpl; [done|].
  destruct s as [|x s]; [done|]. destruct (x =? c); simpl; [apply IH|done].
Qed.

Lemma fail_Lit (s r w : pystr) (st : mstate) (k : mstate → option mstate) :
  at_text s st r → starts_with w r = false → exec (Lit w) st k = None.
Proof.
  intros A E. by rewrite exec_Lit, (at_text_rest _ _ _ A),
    strip_prefix_starts_with.
Qed.

Lemma match_none (x y : option mstate) :
  x = None → y = None →
  match x with Some res => Some res | None => y end = None.
Proof. by intros -> ->. Qed.

(** A match of the delimiter pattern starts at the start of a line, with
    twenty hashes or with [#%%] or [# %%]. *)
Lemma pattern_needs_header (q : option char) (s : pystr) :
  at_bol q && is_header_start s = false → re_match pattern q s = None.
Proof.
  intros H. unfold re_match, pattern.
  rewrite exec_seqs_cons, exec_Grp, exec_Alt.
  pose proof (at_text_start q s) as A.
  destruct (at_bol q) eqn:Hq.
  2:{ apply match_none; rewrite exec_seqs_cons, exec_Bol; cbn [prev];
        by rewrite Hq. }
  simpl in H. unfold is_header_start in H.
  apply orb_false_iff in H as [H H3]. apply orb_false_iff in H as [H1 H2].
  apply match_none; rewrite exec_seqs_cons, exec_Bol; cbn [prev]; rewrite Hq;
    rewrite exec_seqs_cons.
  - change (AtLeast 20 (Chr HASH))
      with (Seq (Lit (repeat HASH 20)) (Star (Chr HASH))).
    change (exec (Seq ?a ?b) ?st ?k) with (exec a st (fun st' => exec b st' k)).
    by apply (fail_Lit _ _ _ _ _ A).
  - destruct s as [|c s1]; [by apply (fail_Chr _ _ _ _ _ A)|].
    destruct (c =? HASH) eqn:Ec.
    2:{ apply (fail_Chr _ _ _ _ _ A). simpl. by rewrite Ec. }
    apply N.eqb_eq in Ec as ->.
    apply (fail_after_Chr _ _ _ _ _ A). intros st1 A1.
    rewrite exec_seqs_cons, exec_Opt. apply match_none.
    + destruct s1 as [|d s2]; [by apply (fail_Chr _ _ _ _ _ A1)|].
      destruct (d =? SP) eqn:Ed.
      * apply N.eqb_eq in Ed as ->.
        apply (fail_after_Chr _ _ _ _ _ A1). intros st2 A2.
        rewrite exec_seqs_cons. by apply (fail_Lit _ _ _ _ _ A2).
      * apply (fail_Chr _ _ _ _ _ A1). simpl. by rewrite Ed.
    + rewrite exec_seqs_cons. by apply (fail_Lit _ _ _ _ _ A1).
Qed.

Lemma scan_no_delimiter (s : pystr) :
  ∀ p, no_delimiter_line p s = true → scan pattern p O s = Skipped <$> s.
Proof.
  induction s as [|c s IH]; intros p H; cbn [no_delimiter_line] in H;
    apply andb_true_iff in H as [H1 H2]; apply negb_true_iff in H1;
    rewrite (scan_0_none _ _ _ (pattern_needs_header _ _ H1)); [done|].
  by rewrite IH.
Qed.

Section SyntaxError.
Context `{PyEnv}.

Lemma get_docstring_syntax_error (file : Path) (raw : pystr) :
  read_text file = Ok raw → ast_parse (replace_crlf raw) = ParseSyntaxError →
  _get_docstring_and_rest file
  = Ok (SYNTAX_ERROR_DOCSTRING, replace_crlf raw, 1%nat, None).
Proof.
  intros Hr Hp. unfold _get_docstring_and_rest, parse_source_file.
  rewrite Hr. simpl. by rewrite Hp.
Qed.

(** Claim C4, amended: for every file whose content fails to parse,
    [split_code_and_text_blocks] returns, unless the config extractor
    raises, a block sequence that starts with the placeholder docstring
    as a text block at line 1; and when the content has a character that
    is not whitespace and none of its lines starts like a section
    delimiter (twenty hashes, [#%%] or [# %%]), the block sequence is
    exactly the placeholder text block and the whole content as a code
    block, both at line 1. *)
Theorem syntax_error_blocks (file : Path) (return_node : bool) (raw : pystr)
    (log : list warning) (conf : gmap pystr pyvalue) :
  read_text file = Ok raw →
  ast_parse (replace_crlf raw) = ParseSyntaxError →
  extract_file_config (replace_crlf raw) = (log, Ok conf) →
  (∃ bs, split_code_and_text_blocks file return_node
         = (log, Ok {| out_file_conf := conf;
                       out_blocks := (text, SYNTAX_ERROR_DOCSTRING, 1%nat) :: bs;
                       out_node := if return_node then Some None else None |}))
  ∧ (no_delimiter_line None (replace_crlf raw) = true →
     blank (replace_crlf raw) = false →
     split_code_and_text_blocks file return_node
     = (log, Ok {| out_file_conf := conf;
                   out_blocks := [ (text, SYNTAX_ERROR_DOCSTRING, 1%nat);
                                   (code, replace_crlf raw, 1%nat) ];
                   out_node := if return_node then Some None else None |})).
Proof.
  intros Hr Hp Hc. unfold split_code_and_text_blocks.
  rewrite (get_docstring_syntax_error file raw Hr Hp), Hc. split.
  - match goal with |- context [foldl ?f ?a ?l] =>
      destruct (foldl_invariant
                  (fun st => ∃ bs, st_blocks st
                                   = (text, SYNTAX_ERROR_DOCSTRING, 1%nat) :: bs)
                  f l a) as [bs Hbs]
    end.
    + simpl. eauto.
    + intros st m. apply split_step_first.
    + rewrite Hbs. destruct (truthy _); eauto.
  - intros Hd Hb. unfold finditer.
    rewrite (scan_no_delimiter _ _ Hd), matches_of_skipped.
    cbn [foldl st_blocks st_lineno st_pos_so_far]. unfold slice_from.
    rewrite drop_0, truthy_strip, Hb. done.
Qed.

End SyntaxError.

(** C4 fails on the broken script: its content does not parse and is not
    empty, and the sequence has four blocks, because the delimiter line
    is honoured all the same. *)
Lemma syntax_error_script_is_split :
  @ast_parse broken_env broken_script = ParseSyntaxError
  ∧ replace_crlf broken_script = broken_script
  ∧ broken_script ≠ []
  ∧ @split_code_and_text_blocks broken_env "broken.py"%string false
    = ([], Ok {| out_file_conf := ∅; out_blocks := broken_blocks;
                 out_node := None |})
  ∧ broken_blocks ≠ [ (text, SYNTAX_ERROR_DOCSTRING, 1%nat);
                      (code, broken_script, 1%nat) ].
Proof.
  split; [reflexivity|]. split; [vm_compute; reflexivity|].
  split; [vm_compute; discriminate|].
  split; [vm_compute; reflexivity|]. vm_compute. discriminate.
Qed.

(** Witness of the amended C4 on the script [x = (]. *)
Lemma syntax_error_blocks_witness :
  (∃ bs, @split_code_and_text_blocks unclosed_env "unclosed.py"%string false
         = ([], Ok {| out_file_conf := ∅;
                      out_blocks := (text, SYNTAX_ERROR_DOCSTRING, 1%nat) :: bs;
                      out_node := None |}))
  ∧ (no_delimiter_line None (replace_crlf unclosed_script) = true →
     blank (replace_crlf unclosed_script) = false →
     @split_code_and_text_blocks unclosed_env "unclosed.py"%string false
     = ([], Ok {| out_file_conf := ∅;
                  out_blocks := [ (text, SYNTAX_ERROR_DOCSTRING, 1%nat);
                                  (code, replace_crlf unclosed_script, 1%nat) ];
                  out_node := None |})).
Proof.
  apply (@syntax_error_blocks unclosed_env "unclosed.py"%string false
           unclosed_script [] ∅); vm_compute; reflexivity.
Defined.

(** ** The groups of the matches *)

(** A match that succeeds has gone through its continuation, and the
    groups captured on the way are still there. *)
Lemma star_loop_continues
    (body : mstate → (mstate → option mstate) → option mstate)
    (k : mstate → option mstate) (res : mstate) :
  (∀ st K, body st K = Some res →
           ∃ st', K st' = Some res ∧ caps st `suffix_of` caps st') →
  ∀ n st, star_loop body k n st = Some res →
          ∃ st', k st' = Some res ∧ caps st `suffix_of` caps st'.
Proof.
  intros Hbody. induction n as [|n IH]; intros st; cbn [star_loop]; [eauto|].
  destruct (body st _) as [res'|] eqn:E; [|eauto].
  intros [= ->]. apply Hbody in E as (st1 & E & Hs).
  destruct (pos st <? pos st1)%nat; [|discriminate].
  apply IH in E as (st2 & E & Hs'). exists st2. split; [done|].
  by etrans.
Qed.

Lemma exec_continues (r : regex) :
  ∀ st k res, exec r st k = Some res →
              ∃ st', k st' = Some res ∧ caps st `suffix_of` caps st'.
Proof.
  induction r as [|c|f| |r1 IH1 r2 IH2|r1 IH1 r2 IH2|r IH|i r IH];
    intros st k res.
  - cbn [exec]. eauto.
  - cbn [exec]. destruct (rest st) as [|x tl]; [discriminate|].
    destruct (x =? c); [|discriminate]. intros E.
    by exists (advance x tl st).
  - cbn [exec]. destruct (rest st) as [|x tl]; [discriminate|].
    destruct (f x); [|discriminate]. intros E.
    by exists (advance x tl st).
  - cbn [exec]. destruct (at_bol (prev st)); [eauto|discriminate].
  - change (exec (Seq r1 r2) st k)
      with (exec r1 st (fun st' => exec r2 st' k)).
    intros E. apply IH1 in E as (st1 & E & Hs).
    apply IH2 in E as (st2 & E & Hs'). exists st2. split; [done|by etrans].
  - rewrite exec_Alt. destruct (exec r1 st k) as [res'|] eqn:E.
    + intros [= ->]. eauto.
    + eauto.
  - change (exec (Star r) st k)
      with (star_loop (exec r) k (S (length (rest st))) st).
    apply star_loop_continues. intros st1 K. apply IH.
  - rewrite exec_Grp. intros E. apply IH in E as (st1 & E & Hs).
    eexists. split; [exact E|]. simpl. by apply suffix_cons_r.
Qed.

Lemma group_suffix (i : nat) (cs cs' : list (nat * pystr)) :
  cs `suffix_of` cs' → is_Some (group i cs) → is_Some (group i cs').
Proof.
  intros [k ->] H. induction k as [|[j w] k IH]; [done|]. simpl.
  by destruct (i =? j)%nat.
Qed.

(** The group of a pattern item that is not optional is set in every
    match: the items before it, the group, the items after it. *)
Lemma seqs_group_set (rs1 rs2 : list regex) (i : nat) (r : regex) :
  ∀ st res, exec (seqs (rs1 ++ Grp i r :: rs2)) st Some = Some res →
            is_Some (group i (caps res)).
Proof.
  induction rs1 as [|r1 rs1 IH]; intros st res.
  - cbn [app]. rewrite exec_seqs_cons, exec_Grp. intros E.
    apply exec_continues in E as (st1 & E & _).
    apply exec_continues in E as (st2 & [= <-] & Hs).
    apply (group_suffix _ _ _ Hs). simpl. by rewrite Nat.eqb_refl.
  - rewrite <- app_comm_cons, exec_seqs_cons. intros E.
    apply exec_continues in E as (st1 & E & _). by apply IH in E.
Qed.

(** Every match of the delimiter pattern has its [text_content] group. *)
Lemma pattern_has_text_content (p : option char) (s : pystr) (st : mstate) :
  re_match pattern p s = Some st → is_Some (group text_content (caps st)).
Proof.
  unfold re_match, pattern.
  apply (seqs_group_set [Grp header_line _; Cls isspace] []).
Qed.

(** Every match of the directive pattern has its name, which is group 1. *)
Lemma config_has_name (p : option char) (s : pystr) (st : mstate) :
  re_match INFILE_CONFIG_PATTERN p s = Some st → is_Some (group 1 (caps st)).
Proof.
  unfold re_match, INFILE_CONFIG_PATTERN.
  apply (seqs_group_set
           [Bol; Star (Cls is_blank); Chr HASH; Star (Cls isspace);
            Lit (str "mkdocs_gallery_")]).
Qed.

Lemma scan_found (r : regex) (s : pystr) :
  ∀ p skip t g, Found t g ∈ scan r p skip s →
                ∃ q s' st, re_match r q s' = Some st ∧ g = caps st.
Proof.
  induction s as [|c s IH]; intros p skip t g.
  - destruct skip as [|j]; cbn [scan]; [|by intros H%elem_of_nil].
    destruct (re_match r p []) as [st|] eqn:E; [|by intros H%elem_of_nil].
    destruct (pos st);
      intros [[= _ ->]|H%elem_of_nil]%elem_of_cons; try done; eauto.
  - destruct skip as [|j]; cbn [scan]; [|by apply IH].
    destruct (re_match r p (c :: s)) as [st|] eqn:E.
    + destruct (pos st).
      * intros [[= _ ->]|[[=]|H]%elem_of_cons]%elem_of_cons; eauto.
      * intros [[= _ ->]|H]%elem_of_cons; eauto.
    + intros [[=]|H]%elem_of_cons. eauto.
Qed.

Lemma matches_of_groups (ps : list piece) :
  ∀ off m, m ∈ matches_of off ps →
           ∃ t, Found t (m_groups m) ∈ ps.
Proof.
  induction ps as [|[c|t g] ps IH]; intros off m; cbn [matches_of].
  - by intros H%elem_of_nil.
  - intros H. apply IH in H as [t H]. exists t. by right.
  - intros [->|H]%elem_of_cons.
    + exists t. by left.
    + apply IH in H as [t' H]. exists t'. by right.
Qed.

(** The [text_content] group of the matches that the loop of
    [split_code_and_text_blocks] goes through is never [None]. *)
Lemma finditer_pattern_text_content (s : pystr) (m : Match) :
  m ∈ finditer pattern s → is_Some (group text_content (m_groups m)).
Proof.
  intros H. apply matches_of_groups in H as [t H].
  apply scan_found in H as (q & s' & st & E & ->).
  by apply pattern_has_text_content in E.
Qed.

(** The name of the matches that the loop of [extract_file_config] goes
    through is never [None]: a match without a directive is a flag. *)
Lemma finditer_config_name (s : pystr) (m : Match) :
  m ∈ finditer INFILE_CONFIG_PATTERN s → is_Some (group 1 (m_groups m)).
Proof.
  intros H. apply matches_of_groups in H as [t H].
  apply scan_found in H as (q & s' & st & E & ->).
  by apply config_has_name in E.
Qed.

(** * More properties of the module *)

(** ** The normalisation of line endings *)

Lemma replace_crlf_cons (c : char) (tl : pystr) :
  replace_crlf (c :: tl)
  = match tl with
    | d :: tl' =>
        if (c =? 13) && (d =? NL) then NL :: replace_crlf tl'
        else c :: replace_crlf tl
    | [] => [c]
    end.
Proof. by destruct tl. Qed.

(** The normalisation of [parse_source_file] keeps the number of
    newlines, hence the number of every line: a carriage return and a
    newline become that newline. *)
Theorem replace_crlf_keeps_lines (s : pystr) :
  count_nl (replace_crlf s) = count_nl s.
Proof.
  remember (length s) as n eqn:Hn. revert s Hn.
  induction n as [n IH] using lt_wf_ind. intros s Hn.
  destruct s as [|c tl]; [done|]. rewrite replace_crlf_cons.
  destruct tl as [|d tl']; [done|].
  destruct ((c =? 13) && (d =? NL)) eqn:E.
  - apply andb_true_iff in E as [Ec Ed].
    apply N.eqb_eq in Ec as ->. apply N.eqb_eq in Ed as ->.
    cbn [count_nl]. rewrite N.eqb_refl.
    change (13 =? NL) with false. cbn iota. f_equal.
    apply (IH (length tl')); [simpl in Hn; lia|done].
  - cbn [count_nl]. rewrite (IH (length (d :: tl'))); [|simpl in *; lia|done].
    done.
Qed.

(** A text without a carriage return followed by a newline is not
    changed by the normalisation. *)
Theorem replace_crlf_unix_text (s : pystr) :
  has_crlf s = false → replace_crlf s = s.
Proof.
  induction s as [|c tl IH]; [done|]. rewrite replace_crlf_cons.
  cbn [has_crlf]. destruct tl as [|d tl']; [done|].
  intros E. apply orb_false_iff in E as [-> E]. by rewrite IH.
Qed.

Lemma replace_crlf_unix_text_witness :
  has_crlf plain_text = false ∧ replace_crlf plain_text = plain_text.
Proof.
  split; [reflexivity|]. apply (replace_crlf_unix_text plain_text).
  reflexivity.
Defined.

(** ** The docstring extractor *)

Section DocstringProperties.
Context `{PyEnv}.

(** A file that parses but does not start with a string literal is
    refused: [_get_docstring_and_rest] raises the "no docstring"
    [ExtensionError], and so does [split_code_and_text_blocks], before
    any warning is logged. *)
Theorem missing_docstring_raises (file : Path) (return_node : bool)
    (raw : pystr) (body : list stmt) :
  read_text file = Ok raw →
  ast_parse (replace_crlf raw) = Parsed (Module body) →
  (∀ s l body', body ≠ Expr (Str s) l :: body') →
  _get_docstring_and_rest file = Raise ExtensionError_no_docstring
  ∧ split_code_and_text_blocks file return_node
    = ([], Raise ExtensionError_no_docstring).
Proof.
  intros Hr Hp Hb.
  assert (_get_docstring_and_rest file = Raise ExtensionError_no_docstring)
    as E.
  { unfold _get_docstring_and_rest, parse_source_file.
    rewrite Hr. simpl. rewrite Hp.
    destruct body as [|[[s|] l|] body']; try done.
    by destruct (Hb s l body'). }
  split; [exact E|]. unfold split_code_and_text_blocks. by rewrite E.
Qed.

(** The text before line [n + 1]. *)
Lemma drop_lines (s : pystr) :
  ∀ n, (n ≤ count_nl s)%nat →
       ∃ pre, s = pre ++ join_nl (drop n (split_nl s))
              ∧ count_nl pre = n
              ∧ (pre = [] ∨ last pre = Some NL).
Proof.
  induction s as [|c tl IH]; intros n Hn.
  - simpl in Hn. assert (n = O) as -> by lia. by exists []; auto.
  - destruct n as [|n].
    { exists []. rewrite drop_0, join_split_nl. auto. }
    cbn [count_nl split_nl] in *. destruct (c =? NL) eqn:Ec.
    + apply N.eqb_eq in Ec as ->.
      destruct (IH n) as (pre & E & Hc & Hl); [lia|].
      exists (NL :: pre). rewrite skipn_cons.
      split; [cbn [app]; f_equal; exact E|].
      split; [by cbn [count_nl]; rewrite N.eqb_refl, Hc|].
      right. destruct Hl as [->|Hl]; [done|].
      destruct pre; [done|]. exact Hl.
    + destruct (IH (S n) Hn) as (pre & E & Hc & Hl).
      pose proof (split_nl_nonempty tl) as Hne.
      destruct (split_nl tl) as [|l ls]; [done|].
      rewrite skipn_cons in *.
      exists (c :: pre). split; [cbn [app]; f_equal; exact E|].
      split; [by cbn [count_nl]; rewrite Ec|].
      right. destruct Hl as [->|Hl]; [done|].
      destruct pre; [done|]. exact Hl.
Qed.

Lemma drop_all_lines (s : pystr) (n : nat) :
  (count_nl s < n)%nat → join_nl (drop n (split_nl s)) = [].
Proof.
  revert n. induction s as [|c tl IH]; intros n Hn.
  - destruct n; [simpl in Hn; lia|]. simpl. by rewrite drop_nil.
  - destruct n as [|n]; [lia|]. cbn [count_nl split_nl] in *.
    destruct (c =? NL).
    + rewrite skipn_cons. apply IH. lia.
    + pose proof (split_nl_nonempty tl) as Hne.
      specialize (IH (S n) Hn).
      destruct (split_nl tl) as [|l ls]; [done|].
      by rewrite skipn_cons in *.
Qed.

(** The remainder that [_get_docstring_and_rest] returns is the content
    from the start of the line whose number it returns: when that line
    exists, the content is a text of [lineno - 1] lines, each ended by
    its newline, followed by the remainder; when the content has fewer
    lines, the remainder is empty. *)
Theorem rest_starts_at_lineno (file : Path) (raw docstring rest : pystr)
    (l : nat) (node : option ast_node) :
  read_text file = Ok raw →
  _get_docstring_and_rest file = Ok (docstring, rest, l, node) →
  ((l - 1 ≤ count_nl (replace_crlf raw))%nat →
   ∃ pre, replace_crlf raw = pre ++ rest
          ∧ count_nl pre = (l - 1)%nat
          ∧ (pre = [] ∨ last pre = Some NL))
  ∧ ((count_nl (replace_crlf raw) < l - 1)%nat → rest = []).
Proof.
  intros Hr. unfold _get_docstring_and_rest, parse_source_file.
  rewrite Hr. simpl.
  destruct (ast_parse (replace_crlf raw)) as [[body|cls]| |e0]; simpl;
    [|discriminate| |discriminate].
  - destruct body as [|[[s|] dl|] body]; try discriminate.
    destruct (if python_ge_37 then _ else _) as [[d n]|e] eqn:E; simpl;
      [|discriminate].
    intros [= <- <- <- <-]. simpl. rewrite Nat.sub_0_r. split.
    + intros Hn. by apply drop_lines.
    + intros Hn. by apply drop_all_lines.
  - intros [= <- <- <- <-]. split; [|simpl; lia].
    intros _. exists []. auto.
Qed.

End DocstringProperties.

Lemma missing_docstring_raises_witness :
  @_get_docstring_and_rest no_doc_env "plain.py"%string
  = Raise ExtensionError_no_docstring
  ∧ @split_code_and_text_blocks no_doc_env "plain.py"%string true
    = ([], Raise ExtensionError_no_docstring).
Proof.
  apply (@missing_docstring_raises no_doc_env "plain.py"%string true
           no_doc_script [OtherStmt]); [reflexivity|reflexivity|].
  intros s l body'. discriminate.
Defined.

Lemma rest_starts_at_lineno_witness :
  ((4 - 1 ≤ count_nl (replace_crlf titled_script))%nat →
   ∃ pre, replace_crlf titled_script
          = pre ++ (str "# mkdocs_gallery_skip" ++ [NL; NL] ++ str "x = 1" ++ [NL])
          ∧ count_nl pre = (4 - 1)%nat
          ∧ (pre = [] ∨ last pre = Some NL))
  ∧ ((count_nl (replace_crlf titled_script) < 4 - 1)%nat →
     str "# mkdocs_gallery_skip" ++ [NL; NL] ++ str "x = 1" ++ [NL] = []).
Proof.
  apply (@rest_starts_at_lineno titled_env "titled.py"%string titled_script
           (NL :: str "Title")
           (str "# mkdocs_gallery_skip" ++ [NL; NL] ++ str "x = 1" ++ [NL])
           4%nat
           (Some (Module [Expr (Str (NL :: str "Title" ++ [NL])) 3; OtherStmt])));
    vm_compute; reflexivity.
Defined.

(** ** The config extractor *)

Section ConfigProvenance.
Context `{PyEnv}.

Lemma extract_fold_provenance (ms : list Match) :
  ∀ (log : list warning) (conf : gmap pystr pyvalue) log' conf',
    foldl extract_step (log, Ok conf) ms = (log', Ok conf') →
    (∀ n x, conf' !! n = Some x →
            conf !! n = Some x
            ∨ ∃ m v, m ∈ ms ∧ directive_of m = Some (n, v)
                     ∧ literal_eval v = Value x)
    ∧ (∀ n v, (n, v) ∈ log' →
              (n, v) ∈ log
              ∨ ∃ m, m ∈ ms ∧ directive_of m = Some (n, v)
                     ∧ (literal_eval v = SyntaxError
                        ∨ literal_eval v = ValueError)).
Proof.
  induction ms as [|m ms IH]; intros log conf log' conf'.
  - simpl. intros [= <- <-]. split; auto.
  - cbn [foldl]. rewrite extract_step_ok.
    destruct (directive_of m) as [[name value]|] eqn:Ed.
    + destruct (literal_eval value) as [x| | |e] eqn:El.
      * intros E. apply IH in E as [Hc Hw]. split.
        -- intros n y Hn. destruct (Hc n y Hn) as [Hin|(m' & v & ? & ? & ?)].
           ++ destruct (decide (n = name)) as [->|Hne].
              ** rewrite lookup_insert_eq in Hin. injection Hin as <-.
                 right. exists m, value. split; [by left|done].
              ** rewrite lookup_insert_ne in Hin; [by left|done].
           ++ right. exists m', v. split; [by right|done].
        -- intros n v Hn. destruct (Hw n v Hn) as [?|(m' & ? & ?)]; [by left|].
           right. exists m'. split; [by right|done].
      * intros E. apply IH in E as [Hc Hw]. split.
        -- intros n y Hn. destruct (Hc n y Hn) as [?|(m' & v & ? & ? & ?)];
             [by left|].
           right. exists m', v. split; [by right|done].
        -- intros n v Hn. destruct (Hw n v Hn) as [Hin|(m' & ? & ?)].
           ++ apply elem_of_app in Hin as [?|Hin]; [by left|].
              apply list_elem_of_singleton in Hin as [= -> ->].
              right. exists m. split; [by left|]. split; [done|by left].
           ++ right. exists m'. split; [by right|done].
      * intros E. apply IH in E as [Hc Hw]. split.
        -- intros n y Hn. destruct (Hc n y Hn) as [?|(m' & v & ? & ? & ?)];
             [by left|].
           right. exists m', v. split; [by right|done].
        -- intros n v Hn. destruct (Hw n v Hn) as [Hin|(m' & ? & ?)].
           ++ apply elem_of_app in Hin as [?|Hin]; [by left|].
              apply list_elem_of_singleton in Hin as [= -> ->].
              right. exists m. split; [by left|]. split; [done|by right].
           ++ right. exists m'. split; [by right|done].
      * rewrite extract_fold_raise. discriminate.
    + intros E. apply IH in E as [Hc Hw]. split.
      * intros n y Hn. destruct (Hc n y Hn) as [?|(m' & v & ? & ? & ?)];
          [by left|].
        right. exists m', v. split; [by right|done].
      * intros n v Hn. destruct (Hw n v Hn) as [?|(m' & ? & ?)]; [by left|].
        right. exists m'. split; [by right|done].
Qed.

(** [extract_file_config] invents nothing: every entry of the mapping it
    returns is the decoded value of a directive of the text with that
    name, and every warning it logs is the name and the value text of a
    directive whose decoding raised [SyntaxError] or [ValueError]. *)
Theorem config_entries_come_from_directives (content : pystr)
    (log : list warning) (conf : gmap pystr pyvalue) :
  extract_file_config content = (log, Ok conf) →
  (∀ n x, conf !! n = Some x →
          ∃ m v, m ∈ finditer INFILE_CONFIG_PATTERN content
                 ∧ directive_of m = Some (n, v)
                 ∧ literal_eval v = Value x)
  ∧ (∀ n v, (n, v) ∈ log →
            ∃ m, m ∈ finditer INFILE_CONFIG_PATTERN content
                 ∧ directive_of m = Some (n, v)
                 ∧ (literal_eval v = SyntaxError ∨ literal_eval v = ValueError)).
Proof.
  unfold extract_file_config. intros E.
  apply extract_fold_provenance in E as [Hc Hw]. split.
  - intros n x Hn. destruct (Hc n x Hn) as [Hin|?]; [|done].
    by rewrite lookup_empty in Hin.
  - intros n v Hn. destruct (Hw n v Hn) as [Hin|?]; [|done].
    by apply elem_of_nil in Hin.
Qed.

End ConfigProvenance.

Lemma config_entries_come_from_directives_witness :
  (∀ n x, ({[ str "thumbnail_number" := 2%Z ]} : gmap pystr Z) !! n = Some x →
          ∃ m v, m ∈ finditer INFILE_CONFIG_PATTERN unclosed_then_valid_text
                 ∧ directive_of m = Some (n, v)
                 ∧ @literal_eval no_file_env v = Value x)
  ∧ (∀ n v, (n, v) ∈ [(str "foo", str "{unclosed")] →
            ∃ m, m ∈ finditer INFILE_CONFIG_PATTERN unclosed_then_valid_text
                 ∧ directive_of m = Some (n, v)
                 ∧ (@literal_eval no_file_env v = SyntaxError
                    ∨ @literal_eval no_file_env v = ValueError)).
Proof.
  apply (@config_entries_come_from_directives no_file_env
           unclosed_then_valid_text).
  vm_compute. reflexivity.
Defined.

(** ** The stripper *)

(** On a tidy text [remove_config_comments] deletes the directive lines
    and the flag lines, each with its newline, and nothing else: every
    other line, blank lines included, is left where it is. *)
Theorem remove_config_comments_tidy (code_block : pystr) :
  tidy (split_nl code_block) = true →
  remove_config_comments code_block
  = join_nl (strip_lines (split_nl code_block)).
Proof.
  intros Ht. unfold remove_config_comments, re_sub_empty.
  rewrite <- (join_split_nl code_block) at 1.
  apply strip_tidy_lines;
    [apply split_nl_nonempty|done|apply split_nl_lines|done].
Qed.

Lemma remove_config_comments_tidy_witness :
  tidy (split_nl thumbnail_text) = true
  ∧ remove_config_comments thumbnail_text
    = join_nl (strip_lines (split_nl thumbnail_text)).
Proof.
  split; [reflexivity|].
  apply (remove_config_comments_tidy thumbnail_text). reflexivity.
Defined.

Lemma is_kept_line_kept (l : pystr) : is_kept_line l = true → is_kept l.
Proof.
  unfold is_kept_line, is_kept. destruct (classify l); try discriminate; auto.
Qed.

Section PlainText.
Context `{PyEnv}.

(** A text all of whose lines are plain lines or ordinary comments has no
    directive: the pattern matches nowhere, [extract_file_config] returns
    the empty mapping without a warning, and [remove_config_comments]
    returns the text as it is.  A directive after code on the same line
    is no directive. *)
Theorem plain_text_untouched (code_block : pystr) :
  forallb is_kept_line (split_nl code_block) = true →
  finditer INFILE_CONFIG_PATTERN code_block = []
  ∧ extract_file_config code_block = ([], Ok ∅)
  ∧ remove_config_comments code_block = code_block.
Proof.
  intros Hk.
  assert (scan INFILE_CONFIG_PATTERN None O code_block
          = Skipped <$> code_block) as E.
  { rewrite <- (join_split_nl code_block). apply scan_kept_lines.
    - apply split_nl_nonempty.
    - apply split_nl_lines.
    - apply Forall_forall. intros l Hl. apply is_kept_line_kept.
      rewrite forallb_forall in Hk. apply Hk. by apply list_elem_of_In. }
  unfold extract_file_config, remove_config_comments, re_sub_empty, finditer.
  rewrite E, matches_of_skipped, flat_map_skipped. done.
Qed.

End PlainText.

Lemma plain_text_untouched_witness :
  forallb is_kept_line (split_nl plain_text) = true
  ∧ finditer INFILE_CONFIG_PATTERN plain_text = []
  ∧ @extract_file_config no_file_env plain_text = ([], Ok ∅)
  ∧ remove_config_comments plain_text = plain_text.
Proof.
  split; [reflexivity|].
  apply (@plain_text_untouched no_file_env plain_text). reflexivity.
Defined.

(** The pieces of a scan are the text, in order. *)
Lemma scan_partition (r : regex) (s : pystr) :
  ∀ p skip, flat_map piece_text (scan r p skip s) = drop skip s.
Proof.
  induction s as [|c tl IH]; intros p skip.
  - destruct skip as [|j]; cbn [scan]; [|by rewrite drop_nil].
    destruct (re_match r p []) as [st|]; [|done].
    by destruct (pos st).
  - destruct skip as [|j]; cbn [scan]; [|by rewrite IH].
    destruct (re_match r p (c :: tl)) as [st|].
    + destruct (pos st) as [|j].
      * cbn [flat_map piece_text app]. by rewrite IH.
      * cbn [flat_map piece_text]. rewrite IH. cbn [take app].
        by rewrite take_drop.
    + cbn [flat_map piece_text app]. by rewrite IH.
Qed.

Lemma unmatched_sublist (ps : list piece) :
  flat_map unmatched ps `sublist_of` flat_map piece_text ps.
Proof.
  induction ps as [|[c|t g] ps IH]; cbn [flat_map unmatched piece_text app].
  - done.
  - by apply sublist_skip.
  - by apply sublist_inserts_l.
Qed.

(** [remove_config_comments] only deletes: what it returns is the text
    with some characters left out, the others in their order; it is
    never longer than the text. *)
Theorem remove_config_comments_sublist (code_block : pystr) :
  remove_config_comments code_block `sublist_of` code_block
  ∧ (length (remove_config_comments code_block) ≤ length code_block)%nat.
Proof.
  assert (remove_config_comments code_block `sublist_of` code_block) as Hs.
  { unfold remove_config_comments, re_sub_empty.
    rewrite <- (drop_0 code_block) at 2.
    rewrite <- (scan_partition INFILE_CONFIG_PATTERN code_block None O).
    apply unmatched_sublist. }
  split; [done|by apply sublist_length].
Qed.

(** ** The text blocks *)

Lemma lstrip_head (s : pystr) (c : char) (tl : pystr) :
  lstrip s = c :: tl → isspace c = false.
Proof.
  induction s as [|x s IH]; simpl; [done|].
  destruct (isspace x) eqn:E; [exact IH|]. by intros [= <- _].
Qed.

Section TextBlocks.
Context `{PyEnv}.

Lemma split_step_text_clean (rest : pystr) (st : split_state) (m : Match) :
  Forall text_starts_clean (tail (st_blocks st)) ∧ st_blocks st ≠ [] →
  Forall text_starts_clean (tail (st_blocks (split_step rest st m)))
  ∧ st_blocks (split_step rest st m) ≠ [].
Proof.
  intros [Hinv Hne]. unfold split_step. simpl.
  set (c := slice rest (st_pos_so_far st) (m_start m)).
  set (t := lstrip (dedent (re_sub_empty sub_pat
                              (default [] (group text_content (m_groups m)))))).
  assert (let bs := if truthy (strip c)
                    then st_blocks st ++ [(code, c, st_lineno st)]
                    else st_blocks st in
          Forall text_starts_clean (tail bs) ∧ bs ≠ []) as [H1 Hne1].
  { simpl. destruct (truthy (strip c)); [|done].
    destruct (st_blocks st) as [|b0 bs]; [done|]. simpl in *.
    split; [|done]. apply Forall_app. split; [done|].
    constructor; [|done]. intros Hl. discriminate. }
  destruct (truthy (strip t)) eqn:Ht; [|done].
  destruct (if truthy (strip c) then _ else _) as [|b0 bs]; [done|].
  simpl in *. split; [|done]. apply Forall_app. split; [done|].
  constructor; [|done]. intros _. unfold block_content. simpl.
  destruct t as [|x tl] eqn:Et; [done|].
  exists x, tl. split; [done|]. by apply (lstrip_head _ _ _ Et).
Qed.

(** Every text block after the docstring block starts with a character
    that is not whitespace: the text of a section is stripped on the
    left before it is emitted. *)
Theorem later_text_blocks_start_clean (file : Path) (return_node : bool)
    (log : list warning) (out : split_out) :
  split_code_and_text_blocks file return_node = (log, Ok out) →
  Forall text_starts_clean (tail (out_blocks out)).
Proof.
  unfold split_code_and_text_blocks.
  destruct (_get_docstring_and_rest file) as [[[[d rest] l] node]|e];
    [|discriminate].
  destruct (extract_file_config rest) as [log' [conf|e]]; [|discriminate].
  intros [= _ <-]. simpl.
  match goal with |- context [foldl ?f ?a ?l] =>
    pose proof (foldl_invariant
                  (fun st => Forall text_starts_clean (tail (st_blocks st))
                             ∧ st_blocks st ≠ [])
                  f l a) as Hinv
  end.
  simpl in Hinv. destruct Hinv as [Hinv Hne].
  - by split.
  - intros st m. apply split_step_text_clean.
  - destruct (truthy _); [|done].
    match goal with |- context [tail (?bs ++ _)] =>
      destruct bs as [|b0 bs']; [done|] end.
    simpl in *. apply Forall_app. split; [done|].
    constructor; [|done]. intros Hl. discriminate.
Qed.

End TextBlocks.

Lemma later_text_blocks_start_clean_witness :
  Forall text_starts_clean (tail broken_blocks).
Proof.
  apply (@later_text_blocks_start_clean broken_env "broken.py"%string false []
           {| out_file_conf := ∅; out_blocks := broken_blocks;
              out_node := None |}).
  vm_compute. reflexivity.
Defined.

(** ** The line numbers of the blocks *)

Lemma count_nl_app (a b : pystr) :
  count_nl (a ++ b) = (count_nl a + count_nl b)%nat.
Proof.
  induction a as [|c a IH]; simpl; [done|]. destruct (c =? NL); lia.
Qed.

Lemma positioned_mono (s : pystr) (off off' : nat) (ms : list Match) :
  (off' ≤ off)%nat → positioned s off ms → positioned s off' ms.
Proof.
  destruct ms as [|m ms]; [done|]. simpl. intros Ho (H1 & H2). split; [lia|done].
Qed.

(** The matches of a scan lie in the text one after the other. *)
Lemma matches_of_positioned (s : pystr) (ps : list piece) :
  ∀ pre, s = pre ++ flat_map piece_text ps →
         positioned s (length pre) (matches_of (length pre) ps).
Proof.
  induction ps as [|[c|t g] ps IH]; intros pre E; cbn [matches_of]; [done| |].
  - cbn [flat_map piece_text app] in E.
    apply (positioned_mono _ (S (length pre))); [lia|].
    replace (S (length pre)) with (length (pre ++ [c]))
      by (rewrite length_app; simpl; lia).
    apply IH. by rewrite <- app_assoc.
  - cbn [flat_map piece_text] in E. cbn [positioned m_start m_end m_text].
    split; [done|].
    replace (length pre + length t)%nat with (length (pre ++ t))
      by by rewrite length_app.
    split.
    { rewrite E. rewrite drop_app_length.
      by rewrite (app_assoc pre t), drop_app_length. }
    split; [by rewrite length_app|].
    split.
    { rewrite E. rewrite (app_assoc pre t), (length_app (pre ++ t)). lia. }
    apply IH. by rewrite <- app_assoc.
Qed.

Lemma finditer_positioned (r : regex) (s : pystr) :
  positioned s O (finditer r s).
Proof.
  unfold finditer. apply (matches_of_positioned s _ []).
  by rewrite scan_partition, drop_0.
Qed.

Lemma take_split (s : pystr) (i j : nat) :
  (i ≤ j)%nat → take j s = take i s ++ slice s i j.
Proof.
  unfold slice. revert s j. induction i as [|i IH]; intros s j Hij.
  - by rewrite Nat.sub_0_r, drop_0.
  - destruct j as [|j]; [lia|]. destruct s as [|c s]; [by rewrite drop_nil, !take_nil|].
    cbn [take app]. rewrite skipn_cons. f_equal.
    rewrite (IH s j) by lia. done.
Qed.

Section BlockLines.
Context `{PyEnv}.

(** One delimiter match more: the line counter follows the position in
    the text, and the blocks that are added are in place. *)
Lemma split_fold_in_place (rest : pystr) (l : nat) (all : list Match)
    (ms : list Match) :
  ∀ st,
    positioned rest (st_pos_so_far st) ms →
    forallb header_ends_line ms = true →
    (∀ m, m ∈ ms → m ∈ all) →
    st_lineno st = (l + count_nl (take (st_pos_so_far st) rest))%nat →
    Forall (block_in_place rest l all) (tail (st_blocks st)) →
    st_blocks st ≠ [] →
    let st' := foldl (split_step rest) st ms in
    st_lineno st' = (l + count_nl (take (st_pos_so_far st') rest))%nat
    ∧ Forall (block_in_place rest l all) (tail (st_blocks st'))
    ∧ st_blocks st' ≠ [].
Proof.
  induction ms as [|m ms IH]; intros st Hp Hh Hall Hl Hb Hne; [done|].
  cbn [foldl]. cbn [positioned] in Hp.
  destruct Hp as (Hle & Hd & He & Hlen & Hp).
  cbn [forallb] in Hh. apply andb_true_iff in Hh as [Hm Hh].
  apply Nat.eqb_eq in Hm.
  set (c := slice rest (st_pos_so_far st) (m_start m)).
  set (tc := default [] (group text_content (m_groups m))) in *.
  assert (take (m_start m) rest = take (st_pos_so_far st) rest ++ c) as Etake
    by by apply take_split.
  assert (take (m_end m) rest = take (m_start m) rest ++ m_text m) as Eend.
  { rewrite (take_split rest (m_start m) (m_end m)) by lia. f_equal.
    unfold slice. rewrite Hd, He.
    replace (m_start m + length (m_text m) - m_start m)%nat
      with (length (m_text m)) by lia.
    by rewrite take_app_length. }
  apply IH; clear IH.
  - exact Hp.
  - exact Hh.
  - intros m' Hm'. apply Hall. by right.
  - unfold split_step. cbn [st_lineno st_pos_so_far]. fold c. fold tc.
    rewrite Eend, Etake, !count_nl_app, Hm, Hl. lia.
  - unfold split_step. cbn [st_blocks]. fold c. fold tc.
    assert (Forall (block_in_place rest l all)
              (tail (if truthy (strip c)
                     then st_blocks st ++ [(code, c, st_lineno st)]
                     else st_blocks st))
            ∧ (if truthy (strip c)
               then st_blocks st ++ [(code, c, st_lineno st)]
               else st_blocks st) ≠ []) as [H1 Hne1].
    { destruct (truthy (strip c)); [|done].
      destruct (st_blocks st) as [|b0 bs]; [done|]. cbn [app tail] in *.
      split; [|done]. apply Forall_app. split; [done|].
      constructor; [|done]. unfold block_in_place. cbn.
      exists (take (st_pos_so_far st) rest), (drop (m_start m) rest).
      split; [|done].
      by rewrite app_assoc, <- Etake, take_drop. }
    destruct (truthy (strip (lstrip (dedent (re_sub_empty sub_pat tc)))));
      [|done].
    destruct (if truthy (strip c) then _ else _) as [|b0 bs]; [done|].
    cbn [app tail] in *. apply Forall_app. split; [done|].
    constructor; [|done]. unfold block_in_place. cbn.
    exists m, (take (m_start m) rest), (drop (m_end m) rest).
    split; [apply Hall; by left|].
    split; [by rewrite <- Hd, take_drop|].
    split; [|done].
    rewrite Etake, count_nl_app, Hl. lia.
  - unfold split_step. cbn [st_blocks].
    destruct (truthy _), (truthy _), (st_blocks st); done.
Qed.

(** Where the remainder lies in the content, with the line number. *)
Lemma docstring_rest_in_content (file : Path) (raw d rest : pystr) (l : nat)
    (node : option ast_node) :
  read_text file = Ok raw →
  _get_docstring_and_rest file = Ok (d, rest, l, node) →
  rest = []
  ∨ ∃ pre, replace_crlf raw = pre ++ rest ∧ l = S (count_nl pre).
Proof.
  intros Hr. unfold _get_docstring_and_rest, parse_source_file.
  rewrite Hr. simpl.
  destruct (ast_parse (replace_crlf raw)) as [[body|cls]| |e0]; simpl;
    [|discriminate| |discriminate].
  - destruct body as [|[[s|] dl|] body]; try discriminate.
    destruct (if python_ge_37 then _ else _) as [[d' n]|e] eqn:E; simpl;
      [|discriminate].
    intros [= <- <- <- <-].
    destruct (decide (n ≤ count_nl (replace_crlf raw))%nat) as [Hn|Hn].
    + right. destruct (drop_lines _ _ Hn) as (pre & E1 & E2 & _).
      exists pre. by rewrite E2.
    + left. apply drop_all_lines. lia.
  - intros [= <- <- <- <-]. right. by exists [].
Qed.

Lemma block_in_place_shift (pre s : pystr) (l : nat) (ms : list Match)
    (b : block) :
  l = S (count_nl pre) →
  block_in_place s l ms b → block_in_place (pre ++ s) 1 ms b.
Proof.
  intros ->. unfold block_in_place. destruct (block_label b).
  - intros (m & a & z & Hm & -> & Hl & Hc).
    exists m, (pre ++ a), z. split; [done|].
    split; [by rewrite <- app_assoc|].
    split; [|done]. rewrite Hl, count_nl_app. lia.
  - intros (a & z & -> & Hl).
    exists (pre ++ a), z. split; [by rewrite <- app_assoc|].
    rewrite Hl, count_nl_app. lia.
Qed.

(** The line numbers of the blocks are the numbers of their lines in the
    file, when the header line of every delimiter ends with its newline:
    a code block is a part of the content that starts on the line of its
    number, and a text block has the number of the line that follows the
    line on which its delimiter starts. *)
Theorem block_lines_exact (file : Path) (return_node : bool)
    (raw d rest : pystr) (l : nat) (node : option ast_node)
    (log : list warning) (out : split_out) :
  read_text file = Ok raw →
  _get_docstring_and_rest file = Ok (d, rest, l, node) →
  forallb header_ends_line (finditer pattern rest) = true →
  split_code_and_text_blocks file return_node = (log, Ok out) →
  Forall (block_in_place (replace_crlf raw) 1 (finditer pattern rest))
         (tail (out_blocks out)).
Proof.
  intros Hr Hg Hh. unfold split_code_and_text_blocks. rewrite Hg.
  destruct (extract_file_config rest) as [log' [conf|e]]; [|discriminate].
  intros [= _ <-]. cbn [out_blocks].
  destruct (docstring_rest_in_content _ _ _ _ _ _ Hr Hg)
    as [->|(pre & Ec & El)].
  { change (finditer pattern []) with (@nil Match). done. }
  rewrite Ec.
  pose proof (split_fold_in_place rest l (finditer pattern rest)
                (finditer pattern rest)
                {| st_blocks := [(text, d, 1%nat)]; st_lineno := l;
                   st_pos_so_far := O |}) as Hinv.
  cbn [st_blocks st_lineno st_pos_so_far tail] in Hinv.
  destruct Hinv as (Hl & Hb & Hne).
  - apply finditer_positioned.
  - exact Hh.
  - done.
  - rewrite take_0. simpl. lia.
  - done.
  - done.
  - set (st := foldl _ _ _) in *.
    assert (Forall (block_in_place rest l (finditer pattern rest))
              (tail (if truthy (strip (slice_from rest (st_pos_so_far st)))
                     then st_blocks st
                          ++ [(code, slice_from rest (st_pos_so_far st),
                               st_lineno st)]
                     else st_blocks st))) as Hall.
    { destruct (truthy _); [|done].
      destruct (st_blocks st) as [|b0 bs]; [done|]. cbn [app tail] in *.
      apply Forall_app. split; [done|]. constructor; [|done].
      unfold block_in_place. cbn.
      exists (take (st_pos_so_far st) rest), [].
      split; [|done]. unfold slice_from. by rewrite app_nil_r, take_drop. }
    eapply Forall_impl; [exact Hall|].
    intros b. by apply block_in_place_shift.
Qed.

End BlockLines.

Lemma block_lines_exact_witness :
  Forall (@block_in_place broken_env (replace_crlf broken_script) 1
            (finditer pattern broken_script))
         (tail broken_blocks).
Proof.
  apply (@block_lines_exact broken_env "broken.py"%string false
           broken_script SYNTAX_ERROR_DOCSTRING broken_script 1%nat None []
           {| out_file_conf := ∅; out_blocks := broken_blocks;
              out_node := None |}); vm_compute; reflexivity.
Defined.

(** ** The matcher returns matches of the pattern *)

Lemma prev_after_nil (p : option char) : prev_after p [] = p.
Proof. done. Qed.

Lemma prev_after_app (p : option char) (w1 w2 : pystr) :
  prev_after (prev_after p w1) w2 = prev_after p (w1 ++ w2).
Proof.
  unfold prev_after. destruct w2 as [|c w2 _] using rev_ind.
  - by rewrite app_nil_r.
  - by rewrite app_assoc, !last_snoc.
Qed.

Lemma prev_after_last (a w : pystr) : prev_after (last a) w = last (a ++ w).
Proof.
  unfold prev_after. destruct w as [|c w _] using rev_ind.
  - by rewrite app_nil_r; destruct (last a).
  - by rewrite app_assoc, !last_snoc.
Qed.

Lemma star_loop_sound (L : option char → pystr → list (nat * pystr) → Prop)
    (body : mstate → (mstate → option mstate) → option mstate)
    (k : mstate → option mstate) (res : mstate) :
  sound_on L body →
  ∀ n st, star_loop body k n st = Some res →
    ∃ st' w cs, k st' = Some res
                ∧ rest st = w ++ rest st'
                ∧ pos st' = (pos st + length w)%nat
                ∧ prev st' = prev_after (prev st) w
                ∧ caps st' = cs ++ caps st
                ∧ star_lang L (prev st) w cs.
Proof.
  intros Hbody.
  assert (∀ st, k st = Some res →
            ∃ st' w cs, k st' = Some res
                ∧ rest st = w ++ rest st'
                ∧ pos st' = (pos st + length w)%nat
                ∧ prev st' = prev_after (prev st) w
                ∧ caps st' = cs ++ caps st
                ∧ star_lang L (prev st) w cs) as Hstop.
  { intros st E. exists st, [], []. simpl. rewrite Nat.add_0_r.
    repeat split; try done. constructor. }
  induction n as [|n IH]; intros st; cbn [star_loop]; [apply Hstop|].
  destruct (body st _) as [res'|] eqn:E; [|apply Hstop].
  intros [= ->].
  apply Hbody in E as (st1 & w1 & cs1 & E & Hr1 & Hp1 & Hv1 & Hc1 & HL).
  destruct (pos st <? pos st1)%nat eqn:Hlt; [|discriminate].
  apply Nat.ltb_lt in Hlt.
  apply IH in E as (st2 & w2 & cs2 & E & Hr2 & Hp2 & Hv2 & Hc2 & HS).
  exists st2, (w1 ++ w2), (cs2 ++ cs1).
  split; [done|]. split; [by rewrite Hr1, Hr2, app_assoc|].
  split; [rewrite Hp2, Hp1, length_app; lia|].
  split; [by rewrite Hv2, Hv1, prev_after_app|].
  split; [by rewrite Hc2, Hc1, app_assoc|].
  constructor; [done| |by rewrite <- Hv1].
  intros ->. simpl in Hp1. lia.
Qed.

Lemma exec_sound (r : regex) : sound_on (lang r) (exec r).
Proof.
  induction r as [|c|f| |r1 IH1 r2 IH2|r1 IH1 r2 IH2|r IH|i r IH];
    intros st k res.
  - cbn [exec]. intros E. exists st, [], []. simpl. rewrite Nat.add_0_r.
    by repeat split.
  - cbn [exec]. destruct (rest st) as [|x tl] eqn:Er; [discriminate|].
    destruct (x =? c) eqn:Ex; [|discriminate]. apply N.eqb_eq in Ex as ->.
    intros E. exists (advance c tl st), [c], []. simpl.
    rewrite Nat.add_1_r. by repeat split.
  - cbn [exec]. destruct (rest st) as [|x tl] eqn:Er; [discriminate|].
    destruct (f x) eqn:Ex; [|discriminate].
    intros E. exists (advance x tl st), [x], []. simpl.
    rewrite Nat.add_1_r. repeat split; try done. by exists x.
  - cbn [exec]. destruct (at_bol (prev st)) eqn:Eb; [|discriminate].
    intros E. exists st, [], []. simpl. rewrite Nat.add_0_r.
    by repeat split.
  - change (exec (Seq r1 r2) st k)
      with (exec r1 st (fun st' => exec r2 st' k)).
    intros E.
    apply IH1 in E as (st1 & w1 & cs1 & E & Hr1 & Hp1 & Hv1 & Hc1 & HL1).
    apply IH2 in E as (st2 & w2 & cs2 & E & Hr2 & Hp2 & Hv2 & Hc2 & HL2).
    exists st2, (w1 ++ w2), (cs2 ++ cs1).
    split; [done|]. split; [by rewrite Hr1, Hr2, app_assoc|].
    split; [rewrite Hp2, Hp1, length_app; lia|].
    split; [by rewrite Hv2, Hv1, prev_after_app|].
    split; [by rewrite Hc2, Hc1, app_assoc|].
    cbn [lang]. exists w1, w2, cs1, cs2. rewrite <- Hv1. by repeat split.
  - rewrite exec_Alt. destruct (exec r1 st k) as [res'|] eqn:E.
    + intros [= ->].
      apply IH1 in E as (st1 & w1 & cs1 & E & Hr1 & Hp1 & Hv1 & Hc1 & HL1).
      exists st1, w1, cs1. repeat split; try done. by left.
    + intros E2.
      apply IH2 in E2 as (st1 & w1 & cs1 & E2 & Hr1 & Hp1 & Hv1 & Hc1 & HL1).
      exists st1, w1, cs1. repeat split; try done. by right.
  - change (exec (Star r) st k)
      with (star_loop (exec r) k (S (length (rest st))) st).
    intros E. by apply (star_loop_sound (lang r)) in E.
  - rewrite exec_Grp. intros E.
    apply IH in E as (st1 & w & cs & E & Hr1 & Hp1 & Hv1 & Hc1 & HL).
    replace (pos st1 - pos st)%nat with (length w) in E by lia.
    rewrite Hr1, take_app_length in E.
    eexists _, w, ((i, w) :: cs). split; [exact E|]. simpl.
    repeat split; try done; [by rewrite Hc1|]. by exists cs.
Qed.

Lemma re_match_sound (r : regex) (p : option char) (s : pystr) (st : mstate) :
  re_match r p s = Some st →
  s = take (pos st) s ++ rest st
  ∧ (pos st ≤ length s)%nat
  ∧ lang r p (take (pos st) s) (caps st).
Proof.
  unfold re_match. intros E.
  apply exec_sound in E as (st' & w & cs & [= ->] & Hr & Hp & _ & Hc & HL).
  simpl in *. rewrite app_nil_r in Hc. subst cs. rewrite Hp, Hr.
  rewrite take_app_length. rewrite length_app. split; [done|].
  split; [lia|done].
Qed.

(** Every match that the scan reports is a match of the pattern at the
    place where its start says. *)
Lemma scan_match (r : regex) (s : pystr) :
  ∀ p skip pre m,
    p = last pre →
    m ∈ matches_of (length pre + skip) (scan r p skip s) →
    ∃ a z st, pre ++ s = a ++ z
              ∧ m_start m = length a
              ∧ re_match r (last a) z = Some st
              ∧ m_text m = take (pos st) z
              ∧ m_groups m = caps st.
Proof.
  induction s as [|c tl IH]; intros p skip pre m Hp.
  - destruct skip as [|j]; cbn [scan]; [|by intros H%elem_of_nil].
    destruct (re_match r p []) as [st|] eqn:E; [|by intros H%elem_of_nil].
    assert (m = {| m_start := length pre + 0; m_end := length pre + 0 + 0;
                   m_text := []; m_groups := caps st |} →
            ∃ a z st0, pre ++ [] = a ++ z ∧ m_start m = length a
                       ∧ re_match r (last a) z = Some st0
                       ∧ m_text m = take (pos st0) z
                       ∧ m_groups m = caps st0) as Hm.
    { intros ->. exists pre, [], st. cbn. rewrite Nat.add_0_r, take_nil.
      subst p. by repeat split. }
    destruct (pos st); cbn [matches_of take length];
      intros ->%list_elem_of_singleton; by apply Hm.
  - assert (∀ j, m ∈ matches_of (length pre + S j) (scan r (Some c) j tl) →
              ∃ a z st, pre ++ c :: tl = a ++ z
                        ∧ m_start m = length a
                        ∧ re_match r (last a) z = Some st
                        ∧ m_text m = take (pos st) z
                        ∧ m_groups m = caps st) as Hnext.
    { intros j Hm.
      replace (length pre + S j)%nat with (length (pre ++ [c]) + j)%nat in Hm
        by (rewrite length_app; simpl; lia).
      apply IH in Hm; [|by rewrite last_snoc].
      by rewrite <- app_assoc in Hm. }
    destruct skip as [|j]; cbn [scan]; [|apply Hnext].
    destruct (re_match r p (c :: tl)) as [st|] eqn:E.
    + destruct (pos st) as [|j] eqn:Epos.
      * cbn [matches_of]. intros [->|Hm]%elem_of_cons.
        -- cbn. exists pre, (c :: tl), st. rewrite Nat.add_0_r, Epos. subst p.
           by repeat split.
        -- apply (Hnext O).
           match type of Hm with _ ∈ matches_of ?n _ =>
             replace n with (length pre + 1)%nat in Hm by (simpl; lia) end.
           done.
      * cbn [matches_of]. intros [->|Hm]%elem_of_cons.
        -- cbn [m_text m_start m_groups]. exists pre, (c :: tl), st.
           rewrite Nat.add_0_r, Epos. subst p. by repeat split.
        -- apply (Hnext j).
           apply re_match_sound in E as (_ & Hle & _). rewrite Epos in Hle.
           rewrite length_take, Nat.min_l in Hm by done.
           match type of Hm with _ ∈ matches_of ?n _ =>
             replace n with (length pre + S j)%nat in Hm by lia end.
           done.
    + cbn [matches_of]. intros Hm. apply (Hnext O).
      match type of Hm with _ ∈ matches_of ?n _ =>
        replace n with (length pre + 1)%nat in Hm by lia end.
      done.
Qed.

Lemma finditer_match (r : regex) (s : pystr) (m : Match) :
  m ∈ finditer r s →
  ∃ a z st, s = a ++ z
            ∧ m_start m = length a
            ∧ re_match r (last a) z = Some st
            ∧ m_text m = take (pos st) z
            ∧ m_groups m = caps st.
Proof.
  unfold finditer. intros Hm. by apply (scan_match r s None O []).
Qed.

Lemma finditer_lang (r : regex) (s : pystr) (m : Match) :
  m ∈ finditer r s →
  ∃ a z, s = a ++ m_text m ++ z
         ∧ m_start m = length a
         ∧ lang r (last a) (m_text m) (m_groups m).
Proof.
  intros Hm. apply finditer_match in Hm as (a & z & st & -> & Ha & E & -> & ->).
  apply re_match_sound in E as (Hs & _ & HL).
  exists a, (rest st). by rewrite <- Hs.
Qed.

(** ** The texts of the items of the patterns *)

Lemma lang_Lit (w0 : pystr) :
  ∀ p w cs, lang (Lit w0) p w cs → w = w0 ∧ cs = [].
Proof.
  induction w0 as [|c w0 IH]; intros p w cs; cbn [Lit lang]; [done|].
  intros (w1 & w2 & cs1 & cs2 & -> & -> & [-> ->] & H2).
  apply IH in H2 as [-> ->]. done.
Qed.

Lemma lang_Rep_Chr (n : nat) (c : char) :
  ∀ p w cs, lang (Rep n (Chr c)) p w cs → w = repeat c n ∧ cs = [].
Proof.
  induction n as [|n IH]; intros p w cs; cbn [Rep lang]; [done|].
  intros (w1 & w2 & cs1 & cs2 & -> & -> & [-> ->] & H2).
  apply IH in H2 as [-> ->]. done.
Qed.

Lemma star_lang_cls (f : char → bool) (p : option char) (w : pystr)
    (cs : list (nat * pystr)) :
  star_lang (lang (Cls f)) p w cs → forallb f w = true ∧ cs = [].
Proof.
  induction 1 as [|p w1 w2 cs1 cs2 H1 _ _ [IHw IHc]]; [done|].
  cbn [lang] in H1. destruct H1 as (x & -> & Hx & ->). subst cs2.
  split; [|done]. simpl. by rewrite Hx, IHw.
Qed.

Lemma lang_Star_cls (f : char → bool) (p : option char) (w : pystr)
    (cs : list (nat * pystr)) :
  lang (Star (Cls f)) p w cs → forallb f w = true ∧ cs = [].
Proof. apply star_lang_cls. Qed.

Lemma lang_Plus_cls (f : char → bool) (p : option char) (w : pystr)
    (cs : list (nat * pystr)) :
  lang (Plus (Cls f)) p w cs → w ≠ [] ∧ forallb f w = true ∧ cs = [].
Proof.
  unfold Plus. cbn [lang].
  intros (w1 & w2 & cs1 & cs2 & -> & -> & (x & -> & Hx & ->) & H2).
  apply star_lang_cls in H2 as [H2 ->]. split; [done|].
  split; [|done]. simpl. by rewrite Hx, H2.
Qed.

Lemma star_lang_Chr (c : char) (p : option char) (w : pystr)
    (cs : list (nat * pystr)) :
  star_lang (lang (Chr c)) p w cs → w = repeat c (length w) ∧ cs = [].
Proof.
  induction 1 as [|p w1 w2 cs1 cs2 H1 _ _ [IHw IHc]]; [done|].
  cbn [lang] in H1. destruct H1 as [-> ->]. subst cs2.
  split; [|done]. simpl. by rewrite <- IHw.
Qed.

Lemma count_nl_dots (w : pystr) : forallb is_dot w = true → count_nl w = O.
Proof.
  induction w as [|c w IH]; simpl; [done|]. intros H.
  apply andb_true_iff in H as [Hc H]. unfold is_dot in Hc.
  apply negb_true_iff in Hc. rewrite Hc. auto.
Qed.

Lemma count_nl_repeat (c : char) (n : nat) :
  (c =? NL) = false → count_nl (repeat c n) = O.
Proof. intros Hc. induction n as [|n IH]; simpl; [done|]. by rewrite Hc. Qed.

Lemma starts_with_app (w x : pystr) : starts_with w (w ++ x) = true.
Proof. induction w as [|c w IH]; simpl; [done|]. by rewrite N.eqb_refl. Qed.

(** The header line of a delimiter: a text without newline that starts
    with twenty hashes, or with [#%%] or [# %%]. *)
Lemma lang_header (p : option char) (h : pystr) (cs : list (nat * pystr)) :
  lang (Alt (seqs [ Bol; AtLeast 20 (Chr HASH); Star (Cls is_dot) ])
            (seqs [ Bol; Chr HASH; Opt (Chr SP); Lit (str "%%");
                    Star (Cls is_dot) ])) p h cs →
  at_bol p = true ∧ is_header_start h = true ∧ count_nl h = O ∧ cs = [].
Proof.
  unfold is_header_start. cbn [lang]. intros [HA|HB].
  - unfold seqs, AtLeast in HA. cbn [foldr lang] in HA.
    destruct HA as (? & ? & ? & ? & -> & -> & (Hb & -> & ->) & HA).
    destruct HA as (? & ? & ? & ? & -> & -> & Hh & HA).
    destruct Hh as (? & h2 & ? & ? & -> & -> & Hr & Hs).
    apply lang_Rep_Chr in Hr as [-> ->].
    apply star_lang_Chr in Hs as [Hs ->].
    destruct HA as (d & ? & ? & ? & -> & -> & Hd & [-> ->]).
    apply star_lang_cls in Hd as [Hd ->].
    split; [done|]. split.
    { cbn [app]. rewrite <- app_assoc. by rewrite starts_with_app. }
    split; [|done]. cbn [app]. rewrite app_nil_r, !count_nl_app.
    rewrite Hs, !count_nl_repeat by done. by rewrite count_nl_dots.
  - unfold seqs, Opt in HB. cbn [foldr lang] in HB.
    destruct HB as (? & ? & ? & ? & -> & -> & (Hb & -> & ->) & HB).
    destruct HB as (? & ? & ? & ? & -> & -> & [-> ->] & HB).
    destruct HB as (o & ? & ? & ? & -> & -> & Ho & HB).
    destruct HB as (? & ? & ? & ? & -> & -> & Hl & HB).
    apply lang_Lit in Hl as [-> ->].
    destruct HB as (d & ? & ? & ? & -> & -> & Hd & [-> ->]).
    apply star_lang_cls in Hd as [Hd ->].
    split; [done|].
    destruct Ho as [[-> ->]|[-> ->]].
    + split; [by rewrite !orb_true_r|]. split; [|done].
      cbn. rewrite app_nil_r. by apply count_nl_dots.
    + split; [by rewrite orb_true_r|]. split; [|done].
      cbn. rewrite app_nil_r. by apply count_nl_dots.
Qed.

(** The commented lines after the header: nothing, or a text that
    starts with [#] at the start of a line. *)
Lemma lang_text_content (p : option char) (tc : pystr)
    (cs : list (nat * pystr)) :
  lang (Star (seqs [ Bol; Chr HASH; Star (Cls is_dot);
                     Opt (Cls isspace) ])) p tc cs →
  cs = [] ∧ (tc = [] ∨ at_bol p = true ∧ head tc = Some HASH).
Proof.
  cbn [lang]. intros H0. split.
  - induction H0 as [|p w1 w2 cs1 cs2 H1 _ _ IH]; [done|]. subst cs2.
    unfold seqs, Opt in H1. cbn [foldr lang] in H1.
    destruct H1 as (? & ? & ? & ? & -> & -> & (Hb & -> & ->) & H1).
    destruct H1 as (? & ? & ? & ? & -> & -> & [-> ->] & H1).
    destruct H1 as (? & ? & ? & ? & -> & -> & Hd & H1).
    apply star_lang_cls in Hd as [Hd ->].
    destruct H1 as (? & ? & ? & ? & -> & -> & Ho & [-> ->]).
    by destruct Ho as [(? & -> & ? & ->)|[-> ->]].
  - destruct H0 as [|p w1 w2 cs1 cs2 H1 _ _]; [by left|]. right.
    unfold seqs in H1. cbn [foldr lang] in H1.
    destruct H1 as (? & ? & ? & ? & -> & -> & (Hb & -> & ->) & H1).
    by destruct H1 as (? & ? & ? & ? & -> & -> & [-> ->] & H1).
Qed.

Lemma lang_pattern (p : option char) (w : pystr) (cs : list (nat * pystr)) :
  lang pattern p w cs →
  ∃ h c tc,
    w = h ++ c :: tc
    ∧ cs = [(text_content, tc); (header_line, h)]
    ∧ at_bol p = true ∧ is_header_start h = true ∧ count_nl h = O
    ∧ isspace c = true
    ∧ (tc = [] ∨ c = NL ∧ head tc = Some HASH).
Proof.
  unfold pattern, seqs. cbn [foldr]. intros H0.
  destruct H0 as (h & w2 & cs1 & cs2 & -> & -> & (ch & -> & Hh) & H0).
  apply lang_header in Hh as (Hb & Hs & Hn & ->).
  destruct H0 as (? & w3 & ? & cs3 & -> & -> & (c & -> & Hc & ->) & H0).
  destruct H0 as (tc & ? & ? & ? & -> & -> & (ct & -> & Ht) & [-> ->]).
  apply lang_text_content in Ht as [-> Ht].
  exists h, c, tc. rewrite app_nil_r. cbn [app].
  repeat split; try done.
  destruct Ht as [->|[Hb' Hd]]; [by left|]. right. split; [|done].
  rewrite prev_after_app in Hb'. unfold prev_after in Hb'.
  rewrite last_snoc in Hb'. simpl in Hb'. by apply N.eqb_eq in Hb'.
Qed.

(** Every match of the delimiter pattern starts at the start of a line:
    it is made of a header, which has no newline and starts with twenty
    hashes, with [#%%] or with [# %%], of one whitespace character, and
    of the text content, which is empty or starts with [#] on the next
    line; the two groups are the header and the text content. *)
Theorem delimiter_match_shape (s : pystr) (m : Match) :
  m ∈ finditer pattern s →
  ∃ a h c tc z,
    s = a ++ h ++ c :: tc ++ z
    ∧ m_start m = length a
    ∧ m_text m = h ++ c :: tc
    ∧ m_groups m = [(text_content, tc); (header_line, h)]
    ∧ at_bol (last a) = true ∧ is_header_start h = true ∧ count_nl h = O
    ∧ isspace c = true
    ∧ (tc = [] ∨ c = NL ∧ head tc = Some HASH).
Proof.
  intros Hm. apply finditer_lang in Hm as (a & z & Hs & Ha & HL).
  apply lang_pattern in HL as (h & c & tc & Ht & Hg & Hrest).
  exists a, h, c, tc, z. rewrite Hs, Ht, <- !app_assoc. cbn [app].
  destruct Hrest as (? & ? & ? & ? & ?). by repeat split.
Qed.

Lemma delimiter_match_shape_witness :
  ∃ a h c tc z,
    broken_script = a ++ h ++ c :: tc ++ z
    ∧ m_start broken_match = length a
    ∧ m_text broken_match = h ++ c :: tc
    ∧ m_groups broken_match = [(text_content, tc); (header_line, h)]
    ∧ at_bol (last a) = true ∧ is_header_start h = true ∧ count_nl h = O
    ∧ isspace c = true
    ∧ (tc = [] ∨ c = NL ∧ head tc = Some HASH).
Proof.
  apply (delimiter_match_shape broken_script broken_match).
  vm_compute. by left.
Defined.

(** ** The matches of the directive pattern *)

Lemma lang_line_tail (p : option char) (t : pystr) (cs : list (nat * pystr)) :
  lang (seqs [Star (Cls is_blank); Opt (Chr NL)]) p t cs →
  cs = [] ∧ line_tail t.
Proof.
  unfold seqs, Opt. cbn [foldr lang].
  intros (bl & ? & ? & ? & -> & -> & Hb & H1).
  apply star_lang_cls in Hb as [Hb ->].
  destruct H1 as (e & ? & ? & ? & -> & -> & He & [-> ->]).
  rewrite app_nil_r.
  destruct He as [[-> ->]|[-> ->]]; (split; [done|]).
  - exists bl, [NL]. auto.
  - exists bl, []. auto.
Qed.

Lemma lang_config (p : option char) (w : pystr) (cs : list (nat * pystr)) :
  lang INFILE_CONFIG_PATTERN p w cs →
  ∃ b sp name tail,
    at_bol p = true
    ∧ w = b ++ HASH :: sp ++ str "mkdocs_gallery_" ++ name ++ tail
    ∧ forallb is_blank b = true ∧ forallb isspace sp = true
    ∧ group 1 cs = Some name
    ∧ name ≠ [] ∧ forallb is_word name = true
    ∧ after_name cs tail.
Proof.
  unfold INFILE_CONFIG_PATTERN.
  change (seqs (?r :: ?rs)) with (Seq r (seqs rs)). cbn [lang].
  intros (? & ? & ? & ? & -> & -> & (Hb & -> & ->) & H0).
  destruct H0 as (b & ? & ? & ? & -> & -> & Hbl & H0).
  apply star_lang_cls in Hbl as [Hbl ->].
  destruct H0 as (? & ? & ? & ? & -> & -> & [-> ->] & H0).
  destruct H0 as (sp & ? & ? & ? & -> & -> & Hsp & H0).
  apply star_lang_cls in Hsp as [Hsp ->].
  destruct H0 as (? & ? & ? & ? & -> & -> & Hl & H0).
  apply lang_Lit in Hl as [-> ->].
  destruct H0 as (name & ? & ? & ? & -> & -> & (? & -> & Hn) & H0).
  apply lang_Plus_cls in Hn as (Hne & Hw & ->).
  destruct H0 as (o & t & co & ct & -> & -> & Ho & Ht).
  apply lang_line_tail in Ht as [-> Ht].
  exists b, sp, name, (o ++ t). cbn [app]. rewrite !app_nil_r.
  split; [done|]. split; [done|]. split; [done|]. split; [done|].
  destruct Ho as [(? & -> & Hd)|[-> ->]].
  - unfold seqs in Hd. cbn [foldr lang] in Hd.
    destruct Hd as (s1 & ? & ? & ? & -> & -> & H1 & Hd).
    apply star_lang_cls in H1 as [H1 ->].
    destruct Hd as (? & ? & ? & ? & -> & -> & [-> ->] & Hd).
    destruct Hd as (s2 & ? & ? & ? & -> & -> & H2 & Hd).
    apply star_lang_cls in H2 as [H2 ->].
    destruct Hd as (v & ? & ? & ? & -> & -> & (? & -> & Hv) & [-> ->]).
    apply lang_Plus_cls in Hv as (Hve & Hv & ->).
    cbn. split; [done|]. split; [done|]. split; [done|].
    right. exists s1, s2, v, t. split; [done|].
    split; [|by repeat split].
    rewrite ?app_nil_r. cbn [app]. rewrite <- ?app_assoc. cbn [app].
    by rewrite <- ?app_assoc.
  - cbn. split; [done|]. split; [done|]. split; [done|]. by left.
Qed.

(** Every match of the directive pattern starts at the start of a line
    and is made of spaces and tabs, [#], whitespace, [mkdocs_gallery_],
    the name, which is group 1 and a non-empty text of letters, digits
    and underscores, and of what follows the name: the end of the line
    for a flag, the equals sign and the value for a directive. *)
Theorem directive_match_shape (s : pystr) (m : Match) :
  m ∈ finditer INFILE_CONFIG_PATTERN s →
  ∃ a b sp name tail z,
    s = a ++ m_text m ++ z
    ∧ m_start m = length a
    ∧ at_bol (last a) = true
    ∧ m_text m = b ++ HASH :: sp ++ str "mkdocs_gallery_" ++ name ++ tail
    ∧ forallb is_blank b = true ∧ forallb isspace sp = true
    ∧ group 1 (m_groups m) = Some name
    ∧ name ≠ [] ∧ forallb is_word name = true
    ∧ after_name (m_groups m) tail.
Proof.
  intros Hm. apply finditer_lang in Hm as (a & z & Hs & Ha & HL).
  apply lang_config
    in HL as (b & sp & name & tail & ? & ? & ? & ? & ? & ? & ? & ?).
  exists a, b, sp, name, tail, z. by repeat split.
Qed.

Lemma directive_match_shape_witness :
  ∃ a b sp name tail z,
    thumbnail_text = a ++ m_text thumbnail_match ++ z
    ∧ m_start thumbnail_match = length a
    ∧ at_bol (last a) = true
    ∧ m_text thumbnail_match
      = b ++ HASH :: sp ++ str "mkdocs_gallery_" ++ name ++ tail
    ∧ forallb is_blank b = true ∧ forallb isspace sp = true
    ∧ group 1 (m_groups thumbnail_match) = Some name
    ∧ name ≠ [] ∧ forallb is_word name = true
    ∧ after_name (m_groups thumbnail_match) tail.
Proof.
  apply (directive_match_shape thumbnail_text thumbnail_match).
  vm_compute. by left.
Defined.

(** The name and the value of a directive of the text. *)
Lemma directive_of_parts (s : pystr) (m : Match) (n v : pystr) :
  m ∈ finditer INFILE_CONFIG_PATTERN s →
  directive_of m = Some (n, v) →
  n ≠ [] ∧ forallb is_word n = true ∧ v ≠ [] ∧ forallb is_dot v = true.
Proof.
  intros Hm Hd. apply finditer_lang in Hm as (a & z & _ & _ & HL).
  apply lang_config
    in HL as (b & sp & name & tail & _ & _ & _ & _ & Hg & Hne & Hw & Ht).
  unfold directive_of in Hd. rewrite Hg in Hd.
  destruct Ht as [[Hg3 _]|(s1 & s2 & v' & t & Hg3 & _ & _ & _ & Hv & Hd' & _)];
    rewrite Hg3 in Hd; [discriminate|].
  by injection Hd as <- <-.
Qed.

Section ConfigNames.
Context `{PyEnv}.

(** The keys of the mapping that [extract_file_config] returns are
    non-empty texts of letters, digits and underscores, every value is
    decoded from a non-empty text without newline, and so are the names
    and the values of the warnings. *)
Theorem config_names_are_words (content : pystr) (log : list warning)
    (conf : gmap pystr pyvalue) :
  extract_file_config content = (log, Ok conf) →
  (∀ n x, conf !! n = Some x →
          n ≠ [] ∧ forallb is_word n = true
          ∧ ∃ v, v ≠ [] ∧ forallb is_dot v = true ∧ literal_eval v = Value x)
  ∧ (∀ n v, (n, v) ∈ log →
            n ≠ [] ∧ forallb is_word n = true
            ∧ v ≠ [] ∧ forallb is_dot v = true).
Proof.
  unfold extract_file_config. intros E.
  apply extract_fold_provenance in E as [Hc Hw]. split.
  - intros n x Hn. destruct (Hc n x Hn) as [Hin|(m & v & Hm & Hd & Hv)];
      [by rewrite lookup_empty in Hin|].
    destruct (directive_of_parts _ _ _ _ Hm Hd) as (? & ? & ? & ?).
    split; [done|]. split; [done|]. by exists v.
  - intros n v Hn. destruct (Hw n v Hn) as [Hin|(m & Hm & Hd & _)];
      [by apply elem_of_nil in Hin|].
    apply (directive_of_parts _ _ _ _ Hm Hd).
Qed.

End ConfigNames.

Lemma config_names_are_words_witness :
  (∀ n x, ({[ str "thumbnail_number" := 2%Z ]} : gmap pystr Z) !! n = Some x →
          n ≠ [] ∧ forallb is_word n = true
          ∧ ∃ v, v ≠ [] ∧ forallb is_dot v = true
                 ∧ @literal_eval no_file_env v = Value x)
  ∧ (∀ n v, (n, v) ∈ [(str "foo", str "{unclosed")] →
            n ≠ [] ∧ forallb is_word n = true
            ∧ v ≠ [] ∧ forallb is_dot v = true).
Proof.
  apply (@config_names_are_words no_file_env unclosed_then_valid_text).
  vm_compute. reflexivity.
Defined.

(** ** The header of a delimiter takes its whole line *)

Lemma star_loop_total
    (body : mstate → (mstate → option mstate) → option mstate)
    (k : mstate → option mstate) :
  (∀ st, is_Some (k st)) → ∀ n st, is_Some (star_loop body k n st).
Proof.
  intros Hk. induction n as [|n IH]; intros st; cbn [star_loop]; [done|].
  by destruct (body st _).
Qed.

(** The text content of a delimiter never fails: it can be empty. *)
Lemma text_content_total (r : regex) (st : mstate) :
  is_Some (exec (seqs [Grp text_content (Star r)]) st Some).
Proof.
  rewrite exec_seqs_cons, exec_Grp.
  change (exec (Star r) st ?k)
    with (star_loop (exec r) k (S (length (rest st))) st).
  by apply star_loop_total.
Qed.

Lemma last_suffix (a b : pystr) (c : char) :
  a ++ b = [] ∨ last (a ++ b) = Some c → b = [] ∨ last b = Some c.
Proof.
  destruct b as [|x b _] using rev_ind; [by left|]. right.
  rewrite app_assoc, last_snoc in H. rewrite last_snoc.
  destruct H as [H|H]; [|done]. by destruct (a ++ b).
Qed.

(** A text that ends with a newline starts with a line. *)
Lemma first_line (r : pystr) :
  last r = Some NL → ∃ tl, r = take_while is_dot r ++ NL :: tl.
Proof.
  intros Hl. pose proof (take_while_drop_while is_dot r) as E.
  destruct (drop_while is_dot r) as [|x tl] eqn:Ed.
  - rewrite app_nil_r in E.
    assert (forallb is_dot r = true) as Hall.
    { rewrite <- E. clear. induction r as [|c r IH]; simpl; [done|].
      destruct (is_dot c) eqn:Ec; simpl; [by rewrite Ec|done]. }
    exfalso. clear E Ed. induction r as [|c r IH]; [done|].
    simpl in Hall. apply andb_true_iff in Hall as [Hc Hall].
    destruct r as [|d r]; [|by apply IH].
    injection Hl as ->. by vm_compute in Hc.
  - exists tl. rewrite <- E at 1. f_equal. f_equal.
    assert (is_dot x = false) as Hx.
    { clear E Hl. revert Ed. induction r as [|c r IH]; simpl; [done|].
      destruct (is_dot c) eqn:Ec; [exact IH|]. by intros [= <- _]. }
    unfold is_dot in Hx. apply negb_false_iff in Hx. by apply N.eqb_eq in Hx.
Qed.

Lemma count_nl_take (pre tl : pystr) (n : nat) :
  (length pre < n)%nat → (1 ≤ count_nl (take n (pre ++ NL :: tl)))%nat.
Proof.
  intros Hn. rewrite take_app, take_ge by lia.
  destruct (n - length pre)%nat as [|k] eqn:E; [lia|].
  rewrite count_nl_app. simpl. lia.
Qed.

(** After the dots of the header come the whitespace character and the
    text content: on a text that ends with a newline the dots go to the
    end of the line and the whitespace character is its newline. *)
Lemma dots_then_newline (r : regex) (K : mstate → option mstate)
    (cap : mstate → mstate) (st res : mstate) :
  (∀ x, K x = exec (seqs [Cls isspace; Grp text_content (Star r)]) (cap x)
                Some) →
  (∀ x, rest (cap x) = rest x ∧ pos (cap x) = pos x) →
  rest st = [] ∨ last (rest st) = Some NL →
  exec (Star (Cls is_dot)) st K = Some res →
  ∃ u tl, rest st = u ++ NL :: tl ∧ (pos st + length u < pos res)%nat.
Proof.
  intros HK Hcap Hl. rewrite exec_Star_cls.
  destruct Hl as [Hl|Hl].
  { unfold greedy. rewrite Hl. cbn [greedy_aux].
    rewrite HK, exec_seqs_cons, exec_Cls.
    destruct (Hcap st) as [-> _]. by rewrite Hl. }
  destruct (first_line _ Hl) as [tl E].
  set (u := take_while is_dot (rest st)) in *.
  assert (rest (consume u st) = NL :: tl) as Er.
  { rewrite rest_consume. rewrite E at 1. by rewrite drop_app_length. }
  destruct (text_content_total r (advance NL tl (cap (consume u st))))
    as [res' E'].
  assert (K (consume u st) = Some res') as EK.
  { rewrite HK, exec_seqs_cons, exec_Cls.
    destruct (Hcap (consume u st)) as [-> _]. by rewrite Er. }
  rewrite (greedy_hit _ _ _ _ EK). intros [= <-].
  exists u, tl. split; [done|].
  apply exec_sound in E' as (? & w & ? & [= ->] & _ & Hp & _).
  rewrite Hp. cbn [pos advance].
  destruct (Hcap (consume u st)) as [_ ->]. rewrite pos_consume. lia.
Qed.

(** The items before the dots. *)
Lemma exec_before_dots (rs : list regex) (f : char → bool)
    (K : mstate → option mstate) (res : mstate) :
  ∀ st, exec (seqs (rs ++ [Star (Cls f)])) st K = Some res →
        ∃ st2 w, rest st = w ++ rest st2
                 ∧ pos st2 = (pos st + length w)%nat
                 ∧ exec (Star (Cls f)) st2 K = Some res.
Proof.
  induction rs as [|r rs IH]; intros st.
  - cbn [app]. rewrite exec_seqs_cons. intros E.
    exists st, []. split; [done|]. split; [cbn [length]; lia|exact E].
  - rewrite <- app_comm_cons, exec_seqs_cons. intros E.
    apply exec_sound in E as (st1 & w1 & ? & E & Hr1 & Hp1 & _).
    apply IH in E as (st2 & w2 & Hr2 & Hp2 & E).
    exists st2, (w1 ++ w2). rewrite Hr1, Hr2, Hp2, Hp1, length_app, app_assoc.
    split; [done|]. split; [lia|done].
Qed.

(** On a text that ends with a newline, a match of the delimiter
    pattern holds the newline of its header line. *)
Lemma pattern_takes_newline (p : option char) (z : pystr) (st : mstate) :
  z = [] ∨ last z = Some NL →
  re_match pattern p z = Some st →
  (1 ≤ count_nl (take (pos st) z))%nat.
Proof.
  intros Hz. unfold re_match, pattern.
  rewrite exec_seqs_cons, exec_Grp, exec_Alt.
  set (st0 := {| pos := O; prev := p; rest := z; caps := [] |}).
  assert (∀ rs res,
            exec (seqs (rs ++ [Star (Cls is_dot)])) st0
              (fun st' =>
                 exec (seqs [Cls isspace;
                             Grp text_content
                               (Star (seqs [Bol; Chr HASH; Star (Cls is_dot);
                                            Opt (Cls isspace)]))])
                   (set_cap header_line
                      (take (pos st' - pos st0) (rest st0)) st') Some)
            = Some res →
            (1 ≤ count_nl (take (pos res) z))%nat) as Hgo.
  { intros rs res E.
    apply exec_before_dots in E as (st2 & w & Hr & Hp & E).
    cbn [rest pos st0] in Hr, Hp.
    eapply (dots_then_newline _ _
              (fun x => set_cap header_line
                          (take (pos x - pos st0) (rest st0)) x))
      in E as (u & tl & Hu & Hlt); [| done | done |].
    - rewrite Hr, Hu, app_assoc. apply count_nl_take.
      rewrite length_app. lia.
    - apply (last_suffix w). by rewrite <- Hr. }
  destruct (exec _ st0 _) as [res|] eqn:EA.
  - intros [= <-].
    by apply (Hgo [Bol; AtLeast 20 (Chr HASH)]) in EA.
  - intros EB.
    by apply (Hgo [Bol; Chr HASH; Opt (Chr SP); Lit (str "%%")]) in EB.
Qed.

Lemma forallb_elem_of {A} (f : A → bool) (l : list A) :
  (∀ x, x ∈ l → f x = true) → forallb f l = true.
Proof.
  induction l as [|x l IH]; intros Hf; simpl; [done|].
  rewrite Hf by by left. apply IH. intros y Hy. apply Hf. by right.
Qed.

(** When the text ends with a newline, the header line of every
    delimiter match ends with its newline: the match holds exactly one
    newline more than its text content. *)
Theorem headers_end_lines (s : pystr) :
  s = [] ∨ last s = Some NL →
  forallb header_ends_line (finditer pattern s) = true.
Proof.
  intros Hs. apply forallb_elem_of. intros m Hm.
  apply finditer_match in Hm as (a & z & st & -> & _ & E & Ht & Hg).
  apply last_suffix in Hs.
  pose proof (pattern_takes_newline _ _ _ Hs E) as Hn.
  apply re_match_sound in E as (_ & _ & HL).
  apply lang_pattern
    in HL as (h & c & tc & Hw & Hc & _ & _ & Hh & _ & Htc).
  unfold header_ends_line. rewrite Ht, Hg, Hc, Hw in *.
  cbn [group text_content]. simpl default.
  rewrite count_nl_app in *. cbn [count_nl] in *. rewrite Hh in *.
  apply Nat.eqb_eq.
  destruct Htc as [->|[-> _]]; [|by rewrite N.eqb_refl].
  simpl in *. destruct (c =? NL); [done|lia].
Qed.

Lemma headers_end_lines_witness :
  forallb header_ends_line (finditer pattern broken_script) = true.
Proof.
  apply (headers_end_lines broken_script). right. reflexivity.
Defined.

(** ** The last directive of a name *)

Section LastDirective.
Context `{PyEnv}.

(** An entry stays as long as no directive of its name is decoded. *)
Lemma extract_fold_keeps (n : pystr) (x : pyvalue) (ms : list Match) :
  (∀ m v, m ∈ ms → directive_of m = Some (n, v) →
          ∀ y, literal_eval v ≠ Value y) →
  ∀ log conf log' conf',
    conf !! n = Some x →
    foldl extract_step (log, Ok conf) ms = (log', Ok conf') →
    conf' !! n = Some x.
Proof.
  induction ms as [|m ms IH]; intros Hms log conf log' conf' Hn.
  - simpl. by intros [= _ <-].
  - assert (∀ m' v, m' ∈ ms → directive_of m' = Some (n, v) →
                    ∀ y, literal_eval v ≠ Value y) as Hms'.
    { intros m' v Hin. apply Hms. by right. }
    cbn [foldl]. rewrite extract_step_ok.
    destruct (directive_of m) as [[name value]|] eqn:Ed; [|by apply IH].
    destruct (literal_eval value) as [y| | |e] eqn:El; try by apply IH.
    + apply IH; [done|]. rewrite lookup_insert_ne; [done|].
      intros ->. by apply (Hms m value (list_elem_of_here _ _) Ed y).
    + rewrite extract_fold_raise. discriminate.
Qed.

(** The loop of [extract_file_config] assigns [file_conf[name]] at every
    directive that is decoded, so the entry of a name is the value of
    the last directive of that name that is decoded. *)
Theorem last_directive_wins (content : pystr) (i : nat) (m : Match)
    (n v : pystr) (x : pyvalue) (log : list warning)
    (conf : gmap pystr pyvalue) :
  finditer INFILE_CONFIG_PATTERN content !! i = Some m →
  directive_of m = Some (n, v) →
  literal_eval v = Value x →
  (∀ j m' v', (i < j)%nat →
              finditer INFILE_CONFIG_PATTERN content !! j = Some m' →
              directive_of m' = Some (n, v') →
              ∀ y, literal_eval v' ≠ Value y) →
  extract_file_config content = (log, Ok conf) →
  conf !! n = Some x.
Proof.
  intros Hi Hd Hv Hlater. unfold extract_file_config.
  rewrite <- (take_drop_middle _ _ _ Hi), foldl_app. cbn [foldl].
  destruct (foldl extract_step ([], Ok ∅) (take i _)) as [log1 [conf1|e]].
  2:{ cbn [extract_step]. rewrite extract_fold_raise. discriminate. }
  rewrite extract_step_ok, Hd, Hv.
  apply extract_fold_keeps; [|by rewrite lookup_insert_eq].
  intros m' v' Hin Hd'.
  apply list_elem_of_lookup in Hin as [j Hj]. rewrite lookup_drop in Hj.
  apply (Hlater (S i + j)%nat m' v'); [lia|done|done].
Qed.

End LastDirective.

Lemma last_directive_wins_witness :
  ({[ str "a" := 2%Z ]} : gmap pystr Z) !! str "a" = Some 2%Z.
Proof.
  apply (@last_directive_wins no_file_env repeated_text 1 repeated_match
           (str "a") (str "2") 2%Z []); try (vm_compute; reflexivity).
  intros j m' v' Hj Hl. destruct j as [|[|j]]; [lia|lia|].
  vm_compute in Hl. discriminate.
Defined.

(** ** The removal of the comment signs *)

Lemma sub_pat_match (p : option char) (s : pystr) :
  re_match sub_pat p s
  = match s with
    | c :: tl =>
        if at_bol p && (c =? HASH)
        then Some {| pos := 1; prev := Some c; rest := tl; caps := [] |}
        else None
    | [] => None
    end.
Proof.
  unfold re_match, sub_pat. rewrite exec_seqs_cons, exec_Bol. cbn [prev].
  destruct (at_bol p); cbn [andb].
  - rewrite exec_seqs_cons. cbn [exec rest]. destruct s as [|c tl]; [done|].
    by destruct (c =? HASH).
  - by destruct s.
Qed.

Lemma join_nl_first (c : char) (l : pystr) (ls : list pystr) :
  join_nl ((c :: l) :: ls) = c :: join_nl (l :: ls).
Proof. by destruct ls. Qed.

Lemma sub_pat_scan (s : pystr) :
  ∀ p, flat_map unmatched (scan sub_pat p O s)
       = join_nl (sub_lines (at_bol p) (split_nl s)).
Proof.
  induction s as [|c tl IH]; intros p.
  - rewrite scan_0_none by by rewrite sub_pat_match.
    simpl. by destruct (at_bol p).
  - pose proof (split_nl_nonempty tl) as Hne.
    destruct (at_bol p && (c =? HASH)) eqn:E.
    + apply andb_true_iff in E as [Hp Hc]. apply N.eqb_eq in Hc as ->.
      assert (re_match sub_pat p (HASH :: tl)
              = Some {| pos := 1; prev := Some HASH; rest := tl; caps := [] |})
        as Em by by rewrite sub_pat_match, Hp.
      rewrite (scan_0_some _ _ _ _ _ O Em) by done.
      cbn [flat_map unmatched app]. rewrite IH, Hp. cbn [split_nl].
      change (HASH =? NL) with false. cbn [at_bol].
      change (HASH =? NL) with false.
      destruct (split_nl tl) as [|l ls]; [done|].
      cbn [sub_lines strip_hash]. by rewrite N.eqb_refl.
    + rewrite scan_0_none by by rewrite sub_pat_match, E.
      cbn [flat_map unmatched app]. rewrite IH. cbn [split_nl at_bol].
      destruct (c =? NL) eqn:Ec.
      * destruct (split_nl tl) as [|l ls]; [done|].
        cbn [sub_lines fmap list_fmap]. rewrite join_nl_cons.
        apply N.eqb_eq in Ec as ->. by destruct (at_bol p).
      * destruct (split_nl tl) as [|l ls]; [done|].
        cbn [sub_lines]. rewrite <- join_nl_first. f_equal. f_equal.
        destruct (at_bol p); [|done]. cbn [andb] in E.
        cbn [strip_hash]. by rewrite E.
Qed.

(** [re.sub('^#', '', s)] takes the [#] off every line that starts with
    one, and changes nothing else. *)
Theorem sub_pat_strips_hashes (s : pystr) :
  re_sub_empty sub_pat s = join_nl (strip_hash <$> split_nl s).
Proof.
  unfold re_sub_empty. rewrite sub_pat_scan. cbn [at_bol].
  pose proof (split_nl_nonempty s) as Hne.
  by destruct (split_nl s).
Qed.

(** ** Nothing of the text is lost *)

Lemma drop_split (s : pystr) (i j : nat) :
  (i ≤ j)%nat → drop i s = slice s i j ++ drop j s.
Proof.
  intros H. unfold slice.
  rewrite <- (take_drop (j - i) (drop i s)) at 1. f_equal.
  rewrite drop_drop. f_equal. lia.
Qed.


Lemma gaps_interleave (s : pystr) (ms : list Match) :
  ∀ pos, positioned s pos ms →
         drop pos s = interleave (gaps_of s pos ms) (m_text <$> ms).
Proof.
  induction ms as [|m ms IH]; intros pos Hp; [done|].
  cbn [positioned] in Hp. destruct Hp as (Hle & Hd & _ & _ & Hp).
  cbn [gaps_of fmap list_fmap interleave].
  rewrite <- (IH _ Hp), <- Hd. by apply drop_split.
Qed.


Section Cover.
Context `{PyEnv}.



End Cover.


(** ** What the stripper removes is what the extractor reads *)

Lemma slice_split (s : pystr) (i j k : nat) :
  (i ≤ j)%nat → (j ≤ k)%nat → slice s i k = slice s i j ++ slice s j k.
Proof.
  intros Hij Hjk. unfold slice.
  rewrite (take_split (drop i s) (j - i) (k - i)) by lia. f_equal.
  unfold slice. rewrite drop_drop. f_equal; [lia|f_equal; lia].
Qed.

Lemma gaps_shift (s : pystr) (ms : list Match) (off off' : nat) :
  (off ≤ off')%nat → positioned s off' ms →
  concat (gaps_of s off ms) = slice s off off' ++ concat (gaps_of s off' ms).
Proof.
  intros Ho Hp. destruct ms as [|m ms]; cbn [gaps_of concat].
  - rewrite !app_nil_r. by apply drop_split.
  - cbn [positioned] in Hp. destruct Hp as (Hle & _).
    by rewrite (slice_split s off off' (m_start m)), <- app_assoc.
Qed.

Lemma gaps_unmatched (s : pystr) (ps : list piece) :
  ∀ pre, s = pre ++ flat_map piece_text ps →
         concat (gaps_of s (length pre) (matches_of (length pre) ps))
         = flat_map unmatched ps.
Proof.
  induction ps as [|[c|t g] ps IH]; intros pre E.
  - cbn [matches_of gaps_of concat flat_map] in *. rewrite app_nil_r in *.
    unfold slice_from. subst s. by rewrite drop_all.
  - cbn [matches_of flat_map unmatched piece_text] in *.
    assert (s = (pre ++ [c]) ++ flat_map piece_text ps) as E'
      by by rewrite <- app_assoc.
    assert (length (pre ++ [c]) = S (length pre)) as El
      by (rewrite length_app; simpl; lia).
    pose proof (matches_of_positioned s ps _ E') as Hp.
    pose proof (IH _ E') as IH'. rewrite El in *.
    rewrite (gaps_shift s _ (length pre) (S (length pre))) by (lia || done).
    rewrite IH'. f_equal. unfold slice.
    replace (S (length pre) - length pre)%nat with 1%nat by lia.
    by rewrite E, drop_app_length.
  - cbn [matches_of gaps_of concat flat_map unmatched piece_text
         m_start m_end app] in *.
    unfold slice at 1. rewrite Nat.sub_diag, take_0. cbn [app].
    replace (length pre + length t)%nat with (length (pre ++ t))
      by by rewrite length_app.
    apply IH. by rewrite <- app_assoc.
Qed.

(** The code segment is made of gaps and of the matches of the
    directive pattern between them, the matches that
    [extract_file_config] goes through, and [remove_config_comments]
    returns the gaps, one after the other. *)
Theorem removed_are_the_directives (code_block : pystr) :
  code_block
  = interleave (gaps_of code_block O
                  (finditer INFILE_CONFIG_PATTERN code_block))
      (m_text <$> finditer INFILE_CONFIG_PATTERN code_block)
  ∧ remove_config_comments code_block
    = concat (gaps_of code_block O
                (finditer INFILE_CONFIG_PATTERN code_block)).
Proof.
  split.
  - rewrite <- (gaps_interleave code_block _ O
                  (finditer_positioned INFILE_CONFIG_PATTERN code_block)).
    by rewrite drop_0.
  - unfold remove_config_comments, re_sub_empty, finditer. symmetry.
    apply (gaps_unmatched code_block _ []).
    by rewrite scan_partition, drop_0.
Qed.

(** ** The text content of a section *)

Lemma split_nl_dots (l : pystr) : forallb is_dot l = true → split_nl l = [l].
Proof.
  induction l as [|c l IH]; simpl; [done|]. intros H.
  apply andb_true_iff in H as [Hc H]. unfold is_dot in Hc.
  apply negb_true_iff in Hc. by rewrite Hc, IH.
Qed.

Lemma split_nl_line (l r : pystr) :
  forallb is_dot l = true → split_nl (l ++ NL :: r) = l :: split_nl r.
Proof.
  induction l as [|c l IH]; simpl; [done|]. intros H.
  apply andb_true_iff in H as [Hc H]. unfold is_dot in Hc.
  apply negb_true_iff in Hc. by rewrite Hc, IH.
Qed.

Lemma last_dots (l : pystr) (c : char) :
  forallb is_dot l = true → last l = Some c → at_bol (Some c) = false.
Proof.
  intros H Hl. induction l as [|x l IH]; [done|].
  simpl in H. apply andb_true_iff in H as [Hx H].
  destruct l as [|y l]; [|by apply IH].
  injection Hl as <-. unfold is_dot in Hx. by apply negb_true_iff in Hx.
Qed.

Lemma lang_comment_lines (p : option char) (tc : pystr)
    (cs : list (nat * pystr)) :
  lang (Star (seqs [ Bol; Chr HASH; Star (Cls is_dot);
                     Opt (Cls isspace) ])) p tc cs →
  comment_lines (split_nl tc) = true.
Proof.
  cbn [lang]. induction 1 as [|p w1 w2 cs1 cs2 H1 _ H2 IH]; [done|].
  apply (lang_text_content _ w2 cs2) in H2 as [_ H2].
  unfold seqs, Opt in H1. cbn [foldr lang] in H1.
  destruct H1 as (? & ? & ? & ? & -> & -> & (Hb & -> & ->) & H1).
  destruct H1 as (? & ? & ? & ? & -> & -> & [-> ->] & H1).
  destruct H1 as (d & ? & ? & ? & -> & -> & Hd & H1).
  apply star_lang_cls in Hd as [Hd ->].
  destruct H1 as (e & ? & ? & ? & -> & -> & He & [-> ->]).
  rewrite app_nil_r in *. cbn [app] in *.
  assert (forallb is_dot (HASH :: d) = true) as Hhd by (simpl; by rewrite Hd).
  destruct H2 as [->|[Hbol Hh]].
  - rewrite app_nil_r. destruct He as [(x & -> & Hx & ->)|[-> ->]].
    + destruct (x =? NL) eqn:Ex.
      * apply N.eqb_eq in Ex as ->.
        change (HASH :: d ++ [NL]) with ((HASH :: d) ++ NL :: []).
        rewrite split_nl_line by done. by cbn.
      * change (HASH :: d ++ [x]) with ((HASH :: d) ++ [x]).
        rewrite split_nl_dots.
        -- by cbn.
        -- rewrite forallb_app, Hhd. simpl. unfold is_dot. by rewrite Ex.
    + rewrite app_nil_r, split_nl_dots by done. by cbn.
  - assert (e = [NL]) as ->.
    { destruct He as [(x & -> & Hx & ->)|[-> ->]].
      - change (HASH :: d ++ [x]) with ((HASH :: d) ++ [x]) in Hbol.
        unfold prev_after in Hbol. rewrite last_snoc in Hbol.
        simpl in Hbol. by apply N.eqb_eq in Hbol as ->.
      - rewrite app_nil_r in Hbol. unfold prev_after in Hbol.
        destruct (last (HASH :: d)) as [c|] eqn:El;
          [|by apply last_None in El].
        by rewrite (last_dots _ _ Hhd El) in Hbol. }
    change ((HASH :: d ++ [NL]) ++ w2) with (((HASH :: d) ++ [NL]) ++ w2).
    rewrite <- app_assoc. cbn [app].
    change (HASH :: d ++ NL :: w2) with ((HASH :: d) ++ NL :: w2).
    rewrite split_nl_line by done.
    pose proof (split_nl_nonempty w2) as Hne.
    destruct (split_nl w2) as [|l ls] eqn:Es; [done|].
    change (comment_lines ((HASH :: d) :: l :: ls))
      with (starts_with [HASH] (HASH :: d) && comment_lines (l :: ls)).
    rewrite IH. by cbn.
Qed.

Lemma lang_pattern_text (p : option char) (w : pystr)
    (cs : list (nat * pystr)) :
  lang pattern p w cs →
  ∃ q tc cs',
    group text_content cs = Some tc
    ∧ lang (Star (seqs [ Bol; Chr HASH; Star (Cls is_dot);
                         Opt (Cls isspace) ])) q tc cs'.
Proof.
  unfold pattern, seqs. cbn [foldr]. intros H0.
  destruct H0 as (h & ? & ? & ? & -> & -> & (ch & -> & Hh) & H0).
  destruct H0 as (? & ? & ? & ? & -> & -> & (c & -> & Hc & ->) & H0).
  destruct H0 as (tc & ? & ? & ? & -> & -> & (ct & -> & Ht) & [-> ->]).
  eexists _, tc, ct. split; [done|exact Ht].
Qed.

Lemma comment_lines_tail (ls : list pystr) :
  comment_lines ls = true → strip_hash <$> ls = tail <$> ls.
Proof.
  induction ls as [|l ls IH]; [done|]. cbn [comment_lines fmap list_fmap].
  assert (starts_with [HASH] l = true → strip_hash l = tail l) as Hl.
  { destruct l as [|c l]; [done|]. simpl. by intros ->%andb_true_iff%proj1. }
  destruct ls as [|l' ls].
  - intros H. f_equal. destruct l as [|c l]; [done|]. by apply Hl.
  - intros [H1 H2]%andb_true_iff. f_equal; [by apply Hl|by apply IH].
Qed.

(** The text content of a delimiter match is a run of comment lines,
    and the substitution that [split_code_and_text_blocks] applies to
    it takes the first character, the [#], off every line. *)
Theorem text_content_is_comment_lines (s : pystr) (m : Match) (tc : pystr) :
  m ∈ finditer pattern s →
  group text_content (m_groups m) = Some tc →
  comment_lines (split_nl tc) = true
  ∧ re_sub_empty sub_pat tc = join_nl (tail <$> split_nl tc).
Proof.
  intros Hm Hg. apply finditer_lang in Hm as (a & z & _ & _ & HL).
  apply lang_pattern_text in HL as (q & tc' & cs' & Hg' & HL).
  rewrite Hg in Hg'. injection Hg' as <-.
  apply lang_comment_lines in HL. split; [done|].
  unfold re_sub_empty. rewrite sub_pat_scan. cbn [at_bol].
  pose proof (split_nl_nonempty tc) as Hne.
  rewrite <- (comment_lines_tail _ HL).
  by destruct (split_nl tc).
Qed.

Lemma text_content_is_comment_lines_witness :
  comment_lines (split_nl (str "#A" ++ [NL])) = true
  ∧ re_sub_empty sub_pat (str "#A" ++ [NL])
    = join_nl (tail <$> split_nl (str "#A" ++ [NL])).
Proof.
  apply (text_content_is_comment_lines broken_script broken_match).
  - vm_compute. by left.
  - reflexivity.
Defined.

(** ** Flags *)

(** Claim C9 does not hold of the code.  The line [# mkdocs_gallery_skip]
    is a flag: it has no [= value] part.  When the next line starts with
    an equals sign, the [\s*] before the [=] of the directive pattern
    takes the newline, the match runs over the two lines, and the flag
    is read as the directive [skip = 2]: [extract_file_config] returns
    an entry for it, and [remove_config_comments] deletes the second
    line, which is no comment, with the first. *)
Theorem flag_line_gives_entry :
  split_nl flag_then_value_text
  = [str "# mkdocs_gallery_skip"; str "= 2"; []]
  ∧ classify (str "# mkdocs_gallery_skip") = FlagLine
  ∧ m_text <$> finditer INFILE_CONFIG_PATTERN flag_then_value_text
    = [flag_then_value_text]
  ∧ directive_of <$> finditer INFILE_CONFIG_PATTERN flag_then_value_text
    = [Some (str "skip", str "2")]
  ∧ @extract_file_config no_file_env flag_then_value_text
    = ([], Ok {[ str "skip" := 2%Z ]})
  ∧ remove_config_comments flag_then_value_text = [].
Proof. repeat split; vm_compute; reflexivity. Qed.

Lemma value_follows_intro (w a s1 z : pystr) :
  forallb isspace s1 = true →
  value_follows w (a ++ w ++ s1 ++ EQUALS :: z) = true.
Proof.
  intros Hs. induction a as [|c a IH].
  - cbn [app]. assert (value_here w (w ++ s1 ++ EQUALS :: z) = true) as Hh.
    { unfold value_here. rewrite strip_prefix_app by exact [].
      rewrite (drop_while_app_all isspace s1) by by apply drop_while_all.
      reflexivity. }
    destruct (w ++ s1 ++ EQUALS :: z); cbn [value_follows]; by rewrite Hh.
  - cbn [app value_follows]. by rewrite IH, orb_true_r.
Qed.

Section Flags.
Context `{PyEnv}.

(** A name never followed by a value has no entry: when nowhere in the
    text [mkdocs_gallery_<name>] is followed, after whitespace only, by
    an equals sign, all the matches with this name are flags (their
    group 3 is [None]) and the mapping that [extract_file_config]
    returns has no entry for the name. *)
Theorem option_without_value_has_no_entry (content n : pystr) :
  value_follows (str "mkdocs_gallery_" ++ n) content = false →
  (∀ m, m ∈ finditer INFILE_CONFIG_PATTERN content →
        group 1 (m_groups m) = Some n → group 3 (m_groups m) = None)
  ∧ (∀ log conf, extract_file_config content = (log, Ok conf) →
                 conf !! n = None).
Proof.
  intros Hv.
  assert (∀ m, m ∈ finditer INFILE_CONFIG_PATTERN content →
               group 1 (m_groups m) = Some n → group 3 (m_groups m) = None)
    as Hflags.
  { intros m Hm Hg.
    apply finditer_lang in Hm as (a & z & Hs & _ & HL).
    apply lang_config
      in HL as (b & sp & name & tail & _ & Hw & _ & _ & Hg' & _ & _ & Ht).
    rewrite Hg in Hg'. injection Hg' as <-.
    destruct Ht as [[Hg3 _]|(s1 & s2 & v & t & _ & Ht & Hs1 & _)]; [done|].
    exfalso. rewrite Hw, Ht in Hs.
    assert (content
            = (a ++ b ++ HASH :: sp) ++ (str "mkdocs_gallery_" ++ n) ++ s1
              ++ EQUALS :: (s2 ++ v ++ t) ++ z) as Hc.
    { rewrite Hs. by repeat (progress (rewrite <- ?app_assoc; cbn [app])). }
    rewrite Hc, value_follows_intro in Hv by done. discriminate. }
  split; [exact Hflags|].
  intros log conf E. unfold extract_file_config in E.
  eapply extract_fold_no_entry; [exact Hflags| |exact E]. apply lookup_empty.
Qed.

End Flags.

Lemma option_without_value_has_no_entry_witness :
  @extract_file_config no_file_env flag_and_directive_text
  = ([], Ok {[ str "thumbnail_number" := 2%Z ]})
  ∧ ({[ str "thumbnail_number" := 2%Z ]} : gmap pystr Z) !! str "skip" = None.
Proof.
  destruct (@option_without_value_has_no_entry no_file_env
              flag_and_directive_text (str "skip"))
    as [_ Hentry]; [vm_compute; reflexivity|].
  split; [vm_compute; reflexivity|].
  apply (Hentry []). vm_compute. reflexivity.
Defined.

(** ** The exceptions of the parser and of the tokenizer *)

Lemma first_string_end_none (ts : list token) (e : string) :
  no_string_token ts = true →
  first_string_end ts (Some e) = Raise (LibraryError e).
Proof.
  induction ts as [|tk ts IH]; simpl; [done|].
  intros [Htk Hts]%andb_true_iff. apply negb_true_iff in Htk.
  rewrite Htk. by apply IH.
Qed.

Lemma first_string_end_found (ts1 ts2 : list token) (tk : token)
    (e : option string) :
  no_string_token ts1 = true → exact_type tk = 3%nat →
  first_string_end (ts1 ++ tk :: ts2) e = Ok (end_row tk).
Proof.
  intros H1 Htk. induction ts1 as [|t ts1 IH]; simpl.
  - by rewrite Htk.
  - simpl in H1. apply andb_true_iff in H1 as [Ht H1].
    apply negb_true_iff in Ht. rewrite Ht. by apply IH.
Qed.

Section LibraryErrors.
Context `{PyEnv}.

(** On Python 3.7 and later the loop over the tokens stops at the first
    string token.  When the tokenizer raises before it has yielded a
    string token, the exception leaves [_get_docstring_and_rest] and
    [split_code_and_text_blocks]; when it has yielded one, the line of
    its end is the line of the end of the docstring, and what the
    tokenizer does after it, an exception included, is never seen. *)
Theorem tokenizer_error_before_string (file : Path) (return_node : bool)
    (raw s d : pystr) (dl : nat) (body : list stmt) :
  read_text file = Ok raw →
  ast_parse (replace_crlf raw) = Parsed (Module (Expr (Str s) dl :: body)) →
  python_ge_37 = true →
  ast_get_docstring (Module (Expr (Str s) dl :: body)) = Some d →
  (∀ e, raised (tokenize (replace_crlf raw)) = Some e →
        no_string_token (yielded (tokenize (replace_crlf raw))) = true →
        _get_docstring_and_rest file = Raise (LibraryError e)
        ∧ split_code_and_text_blocks file return_node
          = ([], Raise (LibraryError e)))
  ∧ (∀ ts1 tk ts2,
       yielded (tokenize (replace_crlf raw)) = ts1 ++ tk :: ts2 →
       no_string_token ts1 = true → exact_type tk = 3%nat →
       ∃ docstring,
         _get_docstring_and_rest file
         = Ok (docstring,
               join_nl (drop (end_row tk) (split_nl (replace_crlf raw))),
               S (end_row tk),
               Some (Module (Expr (Str s) dl :: body)))).
Proof.
  intros Hr Hp H37 Hd. split.
  - intros e He Hn.
    assert (_get_docstring_and_rest file = Raise (LibraryError e)) as E.
    { unfold _get_docstring_and_rest, parse_source_file.
      rewrite Hr. simpl. rewrite Hp. simpl. rewrite H37, Hd. simpl.
      by rewrite He, first_string_end_none. }
    split; [exact E|]. unfold split_code_and_text_blocks. by rewrite E.
  - intros ts1 tk ts2 Hy Hn Htk.
    unfold _get_docstring_and_rest, parse_source_file.
    rewrite Hr. simpl. rewrite Hp. simpl. rewrite H37, Hd. simpl.
    rewrite Hy, first_string_end_found by done. simpl. eauto.
Qed.

(** [parse_source_file] catches [SyntaxError] only: any other exception
    of [ast.parse] leaves it, [_get_docstring_and_rest] and
    [split_code_and_text_blocks], before any warning is logged. *)
Theorem parse_error_propagates (file : Path) (return_node : bool)
    (raw : pystr) (e : string) :
  read_text file = Ok raw →
  ast_parse (replace_crlf raw) = ParseError e →
  parse_source_file file = Raise (LibraryError e)
  ∧ _get_docstring_and_rest file = Raise (LibraryError e)
  ∧ split_code_and_text_blocks file return_node
    = ([], Raise (LibraryError e)).
Proof.
  intros Hr Hp.
  assert (parse_source_file file = Raise (LibraryError e)) as E1.
  { unfold parse_source_file. rewrite Hr. simpl. by rewrite Hp. }
  assert (_get_docstring_and_rest file = Raise (LibraryError e)) as E2.
  { unfold _get_docstring_and_rest. by rewrite E1. }
  split; [exact E1|]. split; [exact E2|].
  unfold split_code_and_text_blocks. by rewrite E2.
Qed.

End LibraryErrors.

Lemma tokenizer_error_before_string_witness :
  (@_get_docstring_and_rest cookie_env "cookie.py"%string
   = Raise (LibraryError "SyntaxError")
   ∧ @split_code_and_text_blocks cookie_env "cookie.py"%string false
     = ([], Raise (LibraryError "SyntaxError")))
  ∧ ∃ docstring,
      @_get_docstring_and_rest late_error_env "titled.py"%string
      = Ok (docstring,
            join_nl (drop 3 (split_nl (replace_crlf titled_script))),
            4%nat,
            Some (Module [Expr (Str (NL :: str "Title" ++ [NL])) 3;
                          OtherStmt])).
Proof.
  split.
  - destruct (@tokenizer_error_before_string cookie_env "cookie.py"%string
                false cookie_script (NL :: str "Title" ++ [NL]) (str "Title")
                4 [OtherStmt])
      as [Hraises _]; [reflexivity|reflexivity|reflexivity|reflexivity|].
    apply Hraises; reflexivity.
  - destruct (@tokenizer_error_before_string late_error_env
                "titled.py"%string false titled_script
                (NL :: str "Title" ++ [NL]) (str "Title") 3 [OtherStmt])
      as [_ Hreturns]; [reflexivity|reflexivity|reflexivity|reflexivity|].
    apply (Hreturns [ {| exact_type := 62; end_row := 0 |} ]
             {| exact_type := 3; end_row := 3 |} []); reflexivity.
Defined.

Lemma parse_error_propagates_witness :
  @parse_source_file null_byte_env "null.py"%string
  = Raise (LibraryError "ValueError")
  ∧ @_get_docstring_and_rest null_byte_env "null.py"%string
    = Raise (LibraryError "ValueError")
  ∧ @split_code_and_text_blocks null_byte_env "null.py"%string true
    = ([], Raise (LibraryError "ValueError")).
Proof.
  apply (@parse_error_propagates null_byte_env "null.py"%string true
           null_byte_script); reflexivity.
Defined.
